(** * Supadata YouTube transcriber: a shallow embedding of
    [youtube_transcript_supadata.py] and the properties of its batch run.

    Python text is modelled as [string] (one [ascii] per code point below
    256).  The file system, the standard output and the calls that leave the
    process (the transcript API, [time.sleep]) are an explicit [World] that
    every function threads; what the surroundings answer (environment
    variables, I/O errors, the [csv] module, the remote API) is an [Env]
    that the program only reads.  Exceptions and [sys.exit] are results. *)

From Stdlib Require Import String Ascii List ZArith Lia Bool DecimalString.
From stdpp Require Import base gmap strings list.


(** ** Python strings *)

Module PyStr.

Definition chr (n : nat) : ascii := ascii_of_nat n.
Definition LF : string := String (chr 10) "".
Definition TAB : string := String (chr 9) "".

Definition is_lf (c : ascii) : bool := Ascii.eqb c (chr 10).
Definition is_cr (c : ascii) : bool := Ascii.eqb c (chr 13).
Definition is_quote (c : ascii) : bool := Ascii.eqb c (chr 34).

(** [str.isspace] on the code points below 256. *)
Definition is_space (c : ascii) : bool :=
  let n := nat_of_ascii c in
  ((9 <=? n)%nat && (n <=? 13)%nat) || ((28 <=? n)%nat && (n <=? 32)%nat)
  || (n =? 133)%nat || (n =? 160)%nat.

(** [s.lstrip(chars)], [s.rstrip(chars)] and [s.strip(chars)], the set of
    characters given as a predicate. *)
Fixpoint lstrip (p : ascii -> bool) (s : string) : string :=
  match s with
  | EmptyString => EmptyString
  | String c s' => if p c then lstrip p s' else s
  end.

Fixpoint rstrip (p : ascii -> bool) (s : string) : string :=
  match s with
  | EmptyString => EmptyString
  | String c s' =>
      match rstrip p s' with
      | EmptyString => if p c then EmptyString else String c EmptyString
      | r => String c r
      end
  end.

Definition strip (p : ascii -> bool) (s : string) : string :=
  rstrip p (lstrip p s).

(** [s.split(sep)] for a one-character separator: never an empty list. *)
Fixpoint split (sep : ascii) (s : string) : list string :=
  match s with
  | EmptyString => [EmptyString]
  | String c s' =>
      if Ascii.eqb c sep then EmptyString :: split sep s'
      else match split sep s' with
           | l :: ls => String c l :: ls
           | [] => [String c EmptyString]
           end
  end.

(** Reading in text mode with the default [newline=None]: every [\r\n] and
    every lone [\r] arrives as [\n].  [after_cr] says that the character
    before was a [\r], already delivered as [\n]. *)
Fixpoint translate_newlines (after_cr : bool) (s : string) : string :=
  match s with
  | EmptyString => EmptyString
  | String c s' =>
      if is_cr c then String (chr 10) (translate_newlines true s')
      else if is_lf c then
        if after_cr then translate_newlines false s'
        else String (chr 10) (translate_newlines false s')
      else String c (translate_newlines false s')
  end.

Definition universal_newlines (s : string) : string := translate_newlines false s.

(** The lines a [for line in f] loop sees: each keeps its final [\n], the
    last one may lack it. *)
Fixpoint keepends (s : string) : list string :=
  match s with
  | EmptyString => []
  | String c s' =>
      if is_lf c then String c EmptyString :: keepends s'
      else match keepends s' with
           | l :: ls => String c l :: ls
           | [] => [String c EmptyString]
           end
  end.

Definition file_lines (content : string) : list string :=
  keepends (universal_newlines content).

(** A line without its terminator. *)
Definition chomp (line : string) : string := rstrip is_lf line.

(** ["x" * n] *)
Fixpoint times (n : nat) (s : string) : string :=
  match n with
  | O => EmptyString
  | S n' => s +:+ times n' s
  end.

(** [str(n)] for a non-negative integer. *)
Definition of_nat (n : nat) : string := NilEmpty.string_of_uint (Nat.to_uint n).

(** Truthiness of a string: [if s:]. *)
Definition truthy (s : string) : bool :=
  match s with EmptyString => false | _ => true end.

(** All characters of a string satisfy a test. *)
Definition all_chars (p : ascii -> bool) (s : string) : bool :=
  forallb p (list_ascii_of_string s).

(** A line break, and a text without one. *)
Definition is_break (c : ascii) : bool := is_lf c || is_cr c.
Definition no_break (s : string) : Prop :=
  all_chars (fun c => negb (is_break c)) s = true.

(** [os.path.join(a, b)] on POSIX. *)
Definition path_join (a b : string) : string :=
  match b with
  | String c _ =>
      if Ascii.eqb c (chr 47) then b
      else match String.rev a with
           | EmptyString => b
           | String d _ => if Ascii.eqb d (chr 47) then a +:+ b else a +:+ "/" +:+ b
           end
  | EmptyString =>
      match String.rev a with
      | EmptyString => b
      | String d _ => if Ascii.eqb d (chr 47) then a else a +:+ "/"
      end
  end.

End PyStr.
Import PyStr.


(** ** Results, surroundings and state *)

(** The two exception classes the program tells apart; both derive from
    [Exception].  [str(e)] is the message. *)
Inductive exn : Type :=
| SupadataError (msg : string)
| OtherError (msg : string).

Definition str_exn (e : exn) : string :=
  match e with SupadataError m => m | OtherError m => m end.

(** How a call ends.  [SysExit] is Python's [SystemExit]: it derives from
    [BaseException], so no [except Exception] clause catches it. *)
Inductive outcome (A : Type) : Type :=
| Return (a : A)
| Raise (e : exn)
| SysExit (code : Z).
Arguments Return {A} a.
Arguments Raise {A} e.
Arguments SysExit {A} code.

(** What [client.youtube.transcript(url, lang=..., text=True)] gives back: an
    object with a [content] attribute, something printed with [str], or an
    exception. *)
Inductive api_reply : Type :=
| ReplyObject (content : string)
| ReplyPlain (text : string)
| ReplyRaise (e : exn).

(** What the program reads from its surroundings and never changes. *)
Record Env : Type := mkSurroundings {
  (** [SUPADATA_API_KEY] in the process environment *)
  environ_api_key : option string;
  (** the same key in a local [.env] file *)
  dotenv_api_key : option string;
  (** the error [os.makedirs(path, exist_ok=True)] raises, if any *)
  makedirs_error : string -> option string;
  (** the error that [open(path, ...)], or reading the opened file line by
      line, raises, if any *)
  open_error : string -> option string;
  (** [csv.reader] over the lines of a file: the rows of the file and, when
      the iteration ends with an error, the number of rows yielded before it
      and its message *)
  csv_reader : list string -> list (list string) * option (nat * string);
  (** the remote API: the answer to the n-th call, for a URL and a language *)
  transcript_api : nat -> string -> string -> api_reply;
  (** for a file with an [open_error] that is read in a [for line in f]
      loop: the number of lines the loop sees before the error is raised
      (none when [open] itself raises it) *)
  lines_before_error : string -> nat
}.

(** Surroundings in which a file is read to its end or not at all. *)
Definition mkEnv (environ dotenv : option string)
    (makedirs_err open_err : string -> option string)
    (reader : list string -> list (list string) * option (nat * string))
    (api : nat -> string -> string -> api_reply) : Env :=
  mkSurroundings environ dotenv makedirs_err open_err reader api (fun _ => 0%nat).

(** A line on standard output.  The warning about a short CSV row embeds
    Python's [repr] of the row; it is kept structured. *)
Inductive message : Type :=
| Text (s : string)
| RowWarning (row_num : nat) (row : list string).

(** Calls that leave the process, in the order they are made. *)
Inductive event : Type :=
| ApiCall (url language : string)
| Sleep (seconds : nat).

(** Files are kept by the text of their path: two texts that name one file
    ([a/../b] and [b]) are two keys.  What is stated of the file at a
    transcript path is stated for video ids without a [/], which name a file
    of the transcripts directory itself. *)
Record World : Type := mkWorld {
  files : gmap string string;   (** text files by path *)
  dirs : gset string;           (** directories *)
  stdout : list message;
  events : list event
}.

(** A URL record: [(video_id, url, description)]. *)
Definition record : Type := string * string * string.
Definition record_url (r : record) : string := r.1.2.

Definition completed_file : string := "youtube_url_completed.txt".
Definition failed_file : string := "youtube_url_failed.txt".

(** ** The monad of the program: state, exceptions and exit *)

Definition M (A : Type) : Type := World -> World * outcome A.

Definition ret {A} (a : A) : M A := fun w => (w, Return a).

Definition bind {A B} (m : M A) (k : A -> M B) : M B :=
  fun w =>
    match m w with
    | (w', Return a) => k a w'
    | (w', Raise e) => (w', Raise e)
    | (w', SysExit c) => (w', SysExit c)
    end.

Definition raise {A} (e : exn) : M A := fun w => (w, Raise e).
Definition sys_exit {A} (code : Z) : M A := fun w => (w, SysExit code).

(** [try: m  except Exception as e: handler e] *)
Definition try_except {A} (m : M A) (handler : exn -> M A) : M A :=
  fun w =>
    match m w with
    | (w', Raise e) => handler e w'
    | r => r
    end.

Declare Scope py_scope.
Delimit Scope py_scope with py.
Notation "'let*' x ':=' m 'in' k" := (bind m (fun x => k))
  (at level 10, x name, m at level 100, k at level 200) : py_scope.
Notation "m '>>' k" := (bind m (fun _ => k))
  (at level 100, k at level 200, right associativity) : py_scope.
Local Open Scope py_scope.

(** *** Primitive effects *)

Definition print (s : string) : M unit :=
  fun w => (mkWorld (files w) (dirs w) (stdout w ++ [Text s]) (events w), Return tt).

Definition print_row_warning (row_num : nat) (row : list string) : M unit :=
  fun w => (mkWorld (files w) (dirs w) (stdout w ++ [RowWarning row_num row]) (events w),
            Return tt).

Definition emit (e : event) : M unit :=
  fun w => (mkWorld (files w) (dirs w) (stdout w) (events w ++ [e]), Return tt).

(** [time.sleep(seconds)] *)
Definition sleep (seconds : nat) : M unit := emit (Sleep seconds).

(** [os.path.exists(path)] *)
Definition path_exists (path : string) : M bool :=
  fun w => (w, Return (bool_decide (path ∈ dirs w) || bool_decide (is_Some (files w !! path)))).

(** A computation that only prints and returns. *)
Definition only_prints {A} (m : M A) : Prop :=
  forall w, exists out a,
    m w = (mkWorld (files w) (dirs w) (stdout w ++ out) (events w), Return a).

Section Program.

Variable E : Env.

(** [os.makedirs(path, exist_ok=True)] *)
Definition makedirs (path : string) : M unit :=
  fun w =>
    match makedirs_error E path with
    | Some msg => (w, Raise (OtherError msg))
    | None => (mkWorld (files w) ({[ path ]} ∪ dirs w) (stdout w) (events w), Return tt)
    end.

(** [with open(path, 'r') as f: ...] for the CSV file, whose lines
    [csv.reader] reads: the lines of the file, or the error of [open]. *)
Definition read_lines (path : string) : M (list string) :=
  fun w =>
    match open_error E path with
    | Some msg => (w, Raise (OtherError msg))
    | None =>
        match files w !! path with
        | Some content => (w, Return (file_lines content))
        | None => (w, Raise (OtherError ("No such file or directory: " +:+ path)))
        end
    end.

(** [with open(path, 'r') as f: for line in f: ...] inside a [try]: the
    lines the loop sees, and the exception that ends it, if any; with
    [lines_before_error] at 0 the exception is the one of [open]. *)
Definition iterate_lines (path : string) : M (list string * option exn) :=
  fun w =>
    match open_error E path with
    | Some msg =>
        (w, Return (take (lines_before_error E path)
                      (file_lines (default "" (files w !! path))),
                    Some (OtherError msg)))
    | None =>
        match files w !! path with
        | Some content => (w, Return (file_lines content, None))
        | None =>
            (w, Return ([], Some (OtherError ("No such file or directory: " +:+ path))))
        end
    end.

(** [with open(path, 'a') as f: f.write(text)] *)
Definition append_file (path text : string) : M unit :=
  fun w =>
    match open_error E path with
    | Some msg => (w, Raise (OtherError msg))
    | None =>
        (mkWorld (<[ path := default "" (files w !! path) +:+ text ]> (files w))
                 (dirs w) (stdout w) (events w), Return tt)
    end.

(** [with open(path, 'w') as f: f.write(text)] *)
Definition write_file (path text : string) : M unit :=
  fun w =>
    match open_error E path with
    | Some msg => (w, Raise (OtherError msg))
    | None =>
        (mkWorld (<[ path := text ]> (files w)) (dirs w) (stdout w) (events w), Return tt)
    end.

(** The number of API calls made so far. *)
Definition api_calls (evs : list event) : list (string * string) :=
  omap (fun e => match e with ApiCall u l => Some (u, l) | Sleep _ => None end) evs.

(** [client.youtube.transcript(url, lang=language, text=True)] followed by
    [transcript.content if hasattr(transcript, 'content') else str(transcript)] *)
Definition youtube_transcript (url language : string) : M string :=
  fun w =>
    let n := length (api_calls (events w)) in
    let w' := mkWorld (files w) (dirs w) (stdout w) (events w ++ [ApiCall url language]) in
    match transcript_api E n url language with
    | ReplyObject content => (w', Return content)
    | ReplyPlain text => (w', Return text)
    | ReplyRaise e => (w', Raise e)
    end.

(** ** The program *)

(** The key after [load_dotenv()], which never overrides the environment. *)
Definition getenv_api_key : option string :=
  match environ_api_key E with
  | Some k => Some k
  | None => dotenv_api_key E
  end.

Definition load_environment : M string :=
  match getenv_api_key with
  | Some (String c k) => ret (String c k)
  | _ =>
      print "Error: SUPADATA_API_KEY not found in environment variables." >>
      print "Please create a .env file with your API key:" >>
      print "SUPADATA_API_KEY=your_actual_api_key_here" >>
      print (LF +:+ "Or set the environment variable:") >>
      print "export SUPADATA_API_KEY=your_actual_api_key_here" >>
      sys_exit 1%Z
  end.

Definition ensure_transcripts_folder : M string :=
  let transcripts_dir := "transcripts" in
  try_except
    (let* present := path_exists transcripts_dir in
     (if negb present
      then makedirs transcripts_dir >>
           print ("Created transcripts folder: " +:+ transcripts_dir)
      else print ("Using existing transcripts folder: " +:+ transcripts_dir)) >>
     ret transcripts_dir)
    (fun e =>
       print ("Error creating transcripts folder: " +:+ str_exn e) >>
       let fallback_dir := "transcripts_fallback" in
       try_except
         (makedirs fallback_dir >>
          print ("Created fallback folder: " +:+ fallback_dir) >>
          ret fallback_dir)
         (fun fallback_e =>
            print ("Critical error: Could not create any transcripts folder: "
                   +:+ str_exn fallback_e) >>
            raise fallback_e)).

(** [completed_urls] is bound before the [try] and returned after it: when
    the loop ends with an exception the URLs gathered so far are returned. *)
Definition load_completed_urls : M (gset string) :=
  let* present := path_exists completed_file in
  if present then
    let* seen := iterate_lines completed_file in
    let completed_urls : gset string :=
      foldl (fun acc line =>
               let url := strip is_space line in
               if truthy url then {[ url ]} ∪ acc else acc) ∅ seen.1 in
    match seen.2 with
    | None =>
        print ("Loaded " +:+ of_nat (size completed_urls) +:+ " completed URLs from "
               +:+ completed_file) >>
        ret completed_urls
    | Some e =>
        print ("Warning: Could not load completed URLs: " +:+ str_exn e) >>
        ret completed_urls
    end
  else ret ∅.

(** [parts[0] if parts else ""] *)
Definition first_part (parts : list string) : string :=
  match parts with p :: _ => p | [] => "" end.

(** As [load_completed_urls]: [failed_urls] is bound before the [try]. *)
Definition load_failed_urls : M (gset string) :=
  let* present := path_exists failed_file in
  if present then
    let* seen := iterate_lines failed_file in
    let failed_urls : gset string :=
      foldl (fun acc line =>
               let parts := split (chr 9) (strip is_space line) in
               let url := first_part parts in
               if truthy url then {[ url ]} ∪ acc else acc) ∅ seen.1 in
    match seen.2 with
    | None =>
        print ("Loaded " +:+ of_nat (size failed_urls) +:+ " failed URLs from "
               +:+ failed_file) >>
        ret failed_urls
    | Some e =>
        print ("Warning: Could not load failed URLs: " +:+ str_exn e) >>
        ret failed_urls
    end
  else ret ∅.

Definition save_completed_url (url : string) : M unit :=
  try_except
    (append_file completed_file (url +:+ LF) >>
     print ("Saved completed URL: " +:+ url))
    (fun e => print ("Warning: Could not save completed URL: " +:+ str_exn e)).

Definition save_failed_url (url reason : string) : M unit :=
  try_except
    (append_file failed_file (url +:+ TAB +:+ reason +:+ LF) >>
     print ("Saved failed URL: " +:+ url +:+ " - Reason: " +:+ reason))
    (fun e => print ("Warning: Could not save failed URL: " +:+ str_exn e)).

(** The body of [for row_num, row in enumerate(reader, 1)], with the list
    [urls] it appends to.  [len(row) >= 2] is the first pattern. *)
Fixpoint read_rows (row_num : nat) (rows : list (list string)) (urls : list record)
  : M (list record) :=
  match rows with
  | [] => ret urls
  | row :: rest =>
      match row with
      | c0 :: c1 :: more =>
          let video_id := strip is_quote c0 in
          let url := strip is_quote c1 in
          let description :=
            match more with c2 :: _ => strip is_quote c2 | [] => "" end in
          read_rows (S row_num) rest (urls ++ [(video_id, url, description)])
      | _ =>
          print_row_warning row_num row >>
          read_rows (S row_num) rest urls
      end
  end.

(** [urls] is bound before the [try], so the handler returns what the loop
    had gathered when the reader failed. *)
Definition read_csv_urls (csv_file : string) : M (list record) :=
  let* present := path_exists csv_file in
  if negb present then
    print ("Error: CSV file '" +:+ csv_file +:+ "' not found") >>
    ret []
  else
    let* opened := try_except
                     (let* lines := read_lines csv_file in ret (inl lines))
                     (fun e => ret (inr e)) in
    match opened with
    | inr e => print ("Error reading CSV file: " +:+ str_exn e) >> ret []
    | inl lines =>
        let (rows, failure) := csv_reader E lines in
        match failure with
        | Some (n, msg) =>
            let* urls := read_rows 1 (take n rows) [] in
            print ("Error reading CSV file: " +:+ msg) >> ret urls
        | None =>
            let* urls := read_rows 1 rows [] in
            print ("Loaded " +:+ of_nat (length urls) +:+ " URLs from CSV file") >>
            ret urls
        end
    end.

Definition rule60 : string := times 60 "=".

(** The text written to the transcript file. *)
Definition transcript_text (url video_id description language content : string)
  : string :=
  ("Video ID: " +:+ video_id +:+ LF) +:+
  ("URL: " +:+ url +:+ LF) +:+
  ("Description: " +:+ description +:+ LF) +:+
  ("Language: " +:+ language +:+ LF) +:+
  (times 50 "-" +:+ LF +:+ LF) +:+
  content.

Definition get_youtube_transcript (url video_id description language : string)
  : M bool :=
  try_except
    (let* api_key := load_environment in
     let* transcripts_dir := ensure_transcripts_folder in
     print (LF +:+ rule60) >>
     print ("Processing: " +:+ description) >>
     print ("URL: " +:+ url) >>
     print ("Video ID: " +:+ video_id) >>
     print ("Language: " +:+ language) >>
     print rule60 >>
     print (LF +:+ "Fetching transcript...") >>
     try_except
       (let* content := youtube_transcript url language in
        print "Transcript retrieved successfully!" >>
        let filename := path_join transcripts_dir (video_id +:+ ".txt") in
        try_except
          (write_file filename
             (transcript_text url video_id description language content) >>
           print ("Transcript saved to: " +:+ filename) >>
           save_completed_url url >>
           ret true)
          (fun e =>
             let error_msg := "File save error: " +:+ str_exn e in
             print ("Error saving transcript to file: " +:+ str_exn e) >>
             save_failed_url url error_msg >>
             ret false))
       (fun e =>
          match e with
          | SupadataError m =>
              let error_msg := "Supadata API error: " +:+ m in
              print ("Supadata API error: " +:+ m) >>
              print "This might be due to:" >>
              print "- Invalid API key" >>
              print "- API rate limits" >>
              print "- Video not having transcripts" >>
              print "- Language not available" >>
              save_failed_url url error_msg >>
              ret false
          | OtherError m =>
              let error_msg := "Transcript fetch error: " +:+ m in
              print ("Error getting transcript: " +:+ m) >>
              save_failed_url url error_msg >>
              ret false
          end))
    (fun e =>
       let error_msg := "Unexpected error: " +:+ str_exn e in
       print ("Unexpected error: " +:+ str_exn e) >>
       save_failed_url url error_msg >>
       ret false).

(** [pending_urls]: the CSV records whose URL is in neither set. *)
Definition pending (urls : list record) (completed_urls failed_urls : gset string)
  : list record :=
  filter (fun r => (record_url r ∉ completed_urls) ∧ (record_url r ∉ failed_urls)) urls.

(** The body of [for i, (video_id, url, description) in
    enumerate(pending_urls, 1)]; [total] is [len(pending_urls)]. *)
Fixpoint process_loop (language : string) (total i : nat) (todo : list record)
    (successful failed : nat) : M (nat * nat) :=
  match todo with
  | [] => ret (successful, failed)
  | (video_id, url, description) :: rest =>
      print (LF +:+ "Processing " +:+ of_nat i +:+ "/" +:+ of_nat total +:+ ": "
             +:+ description) >>
      let* ok := get_youtube_transcript url video_id description language in
      let successful' := if ok : bool then S successful else successful in
      let failed' := if ok : bool then failed else S failed in
      (if (i <? total)%nat
       then print (LF +:+ "Pausing for 5 seconds before next URL...") >> sleep 5
       else ret tt) >>
      process_loop language total (S i) rest successful' failed'
  end.

Definition process_csv_urls (csv_file language : string) : M unit :=
  let* folder := try_except
                   (let* transcripts_dir := ensure_transcripts_folder in
                    print ("Transcripts will be saved to: " +:+ transcripts_dir) >>
                    ret true)
                   (fun e =>
                      print ("Critical error: Cannot proceed without transcripts folder: "
                             +:+ str_exn e) >>
                      ret false) in
  if negb folder then ret tt else
  let* urls := read_csv_urls csv_file in
  match urls with
  | [] => print "No URLs found in CSV file"
  | _ =>
      let* completed_urls := load_completed_urls in
      let* failed_urls := load_failed_urls in
      let pending_urls := pending urls completed_urls failed_urls in
      match pending_urls with
      | [] => print "All URLs have already been processed (completed or failed)!"
      | _ =>
          print ("Found " +:+ of_nat (length pending_urls) +:+ " URLs to process (out of "
                 +:+ of_nat (length urls) +:+ " total)") >>
          print ("Already completed: " +:+ of_nat (size completed_urls)) >>
          print ("Previously failed: " +:+ of_nat (size failed_urls)) >>
          let* counts := process_loop language (length pending_urls) 1 pending_urls 0 0 in
          print (LF +:+ rule60) >>
          print "PROCESSING COMPLETE" >>
          print rule60 >>
          print ("Total URLs in CSV: " +:+ of_nat (length urls)) >>
          print ("Already completed: " +:+ of_nat (size completed_urls)) >>
          print ("Previously failed: " +:+ of_nat (size failed_urls)) >>
          print ("Processed this run: " +:+ of_nat (length pending_urls)) >>
          print ("Successful: " +:+ of_nat counts.1) >>
          print ("Failed: " +:+ of_nat counts.2) >>
          print "Transcripts saved to: transcripts/ folder" >>
          print "Failed URLs saved to: youtube_url_failed.txt"
      end
  end.

Definition print_usage : M unit :=
  print "Usage: python3 youtube_transcript_supadata.py [options]" >>
  print (LF +:+ "Options:") >>
  print "  --language <lang>     Language code (e.g., 'en', 'es', 'fr') - defaults to 'en'" >>
  print "  --help, -h            Show this help message" >>
  print (LF +:+ "Examples:") >>
  print "  python3 youtube_transcript_supadata.py" >>
  print "  python3 youtube_transcript_supadata.py --language es" >>
  print (LF +:+ "Environment Setup:") >>
  print "  1. Create a .env file with: SUPADATA_API_KEY=your_api_key_here" >>
  print "  2. Or set environment variable: export SUPADATA_API_KEY=your_api_key_here" >>
  print "  3. Get your API key from: https://supadata.ai/" >>
  print (LF +:+ "Note: The script automatically processes youtube_url.csv") >>
  print "Default format: Plain text" >>
  print "Rate limiting: 5-second pause between URLs to avoid API limits".

(** [for i, arg in enumerate(sys.argv)]; [i + 1 < len(sys.argv)] says that
    an argument follows. *)
Fixpoint parse_args (args : list string) (language : string) : M string :=
  match args with
  | [] => ret language
  | arg :: rest =>
      match rest with
      | next :: _ =>
          if String.eqb arg "--language" then parse_args rest next
          else if String.eqb arg "--help" || String.eqb arg "-h"
               then print_usage >> sys_exit 0%Z
               else parse_args rest language
      | [] =>
          if negb (String.eqb arg "--language")
             && (String.eqb arg "--help" || String.eqb arg "-h")
          then print_usage >> sys_exit 0%Z
          else parse_args rest language
      end
  end.

Definition main (argv : list string) : M unit :=
  let* language := parse_args argv "en" in
  print "YouTube Transcript Fetcher - Processing youtube_url.csv" >>
  print rule60 >>
  try_except
    (ensure_transcripts_folder >> ret tt)
    (fun e =>
       print ("Critical error: Cannot create transcripts folder: " +:+ str_exn e) >>
       print "Please check permissions and try again." >>
       sys_exit 1%Z) >>
  process_csv_urls "youtube_url.csv" language.

(** The exit status of the process that runs [main()]. *)
Definition exit_status (r : outcome unit) : Z :=
  match r with
  | Return _ => 0%Z
  | SysExit code => code
  | Raise _ => 1%Z
  end.

End Program.

(** ** Regular expressions, as far as [extract_video_id] uses them *)

Module Re.

Inductive regex : Type :=
| Eps
| Lit (text : string)                 (** literal text *)
| Cls (p : ascii -> bool)             (** one character of a class *)
| Star (p : ascii -> bool)            (** greedy [c*] for a class [c] *)
| Seq (r1 r2 : regex)
| Alt (r1 r2 : regex)                 (** [r1|r2], the left one first *)
| Group (r : regex).                  (** the capturing group *)

(** [r{n}] *)
Fixpoint rep (n : nat) (r : regex) : regex :=
  match n with
  | O => Eps
  | S n' => Seq r (rep n' r)
  end.

(** [s] without the prefix [t], when it starts with it. *)
Fixpoint drop_prefix (t s : string) : option string :=
  match t with
  | EmptyString => Some s
  | String a t' =>
      match s with
      | String b s' => if Ascii.eqb a b then drop_prefix t' s' else None
      | EmptyString => None
      end
  end.

(** The ends of a greedy run of a class, the longest first. *)
Fixpoint star (p : ascii -> bool) (s : string) : list string :=
  match s with
  | String c s' => if p c then star p s' ++ [s] else [s]
  | EmptyString => [s]
  end.

(** The text between the start [s] and the rest [s']. *)
Definition consumed (s s' : string) : string :=
  String.substring 0 (String.length s - String.length s') s.

(** A backtracking matcher anchored at the start of [s]: every way the
    pattern matches, as (rest of the text, group), in the order Python's
    engine tries them. *)
Fixpoint m (r : regex) (s : string) (cap : option string)
  : list (string * option string) :=
  match r with
  | Eps => [(s, cap)]
  | Lit t => match drop_prefix t s with Some s' => [(s', cap)] | None => [] end
  | Cls p =>
      match s with
      | String c s' => if p c then [(s', cap)] else []
      | EmptyString => []
      end
  | Star p => map (fun s' => (s', cap)) (star p s)
  | Seq r1 r2 => flat_map (fun x => m r2 x.1 x.2) (m r1 s cap)
  | Alt r1 r2 => m r1 s cap ++ m r2 s cap
  | Group r1 => map (fun x => (x.1, Some (consumed s x.1))) (m r1 s cap)
  end.

(** [re.search(r, s)]: the first start, from the left, with a match; the
    result is [match.group(1)]. *)
Fixpoint search (r : regex) (s : string) : option (option string) :=
  match m r s None with
  | x :: _ => Some x.2
  | [] =>
      match s with
      | String _ s' => search r s'
      | EmptyString => None
      end
  end.

(** The texts a pattern matches, without regard to the order of the
    attempts. *)
Inductive matches : regex -> string -> Prop :=
| matches_eps : matches Eps ""
| matches_lit t : matches (Lit t) t
| matches_cls p c : p c = true -> matches (Cls p) (String c "")
| matches_star p w :
    forallb p (list_ascii_of_string w) = true -> matches (Star p) w
| matches_seq r1 r2 w1 w2 :
    matches r1 w1 -> matches r2 w2 -> matches (Seq r1 r2) (w1 +:+ w2)
| matches_alt_l r1 r2 w : matches r1 w -> matches (Alt r1 r2) w
| matches_alt_r r1 r2 w : matches r2 w -> matches (Alt r1 r2) w
| matches_group r w : matches r w -> matches (Group r) w.

End Re.

(** [[a-zA-Z0-9_-]] *)
Definition id_char (c : ascii) : bool :=
  let n := nat_of_ascii c in
  ((97 <=? n)%nat && (n <=? 122)%nat) || ((65 <=? n)%nat && (n <=? 90)%nat)
  || ((48 <=? n)%nat && (n <=? 57)%nat) || (n =? 95)%nat || (n =? 45)%nat.

(** [.]: anything but a newline. *)
Definition dot (c : ascii) : bool := negb (is_lf c).

Definition id11 : Re.regex := Re.Group (Re.rep 11 (Re.Cls id_char)).

Definition pattern1 : Re.regex :=
  Re.Seq (Re.Alt (Re.Lit "youtube.com/watch?v=")
            (Re.Alt (Re.Lit "youtu.be/") (Re.Lit "youtube.com/embed/")))
         id11.
Definition pattern2 : Re.regex :=
  Re.Seq (Re.Seq (Re.Lit "youtube.com/watch?") (Re.Seq (Re.Star dot) (Re.Lit "v=")))
         id11.
Definition pattern3 : Re.regex :=
  Re.Seq (Re.Lit "youtube.com/v/") id11.

Definition patterns : list Re.regex := [pattern1; pattern2; pattern3].

(** [for pattern in patterns: match = re.search(pattern, url); if match:
    return match.group(1)] and [return None] after the loop. *)
Fixpoint first_match (ps : list Re.regex) (url : string) : option string :=
  match ps with
  | [] => None
  | p :: rest =>
      match Re.search p url with
      | Some group1 => group1
      | None => first_match rest url
      end
  end.

Definition extract_video_id (url : string) : option string :=
  first_match patterns url.

(** ** What the specification says, in its own words *)

(** The record of a CSV row: [(video_id, url, description-or-empty)] with
    the double quotes around each field removed, for a row of at least two
    columns. *)
Definition row_record (row : list string) : option record :=
  if decide (2 <= length row) then
    Some (strip is_quote (row !!! 0%nat), strip is_quote (row !!! 1%nat),
          from_option (strip is_quote) "" (row !! 2%nat))
  else None.

Definition csv_records (rows : list (list string)) : list record :=
  omap row_record rows.

(** The warnings for the rows of fewer than two columns; rows count from
    [first]. *)
Definition row_warnings (first : nat) (rows : list (list string)) : list message :=
  omap id (imap (fun i row =>
                   match row_record row with
                   | None => Some (RowWarning (first + i) row)
                   | Some _ => None
                   end) rows).

(** The first tab-delimited field of a ledger line, as the specification of
    [load_failed] words it. *)
Definition first_tab_field (line : string) : string :=
  first_part (split (chr 9) (chomp line)).

(** A text that is empty or ends with a newline: new text appended to it
    starts a line of its own. *)
Definition terminated (s : string) : Prop :=
  s = "" \/ exists s0, s = s0 +:+ LF.

(** The content of a ledger file, empty when it does not exist. *)
Definition ledger (w : World) (path : string) : string :=
  default "" (files w !! path).

(** The header lines of a transcript file and its separator. *)
Definition header_lines (url video_id description language : string) : list string :=
  [ "Video ID: " +:+ video_id +:+ LF;
    "URL: " +:+ url +:+ LF;
    "Description: " +:+ description +:+ LF;
    "Language: " +:+ language +:+ LF;
    times 50 "-" +:+ LF ].

(** The calls that leave the process while a list of records is worked off:
    one API call per record, in order, with a pause of five seconds between
    two of them. *)
Fixpoint schedule (language : string) (todo : list record) : list event :=
  match todo with
  | [] => []
  | r :: rest =>
      ApiCall (record_url r) language ::
      match rest with
      | [] => []
      | _ => Sleep 5 :: schedule language rest
      end
  end.

(** The pauses among some events, in seconds. *)
Definition pauses (evs : list event) : list nat :=
  omap (fun e => match e with Sleep n => Some n | ApiCall _ _ => None end) evs.

(** The API call made for a record. *)
Definition call_of (language : string) (r : record) : string * string :=
  (record_url r, language).

(** The API key is there: set and not empty. *)
Definition has_api_key (E : Env) : Prop :=
  exists c k, getenv_api_key E = Some (String c k).

(** A directory for the transcripts exists or can be made. *)
Definition folder_ok (E : Env) (w : World) : Prop :=
  "transcripts" ∈ dirs w \/ is_Some (files w !! "transcripts")
  \/ makedirs_error E "transcripts" = None
  \/ makedirs_error E "transcripts_fallback" = None.

(** The value a call returns, if it returns. *)
Definition returned {A} (r : World * outcome A) : option A :=
  match r.2 with Return a => Some a | _ => None end.

(** The three URL shapes of [extract_video_id]. *)
Definition video_id_text (v : string) : Prop :=
  String.length v = 11 /\ forallb id_char (list_ascii_of_string v) = true.

Definition shape1 (url v : string) : Prop :=
  exists pre marker post,
    marker ∈ ["youtube.com/watch?v="; "youtu.be/"; "youtube.com/embed/"] /\
    url = pre +:+ marker +:+ v +:+ post /\ video_id_text v.

Definition shape2 (url v : string) : Prop :=
  exists pre mid post,
    url = pre +:+ "youtube.com/watch?" +:+ mid +:+ "v=" +:+ v +:+ post /\
    forallb dot (list_ascii_of_string mid) = true /\ video_id_text v.

Definition shape3 (url v : string) : Prop :=
  exists pre post,
    url = pre +:+ "youtube.com/v/" +:+ v +:+ post /\ video_id_text v.

(** The rows a reader yields: all of them, or those before its error. *)
Definition rows_yielded (read : list (list string) * option (nat * string))
  : list (list string) :=
  match read.2 with
  | Some (n, _) => take n read.1
  | None => read.1
  end.

(** The rows [csv.reader] yields for a CSV file: none when the file is
    missing or cannot be opened. *)
Definition csv_rows_read (E : Env) (w : World) (csv_file : string)
  : list (list string) :=
  match open_error E csv_file, files w !! csv_file with
  | None, Some content => rows_yielded (csv_reader E (file_lines content))
  | _, _ => []
  end.

(** The lines read from a ledger file: none when the file is missing, all
    when it is read to its end, and those before the error when reading it
    fails. *)
Definition ledger_lines (E : Env) (w : World) (path : string) : list string :=
  match open_error E path, files w !! path with
  | None, Some content => file_lines content
  | Some _, Some content => take (lines_before_error E path) (file_lines content)
  | _, None => []
  end.

(** The URL a line of the completed ledger stands for, and the one a line
    of the failed ledger stands for, as the loaders take them. *)
Definition completed_url (line : string) : string := strip is_space line.
Definition failed_url (line : string) : string :=
  first_part (split (chr 9) (strip is_space line)).

(** The set of the non-empty URLs of some lines. *)
Definition url_set (f : string -> string) (lines : list string) : gset string :=
  list_to_set (filter (fun u => u <> "") (f <$> lines)).

(** What one invocation of the transcript fetcher comes to: a transcript
    file saved, or a failure with its reason. *)
Inductive verdict : Type :=
| Saved (filename text : string)
| Failed (reason : string).

Definition saved (v : verdict) : bool :=
  match v with Saved _ _ => true | Failed _ => false end.

(** The verdict once the transcripts directory [dir] is there: the API is
    asked, its [n]-th answer decides, and a transcript must be written. *)
Definition fetch_verdict (E : Env) (n : nat) (dir url video_id description language : string)
  : verdict :=
  match transcript_api E n url language with
  | ReplyObject content | ReplyPlain content =>
      let filename := path_join dir (video_id +:+ ".txt") in
      match open_error E filename with
      | None => Saved filename (transcript_text url video_id description language content)
      | Some msg => Failed ("File save error: " +:+ msg)
      end
  | ReplyRaise (SupadataError msg) => Failed ("Supadata API error: " +:+ msg)
  | ReplyRaise (OtherError msg) => Failed ("Transcript fetch error: " +:+ msg)
  end.

(** The verdict of an invocation in the world [w], the API key being there. *)
Definition verdict_of (E : Env) (w : World) (url video_id description language : string)
  : verdict :=
  match (ensure_transcripts_folder E w).2 with
  | Return dir =>
      fetch_verdict E (length (api_calls (events w))) dir url video_id description language
  | Raise e => Failed ("Unexpected error: " +:+ str_exn e)
  | SysExit _ => Failed ""
  end.

(** Appending an entry to a ledger file; nothing happens when the file
    cannot be opened. *)
Definition append_entry (E : Env) (path entry : string) (fs : gmap string string)
  : gmap string string :=
  match open_error E path with
  | None => <[ path := default "" (fs !! path) +:+ entry ]> fs
  | Some _ => fs
  end.

Definition completed_entry (url : string) : string := url +:+ LF.
Definition failed_entry (url reason : string) : string :=
  url +:+ TAB +:+ reason +:+ LF.

(** The files after an invocation with a given verdict. *)
Definition files_after (E : Env) (url : string) (v : verdict) (fs : gmap string string)
  : gmap string string :=
  match v with
  | Saved filename text =>
      append_entry E completed_file (completed_entry url) (<[ filename := text ]> fs)
  | Failed reason => append_entry E failed_file (failed_entry url reason) fs
  end.

(** One of the two ledgers has gained one entry for [url], the other is as
    it was. *)
Definition one_entry (url : string) (w w' : World) : Prop :=
  (ledger w' completed_file = ledger w completed_file +:+ completed_entry url /\
   ledger w' failed_file = ledger w failed_file)
  \/ (exists reason,
        ledger w' failed_file = ledger w failed_file +:+ failed_entry url reason /\
        ledger w' completed_file = ledger w completed_file).

(** The records [read_csv_urls] returns; the empty list is what it returns
    when it fails, and it never raises. *)
Definition loaded_records (E : Env) (csv_file : string) (w : World) : list record :=
  default [] (returned (read_csv_urls E csv_file w)).

(** The set a loader returns; it always returns one. *)
Definition loaded_set (r : World * outcome (gset string)) : gset string :=
  default ∅ (returned r).

(** The records a run has to work off: those of the CSV file whose URL is
    in neither ledger, everything as loaded in the world [w]. *)
Definition planned (E : Env) (csv_file : string) (w : World) : list record :=
  pending (loaded_records E csv_file w)
    (loaded_set (load_completed_urls E w)) (loaded_set (load_failed_urls E w)).

(** The instructions printed when the API key is missing. *)
Definition key_instructions : list message :=
  [ Text "Error: SUPADATA_API_KEY not found in environment variables.";
    Text "Please create a .env file with your API key:";
    Text "SUPADATA_API_KEY=your_actual_api_key_here";
    Text (LF +:+ "Or set the environment variable:");
    Text "export SUPADATA_API_KEY=your_actual_api_key_here" ].

(** ** Sample surroundings *)

Definition sample_rows : list (list string) :=
  [ ["abc123DEFgh"; "https://youtu.be/abc123DEFgh"; "Intro video"];
    ["only-one"];
    ["xyz"; "https://youtu.be/xyz"];
    ["abc123DEFgh"; "https://youtu.be/abc123DEFgh"; "Intro again"] ].

Definition sample_api (n : nat) (url language : string) : api_reply :=
  if (n =? 1)%nat then ReplyRaise (SupadataError "no captions available")
  else ReplyObject "Hello world.".

Definition sample_env (key : option string) (rows : list (list string)) : Env :=
  mkEnv key None (fun _ => None) (fun _ => None) (fun _ => (rows, None)) sample_api.

Definition sample_world (failed_ledger : string) : World :=
  mkWorld {[ "youtube_url.csv" := "rows"; failed_file := failed_ledger ]} ∅ [] [].

Definition empty_world : World := mkWorld ∅ ∅ [] [].

(** ** Further notions *)

(** [os.path.exists(path)], as a proposition. *)
Definition exists_path (w : World) (path : string) : Prop :=
  path ∈ dirs w \/ is_Some (files w !! path).

(** A world that differs from [w] in its directories and in what was
    printed. *)
Definition with_output (w : World) (ds : gset string) (out : list message) : World :=
  mkWorld (files w) ds (stdout w ++ out) (events w).

(** Surroundings in which one of the two directories cannot be made. *)
Definition locked_env (primary fallback : option string) : Env :=
  mkEnv None None
    (fun path => if String.eqb path "transcripts" then primary else fallback)
    (fun _ => None) (fun _ => ([], None)) sample_api.

(** A text without a tab character. *)
Definition no_tab (s : string) : Prop :=
  all_chars (fun c => negb (Ascii.eqb c (chr 9))) s = true.

(** A URL as the ledgers can hold it: not empty, on one line, without white
    space around it. *)
Definition plain_url (url : string) : Prop :=
  url <> "" /\ strip is_space url = url /\ no_break url.

(** The content of a text file among some files, empty when there is none. *)
Definition file_text (fs : gmap string string) (path : string) : string :=
  default "" (fs !! path).

(** What a run leaves of the files it found: none is removed, the CSV file
    is as it was, and the two ledgers have only grown at their ends. *)
Definition kept (fs fs' : gmap string string) : Prop :=
  (forall p, is_Some (fs !! p) -> is_Some (fs' !! p)) /\
  fs' !! "youtube_url.csv" = fs !! "youtube_url.csv" /\
  (exists added, file_text fs' completed_file = file_text fs completed_file +:+ added) /\
  (exists added, file_text fs' failed_file = file_text fs failed_file +:+ added).

(** The URLs the two ledgers stand for, when they can be opened. *)
Definition recorded (fs : gmap string string) : gset string :=
  url_set completed_url (file_lines (file_text fs completed_file))
  ∪ url_set failed_url (file_lines (file_text fs failed_file)).

(** A video id that names a file of the transcripts directory itself: it
    holds no [/].  (Paths are compared as texts; [../x] would name a file
    outside the directory.) *)
Definition no_slash (s : string) : Prop :=
  all_chars (fun c => negb (Ascii.eqb c (chr 47))) s = true.

(** The language the arguments ask for: the argument that follows the last
    [--language] that is followed by one, [en] when there is none. *)
Definition language_option (argv : list string) : string :=
  default "en"
    (last (omap (fun p : string * string =>
                   if String.eqb p.1 "--language" then Some p.2 else None)
             (zip argv (tail argv)))).

(** Texts written one after the other. *)
Definition concat_text (texts : list string) : string :=
  foldr String.append "" texts.

(** A text without the letter y, as the scheme and the host prefix of a URL
    are. *)
Definition no_y (s : string) : Prop :=
  all_chars (fun c => negb (Ascii.eqb "y" c)) s = true.

(** ** Trimming, rows and lines, stated without the functions of the program *)

(** A text starts, or ends, with a character of a class. *)
Definition starts_with (p : ascii -> bool) (s : string) : Prop :=
  exists c rest, s = String c rest /\ p c = true.

Definition ends_with (p : ascii -> bool) (s : string) : Prop :=
  exists front c, s = front +:+ String c "" /\ p c = true.

(** [t] is [s] without the characters of a class around it: what is taken
    away at either end are characters of the class, and what is left
    neither starts nor ends with one. *)
Definition trimmed (p : ascii -> bool) (s t : string) : Prop :=
  (exists a b, s = a +:+ t +:+ b /\ all_chars p a = true /\ all_chars p b = true)
  /\ ~ starts_with p t /\ ~ ends_with p t.

(** A text between double quotes. *)
Definition quoted (s : string) : string :=
  String (chr 34) (s +:+ String (chr 34) "").

(** The record of a row of at least two columns: the first three columns
    without the double quotes around them, an empty description when there
    is no third column. *)
Definition record_of_row (row : list string) (r : record) : Prop :=
  exists c0 c1 more,
    row = c0 :: c1 :: more /\
    trimmed is_quote c0 r.1.1 /\
    trimmed is_quote c1 r.1.2 /\
    match more with
    | c2 :: _ => trimmed is_quote c2 r.2
    | [] => r.2 = ""
    end.

(** One record for each row of at least two columns, in the order of the
    rows; shorter rows give none. *)
Inductive records_of : list (list string) -> list record -> Prop :=
| records_of_nil : records_of [] []
| records_of_row row r rows rs :
    record_of_row row r -> records_of rows rs -> records_of (row :: rows) (r :: rs)
| records_of_short row rows rs :
    length row < 2 -> records_of rows rs -> records_of (row :: rows) rs.

(** The message that ends the reading of the CSV file. *)
Definition closing_message (failure : option (nat * string)) (count : nat) : string :=
  match failure with
  | None => "Loaded " +:+ of_nat count +:+ " URLs from CSV file"
  | Some (_, msg) => "Error reading CSV file: " +:+ msg
  end.

(** Surroundings whose CSV reader finds two rows and fails after the first. *)
Definition failing_reader_env : Env :=
  mkEnv None None (fun _ => None) (fun _ => None)
    (fun _ => ([ ["a"; "https://youtu.be/a"]; ["b"; "https://youtu.be/b"] ],
               Some (1%nat, "line contains NUL")))
    sample_api.

(** Rows with quoted columns. *)
Definition quoted_rows : list (list string) :=
  [ [quoted "abc123DEFgh"; quoted "https://youtu.be/abc123DEFgh"; quoted "Intro video"];
    ["only-one"];
    ["xyz"; quoted (quoted "https://youtu.be/xyz")] ].

(** A line and what it holds before its terminator. *)
Definition line_body (line body : string) : Prop :=
  line = body +:+ LF \/ (line = body /\ ~ ends_with is_lf line).

(** The first tab-delimited field of a text. *)
Definition first_field (body u : string) : Prop :=
  no_tab u /\ (body = u \/ exists rest, body = u +:+ TAB +:+ rest).

(** The URL a line of the completed ledger stands for: the line without the
    white space around it, when something is left. *)
Definition stands_for_completed (line u : string) : Prop :=
  u <> "" /\ trimmed is_space line u.

(** The URL a line of the failed ledger stands for: its first tab-delimited
    field, when that is not empty. *)
Definition stands_for_failed (line u : string) : Prop :=
  u <> "" /\ exists body, line_body line body /\ first_field body u.

(** A line of the failed ledger as the program writes it for a URL without
    white space around it, or an empty line: the first field has no white
    space around it, and is empty only when the line is. *)
Definition tidy_line (line : string) : Prop :=
  exists body u,
    line_body line body /\ first_field body u /\
    (u = "" -> body = "") /\
    ~ starts_with is_space u /\ ~ ends_with is_space u.

(** Surroundings in which reading the completed ledger fails after its
    first line. *)
Definition faulty_ledger_env : Env :=
  mkSurroundings None None (fun _ => None)
    (fun path => if String.eqb path completed_file
                 then Some "invalid start byte" else None)
    (fun _ => ([], None)) sample_api (fun _ => 1%nat).

(** The elements of a list that have a property, in the order of the list. *)
Inductive selects {A : Type} (P : A -> Prop) : list A -> list A -> Prop :=
| selects_nil : selects P [] []
| selects_keep x l l' : P x -> selects P l l' -> selects P (x :: l) (x :: l')
| selects_drop x l l' : ~ P x -> selects P l l' -> selects P (x :: l) l'.

(** A URL is listed in a ledger when a line read from it stands for it, and
    a record is unlisted when its URL is listed in neither ledger. *)
Definition listed_completed (E : Env) (w : World) (u : string) : Prop :=
  exists line, line ∈ ledger_lines E w completed_file /\ stands_for_completed line u.

Definition listed_failed (E : Env) (w : World) (u : string) : Prop :=
  exists line, line ∈ ledger_lines E w failed_file /\ stands_for_failed line u.

Definition unlisted (E : Env) (w : World) (r : record) : Prop :=
  ~ listed_completed E w (record_url r) /\ ~ listed_failed E w (record_url r).

(** A world whose completed ledger holds a URL with a blank before it. *)
Definition padded_world : World :=
  mkWorld {[ "youtube_url.csv" := "rows";
             completed_file := " https://youtu.be/xyz" +:+ LF ]} ∅ [] [].

(** One text occurs in another. *)
Definition occurs (t s : string) : Prop :=
  exists pre post, s = pre +:+ t +:+ post.

Fixpoint has_part (t s : string) : bool :=
  match Re.drop_prefix t s with
  | Some _ => true
  | None =>
      match s with
      | EmptyString => false
      | String _ s' => has_part t s'
      end
  end.

(** The URL shapes by the names the specification gives them: one of the
    markers [watch?v=], [youtu.be/], [embed/], [v/] or [watch?...&v=],
    followed by a video id. *)
Definition named_shape (url v : string) : Prop :=
  exists pre marker post,
    url = pre +:+ marker +:+ v +:+ post /\ video_id_text v /\
    (marker ∈ ["watch?v="; "youtu.be/"; "embed/"; "v/"]
     \/ exists mid, marker = "watch?" +:+ mid +:+ "&v=").

(** * Properties *)

(** ** Strings *)

Lemma str_app_cons (c : ascii) (s t : string) : String c s +:+ t = String c (s +:+ t).
Proof. reflexivity. Qed.

Lemma str_app_nil_l (t : string) : "" +:+ t = t.
Proof. reflexivity. Qed.

Lemma str_app_nil_r (s : string) : s +:+ "" = s.
Proof. induction s as [|c s IH]; [reflexivity|]. rewrite str_app_cons, IH. reflexivity. Qed.

Lemma str_app_assoc (s t u : string) : (s +:+ t) +:+ u = s +:+ (t +:+ u).
Proof.
  induction s as [|c s IH]; [reflexivity|].
  rewrite !str_app_cons, IH. reflexivity.
Qed.

Lemma str_length_app (s t : string) :
  String.length (s +:+ t) = String.length s + String.length t.
Proof.
  induction s as [|c s IH]; [reflexivity|].
  rewrite str_app_cons. simpl. rewrite IH. reflexivity.
Qed.

Lemma all_chars_cons p c s : all_chars p (String c s) = p c && all_chars p s.
Proof. reflexivity. Qed.

Lemma all_chars_app p s t : all_chars p (s +:+ t) = all_chars p s && all_chars p t.
Proof.
  induction s as [|c s IH]; [reflexivity|].
  rewrite str_app_cons, !all_chars_cons, IH, andb_assoc. reflexivity.
Qed.

Lemma lstrip_empty_iff p s : lstrip p s = "" <-> all_chars p s = true.
Proof.
  induction s as [|c s IH]; simpl; [tauto|].
  rewrite all_chars_cons. destruct (p c); simpl; [exact IH|]. split; discriminate.
Qed.

Lemma rstrip_empty_iff p s : rstrip p s = "" <-> all_chars p s = true.
Proof.
  induction s as [|c s IH]; simpl; [tauto|].
  rewrite all_chars_cons.
  destruct (rstrip p s) eqn:Hr.
  - destruct (p c); simpl.
    + split; [intros _; apply IH; reflexivity | reflexivity].
    + split; discriminate.
  - split; [discriminate|]. intros [_ H]%andb_true_iff.
    apply IH in H. discriminate.
Qed.

Lemma all_chars_lstrip p s : all_chars p (lstrip p s) = all_chars p s.
Proof.
  induction s as [|c s IH]; simpl; [reflexivity|].
  rewrite all_chars_cons. destruct (p c) eqn:Hc; simpl; [exact IH|].
  rewrite all_chars_cons, Hc. reflexivity.
Qed.

(** Stripping leaves nothing exactly when the text consists of the stripped
    characters only. *)
Lemma strip_empty_iff p s : strip p s = "" <-> all_chars p s = true.
Proof.
  unfold strip. rewrite rstrip_empty_iff, all_chars_lstrip. reflexivity.
Qed.

Lemma lstrip_split p s :
  exists a, s = a +:+ lstrip p s /\ all_chars p a = true.
Proof.
  induction s as [|c s (a & Ha & Hp)]; simpl.
  - exists "". split; reflexivity.
  - destruct (p c) eqn:Hc.
    + exists (String c a). rewrite str_app_cons, <- Ha, all_chars_cons, Hc, Hp.
      split; reflexivity.
    + exists "". split; reflexivity.
Qed.

Lemma rstrip_split p s :
  exists b, s = rstrip p s +:+ b /\ all_chars p b = true.
Proof.
  induction s as [|c s (b & Hb & Hp)]; simpl.
  - exists "". split; reflexivity.
  - destruct (rstrip p s) eqn:Hr.
    + destruct (p c) eqn:Hc.
      * exists (String c s). split; [reflexivity|].
        rewrite all_chars_cons, Hc. apply rstrip_empty_iff, Hr.
      * exists b. rewrite str_app_nil_l in Hb. subst b. split; [reflexivity|exact Hp].
    + exists b. rewrite str_app_cons, <- Hb. split; [reflexivity|exact Hp].
Qed.

(** [strip] removes a prefix and a suffix made of the stripped characters. *)
Lemma strip_split p s :
  exists a b, s = a +:+ strip p s +:+ b /\
              all_chars p a = true /\ all_chars p b = true.
Proof.
  destruct (lstrip_split p s) as (a & Ha & Hpa).
  destruct (rstrip_split p (lstrip p s)) as (b & Hb & Hpb).
  exists a, b. unfold strip. rewrite <- Hb, <- Ha. auto.
Qed.

(** ** The CSV loader *)

Lemma row_record_short0 : row_record [] = None.
Proof. reflexivity. Qed.

Lemma row_record_short1 c : row_record [c] = None.
Proof. reflexivity. Qed.

Lemma row_record_long c0 c1 more :
  row_record (c0 :: c1 :: more) =
  Some (strip is_quote c0, strip is_quote c1,
        match more with c2 :: _ => strip is_quote c2 | [] => "" end).
Proof. unfold row_record. simpl. destruct more; reflexivity. Qed.

Lemma row_record_Some row r :
  row_record row = Some r <->
  exists c0 c1 more, row = c0 :: c1 :: more /\
    r = (strip is_quote c0, strip is_quote c1,
         match more with c2 :: _ => strip is_quote c2 | [] => "" end).
Proof.
  destruct row as [|c0 [|c1 more]].
  - rewrite row_record_short0. split; [discriminate|]. intros (?&?&?&?&?). discriminate.
  - rewrite row_record_short1. split; [discriminate|]. intros (?&?&?&?&?). discriminate.
  - rewrite row_record_long. split.
    + intros [= <-]. eauto.
    + intros (?&?&?&[= <- <- <-]&->). reflexivity.
Qed.

Lemma row_warnings_cons first row rows :
  row_warnings first (row :: rows) =
  match row_record row with
  | None => [RowWarning first row]
  | Some _ => []
  end ++ row_warnings (S first) rows.
Proof.
  unfold row_warnings. rewrite imap_cons. simpl.
  replace (first + 0) with first by lia.
  assert (Hext : imap ((fun i row0 =>
                   match row_record row0 with
                   | None => Some (RowWarning (first + i) row0)
                   | Some _ => None
                   end) ∘ S) rows
          = imap (fun i row0 =>
                   match row_record row0 with
                   | None => Some (RowWarning (S first + i) row0)
                   | Some _ => None
                   end) rows).
  { apply imap_ext. intros i x _. simpl.
    replace (first + S i) with (S (first + i)) by lia. reflexivity. }
  rewrite Hext. destruct (row_record row); reflexivity.
Qed.

(** The loop over the rows: it returns the records of the rows and prints
    the warnings for the short ones, whatever it starts with. *)
Lemma read_rows_eq rows : forall row_num urls w,
  read_rows row_num rows urls w =
  (mkWorld (files w) (dirs w) (stdout w ++ row_warnings row_num rows) (events w),
   Return (urls ++ csv_records rows)).
Proof.
  induction rows as [|row rows IH]; intros row_num urls w.
  - simpl. unfold ret, row_warnings. simpl. rewrite !app_nil_r.
    destruct w; reflexivity.
  - rewrite row_warnings_cons. unfold csv_records. simpl.
    destruct row as [|c0 [|c1 more]].
    + rewrite row_record_short0. unfold bind, print_row_warning. rewrite IH. simpl.
      rewrite <- app_assoc. reflexivity.
    + rewrite row_record_short1. unfold bind, print_row_warning. rewrite IH. simpl.
      rewrite <- app_assoc. reflexivity.
    + rewrite row_record_long. rewrite IH. simpl.
      rewrite <- app_assoc. reflexivity.
Qed.

(** [read_csv_urls] in full: the records of the rows read, one warning per
    short row, one closing message; no file, directory or event changes and
    no exception leaves it. *)
Lemma read_csv_urls_eq E csv_file w :
  exists final,
    read_csv_urls E csv_file w =
    (mkWorld (files w) (dirs w)
       (stdout w ++ row_warnings 1 (csv_rows_read E w csv_file) ++ [Text final])
       (events w),
     Return (csv_records (csv_rows_read E w csv_file)))
    /\ (files w !! csv_file = None -> csv_file ∉ dirs w ->
        final = "Error: CSV file '" +:+ csv_file +:+ "' not found").
Proof.
  unfold read_csv_urls, csv_rows_read, rows_yielded, bind, path_exists, try_except,
    read_lines.
  destruct (bool_decide (csv_file ∈ dirs w)) eqn:Hd; simpl.
  - apply bool_decide_eq_true in Hd.
    destruct (open_error E csv_file) as [msg|]; simpl.
    + eexists. split; [reflexivity|]. intros _ Hn. contradiction.
    + destruct (files w !! csv_file) as [content|]; simpl.
      * destruct (csv_reader E (file_lines content)) as [rows failure] eqn:Hr. simpl.
        destruct failure as [[n msg]|]; (eexists; split;
          [rewrite read_rows_eq; simpl; unfold print, ret; simpl;
           rewrite <- app_assoc; reflexivity|]);
          intros _ Hn; contradiction.
      * eexists. split; [reflexivity|]. intros _ Hn. contradiction.
  - destruct (files w !! csv_file) as [content|] eqn:Hf; simpl.
    + destruct (open_error E csv_file) as [msg|]; simpl.
      * eexists. split; [reflexivity|]. discriminate.
      * rewrite Hf. simpl.
        destruct (csv_reader E (file_lines content)) as [rows failure] eqn:Hr. simpl.
        destruct failure as [[n msg]|]; (eexists; split;
          [rewrite read_rows_eq; simpl; unfold print, ret; simpl;
           rewrite <- app_assoc; reflexivity|]); discriminate.
    + destruct (open_error E csv_file); eexists; (split; [reflexivity|]); reflexivity.
Qed.

Lemma csv_records_length rows :
  length (csv_records rows) = length (filter (fun row => 2 <= length row) rows).
Proof.
  induction rows as [|row rows IH]; [reflexivity|].
  unfold csv_records. simpl. rewrite filter_cons.
  unfold row_record at 1. destruct (decide (2 <= length row)); simpl; auto.
Qed.

Lemma row_warnings_elem rows : forall first i row,
  rows !! i = Some row -> length row < 2 ->
  RowWarning (first + i) row ∈ row_warnings first rows.
Proof.
  induction rows as [|r rows IH]; intros first i row Hi Hlen; [discriminate|].
  rewrite row_warnings_cons. destruct i as [|i]; simpl in Hi.
  - injection Hi as ->. replace (first + 0) with first by lia.
    unfold row_record. destruct (decide (2 <= length row)); [lia|].
    apply elem_of_app. left. apply list_elem_of_singleton. reflexivity.
  - apply elem_of_app. right.
    replace (first + S i) with (S first + i) by lia. apply IH; assumption.
Qed.

Lemma loaded_records_eq E csv_file w :
  loaded_records E csv_file w = csv_records (csv_rows_read E w csv_file).
Proof.
  unfold loaded_records, returned.
  destruct (read_csv_urls_eq E csv_file w) as (final & -> & _). reflexivity.
Qed.

(** C4, as the specification states it, fails: a row of two empty columns
    gives a record whose [video_id] and [url] are empty. *)
Lemma loaded_records_nonempty_counterexample :
  ~ (forall E csv_file w r,
        r ∈ loaded_records E csv_file w -> r.1.1 <> "" /\ record_url r <> "").
Proof.
  intros H.
  destruct (H (sample_env None [[""; ""]]) "youtube_url.csv" (sample_world "")
              ("", "", "")) as [Hid _].
  - vm_compute. apply list_elem_of_singleton. reflexivity.
  - apply Hid. reflexivity.
Qed.

(** C4, amended. Every record the CSV loader produces comes from a row of at
    least two columns; its [video_id] and [url] are the first two columns
    without their surrounding double quotes, and each is non-empty exactly
    when its column holds a character other than a double quote. *)
Theorem loaded_records_fields (E : Env) (csv_file : string) (w : World) (r : record) :
  r ∈ loaded_records E csv_file w ->
  exists c0 c1 more,
    c0 :: c1 :: more ∈ csv_rows_read E w csv_file /\
    r.1.1 = strip is_quote c0 /\
    record_url r = strip is_quote c1 /\
    (r.1.1 <> "" <-> all_chars is_quote c0 = false) /\
    (record_url r <> "" <-> all_chars is_quote c1 = false).
Proof.
  rewrite loaded_records_eq. unfold csv_records.
  intros (row & Hrow & Hrec)%list_elem_of_omap.
  apply row_record_Some in Hrec as (c0 & c1 & more & -> & ->).
  exists c0, c1, more. unfold record_url. simpl.
  split; [exact Hrow|]. split; [reflexivity|]. split; [reflexivity|].
  split; rewrite strip_empty_iff; apply not_true_iff_false.
Qed.

Lemma loaded_records_fields_witness :
  exists c0 c1 more,
    c0 :: c1 :: more ∈ csv_rows_read (sample_env None sample_rows) (sample_world "")
                         "youtube_url.csv" /\
    "xyz" = strip is_quote c0 /\
    "https://youtu.be/xyz" = strip is_quote c1 /\
    ("xyz" <> "" <-> all_chars is_quote c0 = false) /\
    ("https://youtu.be/xyz" <> "" <-> all_chars is_quote c1 = false).
Proof.
  apply (loaded_records_fields (sample_env None sample_rows) "youtube_url.csv"
           (sample_world "") ("xyz", "https://youtu.be/xyz", "")).
  vm_compute. apply list_elem_of_further, list_elem_of_here.
Defined.

(** ** The ledger loaders *)

Lemma truthy_true_iff s : truthy s = true <-> s <> "".
Proof. destruct s; simpl; split; congruence. Qed.

Lemma url_set_elem f lines u :
  u ∈ url_set f lines <-> u <> "" /\ exists line, line ∈ lines /\ u = f line.
Proof.
  unfold url_set. rewrite elem_of_list_to_set, list_elem_of_filter, list_elem_of_fmap.
  split; intros [Hu (line & H1 & H2)]; eauto.
Qed.

Lemma url_set_cons f line lines :
  url_set f (line :: lines) =
  (if truthy (f line) then {[ f line ]} else ∅) ∪ url_set f lines.
Proof.
  unfold url_set. rewrite fmap_cons, filter_cons.
  destruct (f line) eqn:Hf; simpl.
  - destruct (decide ("" <> "")) as [H|_]; [congruence|].
    rewrite (left_id_L ∅ (∪)). reflexivity.
  - destruct (decide (String a s <> "")) as [_|H]; [reflexivity|].
    exfalso. apply H. discriminate.
Qed.

(** The loop of both loaders builds the set of the non-empty URLs. *)
Lemma collect_urls f lines : forall acc : gset string,
  foldl (fun acc line => if truthy (f line) then {[ f line ]} ∪ acc else acc) acc lines
  = url_set f lines ∪ acc.
Proof.
  induction lines as [|line lines IH]; intros acc; simpl.
  - unfold url_set. simpl. rewrite (left_id_L ∅ (∪)). reflexivity.
  - rewrite IH, url_set_cons. destruct (truthy (f line)).
    + rewrite (assoc_L (∪)). f_equal. apply (comm_L (∪)).
    + rewrite (left_id_L ∅ (∪)). reflexivity.
Qed.

Lemma load_completed_urls_eq E w :
  exists out,
    load_completed_urls E w =
    (mkWorld (files w) (dirs w) (stdout w ++ out) (events w),
     Return (url_set completed_url (ledger_lines E w completed_file))).
Proof.
  unfold load_completed_urls, ledger_lines, bind, path_exists, iterate_lines.
  destruct (open_error E completed_file) as [msg|] eqn:Ho;
    destruct (files w !! completed_file) as [content|] eqn:Hf;
    destruct (bool_decide (completed_file ∈ dirs w)); cbn;
    rewrite ?Ho, ?Hf; cbn;
    try (exists []; rewrite app_nil_r; destruct w; reflexivity);
    unfold print, ret; cbn;
    rewrite ?(collect_urls completed_url), ?(right_id_L ∅ (∪)), ?take_nil;
    eexists [_]; reflexivity.
Qed.

Lemma load_failed_urls_eq E w :
  exists out,
    load_failed_urls E w =
    (mkWorld (files w) (dirs w) (stdout w ++ out) (events w),
     Return (url_set failed_url (ledger_lines E w failed_file))).
Proof.
  unfold load_failed_urls, ledger_lines, bind, path_exists, iterate_lines.
  destruct (open_error E failed_file) as [msg|] eqn:Ho;
    destruct (files w !! failed_file) as [content|] eqn:Hf;
    destruct (bool_decide (failed_file ∈ dirs w)); cbn;
    rewrite ?Ho, ?Hf; cbn;
    try (exists []; rewrite app_nil_r; destruct w; reflexivity);
    unfold print, ret; cbn;
    rewrite ?(collect_urls failed_url), ?(right_id_L ∅ (∪)), ?take_nil;
    eexists [_]; reflexivity.
Qed.

(** ** The matcher and the video-ID extractor *)

Section Matcher.

Import Re.

Lemma drop_prefix_Some t s s' : drop_prefix t s = Some s' <-> s = t +:+ s'.
Proof.
  revert s. induction t as [|a t IH]; intros s; simpl.
  - rewrite str_app_nil_l. split; congruence.
  - destruct s as [|b s]; [split; discriminate|].
    rewrite str_app_cons. destruct (Ascii.eqb_spec a b) as [->|Hne].
    + rewrite IH. split; congruence.
    + split; [discriminate|]. intros [= ? _]. congruence.
Qed.

Lemma star_In p s s' :
  In s' (star p s) <-> exists w, s = w +:+ s' /\ all_chars p w = true.
Proof.
  revert s'. induction s as [|c s IH]; intros s'; simpl.
  - split.
    + intros [<-|[]]. exists "". split; reflexivity.
    + intros (w & Hw & _). left. destruct w; [exact Hw|discriminate].
  - destruct (p c) eqn:Hc.
    + rewrite in_app_iff, IH. simpl. split.
      * intros [(w & -> & Hp)|[<-|[]]].
        -- exists (String c w). rewrite all_chars_cons, Hc, Hp. split; reflexivity.
        -- exists "". split; reflexivity.
      * intros (w & Hw & Hp). destruct w as [|d w].
        -- right. left. exact Hw.
        -- left. rewrite str_app_cons in Hw. injection Hw as <- ->.
           rewrite all_chars_cons in Hp. apply andb_true_iff in Hp as [_ Hp]. eauto.
    + simpl. split.
      * intros [<-|[]]. exists "". split; reflexivity.
      * intros (w & Hw & Hp). left. destruct w as [|d w]; [exact Hw|].
        rewrite str_app_cons in Hw. injection Hw as <- ->.
        rewrite all_chars_cons, Hc in Hp. discriminate.
Qed.

Lemma substring_prefix w t : String.substring 0 (String.length w) (w +:+ t) = w.
Proof.
  induction w as [|c w IH].
  - simpl. destruct t; reflexivity.
  - rewrite str_app_cons. simpl. rewrite IH. reflexivity.
Qed.

Lemma consumed_app w s' : consumed (w +:+ s') s' = w.
Proof.
  unfold consumed. rewrite str_length_app.
  replace (String.length w + String.length s' - String.length s')
    with (String.length w) by lia.
  apply substring_prefix.
Qed.

(** Every result of the matcher is a match of a prefix of the text. *)
Lemma m_sound r : forall s cap s' cap',
  In (s', cap') (m r s cap) -> exists w, s = w +:+ s' /\ matches r w.
Proof.
  induction r as [|t|p|p|r1 IH1 r2 IH2|r1 IH1 r2 IH2|r IH];
    intros s cap s' cap'; simpl.
  - intros [[= <- <-]|[]]. exists "". split; [reflexivity|constructor].
  - destruct (drop_prefix t s) as [s0|] eqn:Hd; [|intros []].
    intros [[= <- <-]|[]]. apply drop_prefix_Some in Hd.
    exists t. split; [exact Hd|constructor].
  - destruct s as [|c s]; [intros []|]. destruct (p c) eqn:Hc; [|intros []].
    intros [[= <- <-]|[]]. exists (String c ""). split; [reflexivity|].
    constructor. exact Hc.
  - rewrite in_map_iff. intros (s0 & [= <- <-] & Hin).
    apply star_In in Hin as (w & -> & Hp). exists w. split; [reflexivity|].
    constructor. exact Hp.
  - rewrite in_flat_map. intros ([s1 cap1] & Hin1 & Hin2). simpl in Hin2.
    apply IH1 in Hin1 as (w1 & -> & Hm1). apply IH2 in Hin2 as (w2 & -> & Hm2).
    exists (w1 +:+ w2). rewrite str_app_assoc. split; [reflexivity|].
    constructor; assumption.
  - rewrite in_app_iff. intros [Hin|Hin].
    + apply IH1 in Hin as (w & -> & Hm). exists w. split; [reflexivity|].
      apply matches_alt_l. exact Hm.
    + apply IH2 in Hin as (w & -> & Hm). exists w. split; [reflexivity|].
      apply matches_alt_r. exact Hm.
  - rewrite in_map_iff. intros ([s1 cap1] & [= <- <-] & Hin). simpl.
    apply IH in Hin as (w & -> & Hm). exists w. split; [reflexivity|].
    constructor. exact Hm.
Qed.

(** Every match of a prefix of the text is among the results. *)
Lemma m_complete r w :
  matches r w -> forall s' cap, exists cap', In (s', cap') (m r (w +:+ s') cap).
Proof.
  induction 1 as [|t|p c Hc|p w Hp|r1 r2 w1 w2 _ IH1 _ IH2
                  |r1 r2 w _ IH|r1 r2 w _ IH|r w _ IH]; intros s' cap; simpl.
  - exists cap. left. reflexivity.
  - exists cap. assert (Hd : drop_prefix t (t +:+ s') = Some s')
      by (apply drop_prefix_Some; reflexivity).
    rewrite Hd. left. reflexivity.
  - exists cap. rewrite ?str_app_cons, ?str_app_nil_l, Hc. left. reflexivity.
  - exists cap. apply in_map_iff. exists s'. split; [reflexivity|].
    apply star_In. exists w. split; [reflexivity|exact Hp].
  - destruct (IH1 (w2 +:+ s') cap) as (cap1 & Hin1).
    destruct (IH2 s' cap1) as (cap2 & Hin2).
    exists cap2. rewrite str_app_assoc. apply in_flat_map.
    exists (w2 +:+ s', cap1). split; assumption.
  - destruct (IH s' cap) as (cap' & Hin). exists cap'.
    apply in_app_iff. left. exact Hin.
  - destruct (IH s' cap) as (cap' & Hin). exists cap'.
    apply in_app_iff. right. exact Hin.
  - destruct (IH s' cap) as (cap' & Hin).
    exists (Some (consumed (w +:+ s') s')).
    apply in_map_iff. exists (s', cap'). split; [reflexivity|exact Hin].
Qed.

(** A pattern that ends with the group: the group holds the text its part
    matched. *)
Lemma m_group_last r g s cap s' cap' :
  In (s', cap') (m (Seq r (Group g)) s cap) ->
  exists w v, s = w +:+ v +:+ s' /\ matches r w /\ matches g v /\ cap' = Some v.
Proof.
  simpl. rewrite in_flat_map. intros ([s1 cap1] & Hin1 & Hin2). simpl in Hin2.
  apply in_map_iff in Hin2 as ([s2 cap2] & [= <- <-] & Hin2). simpl.
  apply m_sound in Hin1 as (w & -> & Hm1).
  apply m_sound in Hin2 as (v & -> & Hm2).
  exists w, v. rewrite consumed_app. auto.
Qed.

Lemma search_Some r s cap :
  search r s = Some cap ->
  exists pre rest s', s = pre +:+ rest /\ In (s', cap) (m r rest None).
Proof.
  induction s as [|c s IH]; simpl.
  - destruct (m r "" None) as [|[s' cap'] l] eqn:Hm; [discriminate|].
    intros [= <-]. exists "", "", s'. split; [reflexivity|]. rewrite Hm. left. reflexivity.
  - destruct (m r (String c s) None) as [|[s' cap'] l] eqn:Hm.
    + intros (pre & rest & s' & -> & Hin)%IH.
      exists (String c pre), rest, s'. split; [reflexivity|exact Hin].
    + intros [= <-]. exists "", (String c s), s'. split; [reflexivity|].
      rewrite Hm. left. reflexivity.
Qed.

Lemma search_None r s :
  search r s = None -> forall pre rest, s = pre +:+ rest -> m r rest None = [].
Proof.
  induction s as [|c s IH]; simpl.
  - destruct (m r "" None) eqn:Hm; [|discriminate]. intros _ pre rest Hs.
    destruct pre; [|discriminate]. rewrite str_app_nil_l in Hs. subst rest. exact Hm.
  - destruct (m r (String c s) None) eqn:Hm; [|discriminate]. intros Hs pre rest Heq.
    destruct pre as [|d pre].
    + rewrite str_app_nil_l in Heq. subst rest. exact Hm.
    + rewrite str_app_cons in Heq. injection Heq as _ ->. eapply IH; eauto.
Qed.

(** [re.search] finds nothing exactly when the pattern matches nowhere. *)
Lemma search_None_iff r s :
  search r s = None <->
  forall pre w post, s = pre +:+ w +:+ post -> ~ matches r w.
Proof.
  split.
  - intros Hs pre w post Heq Hm.
    pose proof (search_None r s Hs pre (w +:+ post) Heq) as Hnil.
    destruct (m_complete r w Hm post None) as (cap' & Hin).
    rewrite Hnil in Hin. destruct Hin.
  - intros Hno. destruct (search r s) as [cap|] eqn:Hs; [|reflexivity].
    apply search_Some in Hs as (pre & rest & s' & -> & Hin).
    apply m_sound in Hin as (w & -> & Hm). exfalso. eapply Hno; eauto.
Qed.

Lemma matches_rep_cls p n : forall w,
  matches (rep n (Cls p)) w <-> String.length w = n /\ all_chars p w = true.
Proof.
  induction n as [|n IH]; intros w; simpl.
  - split.
    + inversion 1. split; reflexivity.
    + intros [Hlen _]. destruct w; [constructor|discriminate].
  - split.
    + inversion 1 as [| | | |r1 r2 w1 w2 H1 H2| | |]; subst.
      inversion H1; subst. apply IH in H2 as [Hlen Hp].
      rewrite str_app_cons, str_app_nil_l, all_chars_cons. simpl.
      rewrite Hlen, Hp. split; [reflexivity|]. apply andb_true_iff. auto.
    + intros [Hlen Hp]. destruct w as [|c w]; [discriminate|].
      rewrite all_chars_cons in Hp. apply andb_true_iff in Hp as [Hc Hp].
      injection Hlen as Hlen.
      change (String c w) with (String c "" +:+ w).
      constructor; [constructor; exact Hc|]. apply IH. auto.
Qed.

Lemma matches_id11 v : matches id11 v <-> video_id_text v.
Proof.
  unfold id11, video_id_text. rewrite <- (matches_rep_cls id_char 11 v).
  split; [inversion 1; assumption | constructor; assumption].
Qed.

(** A search for [head([a-zA-Z0-9_-]{11})]: what a hit returns, and what a
    miss excludes. *)
Lemma search_id_Some head s cap :
  search (Seq head id11) s = Some cap ->
  exists pre w v post,
    s = pre +:+ w +:+ v +:+ post /\ matches head w /\ video_id_text v /\ cap = Some v.
Proof.
  intros (pre & rest & s' & -> & Hin)%search_Some.
  apply m_group_last in Hin as (w & v & -> & Hw & Hv & ->).
  exists pre, w, v, s'. split; [reflexivity|]. split; [exact Hw|].
  split; [|reflexivity]. apply matches_rep_cls in Hv. exact Hv.
Qed.

Lemma search_id_None head s :
  search (Seq head id11) s = None ->
  forall pre w v post,
    s = pre +:+ w +:+ v +:+ post -> matches head w -> ~ video_id_text v.
Proof.
  intros Hs pre w v post Heq Hw Hv.
  apply (proj1 (search_None_iff _ _) Hs pre (w +:+ v) post).
  - rewrite str_app_assoc. exact Heq.
  - constructor; [exact Hw|]. apply matches_id11. exact Hv.
Qed.

End Matcher.

Lemma shape1_iff url v :
  shape1 url v <->
  exists pre w post,
    url = pre +:+ w +:+ v +:+ post /\
    Re.matches (Re.Alt (Re.Lit "youtube.com/watch?v=")
                  (Re.Alt (Re.Lit "youtu.be/") (Re.Lit "youtube.com/embed/"))) w /\
    video_id_text v.
Proof.
  unfold shape1. split.
  - intros (pre & marker & post & Hin & -> & Hv). exists pre, marker, post.
    split; [reflexivity|]. split; [|exact Hv].
    apply list_elem_of_In in Hin. simpl in Hin.
    destruct Hin as [<-|[<-|[<-|[]]]].
    + apply Re.matches_alt_l. constructor.
    + apply Re.matches_alt_r, Re.matches_alt_l. constructor.
    + apply Re.matches_alt_r, Re.matches_alt_r. constructor.
  - intros (pre & w & post & -> & Hw & Hv). exists pre, w, post.
    split; [|split; [reflexivity|exact Hv]].
    apply list_elem_of_In. simpl.
    inversion Hw as [| | | | |r1 r2 w0 H1|r1 r2 w0 H1|]; subst.
    + inversion H1; subst. auto.
    + inversion H1 as [| | | | |r1 r2 w0 H2|r1 r2 w0 H2|]; subst;
        inversion H2; subst; auto.
Qed.

Lemma shape2_iff url v :
  shape2 url v <->
  exists pre w post,
    url = pre +:+ w +:+ v +:+ post /\
    Re.matches (Re.Seq (Re.Lit "youtube.com/watch?")
                  (Re.Seq (Re.Star dot) (Re.Lit "v="))) w /\
    video_id_text v.
Proof.
  unfold shape2. split.
  - intros (pre & mid & post & -> & Hmid & Hv).
    exists pre, ("youtube.com/watch?" +:+ mid +:+ "v="), post.
    split; [rewrite !str_app_assoc; reflexivity|]. split; [|exact Hv].
    constructor; [constructor|]. constructor; constructor. exact Hmid.
  - intros (pre & w & post & -> & Hw & Hv).
    inversion Hw as [| | | |r1 r2 w1 w2 H1 H2| | |]; subst.
    inversion H1; subst.
    inversion H2 as [| | | |r1 r2 mid w3 H3 H4| | |]; subst.
    inversion H3; subst. inversion H4; subst.
    exists pre, mid, post. rewrite !str_app_assoc. auto.
Qed.

Lemma shape3_iff url v :
  shape3 url v <->
  exists pre w post,
    url = pre +:+ w +:+ v +:+ post /\
    Re.matches (Re.Lit "youtube.com/v/") w /\ video_id_text v.
Proof.
  unfold shape3. split.
  - intros (pre & post & -> & Hv). exists pre, "youtube.com/v/", post.
    split; [reflexivity|]. split; [constructor|exact Hv].
  - intros (pre & w & post & -> & Hw & Hv). inversion Hw; subst.
    exists pre, post. auto.
Qed.

(** What one search of [extract_video_id] gives, for a shape that is the
    language of the head of its pattern. *)
Lemma search_shape head (shape : string -> string -> Prop) url :
  (forall v, shape url v <->
     exists pre w post,
       url = pre +:+ w +:+ v +:+ post /\ Re.matches head w /\ video_id_text v) ->
  match Re.search (Re.Seq head id11) url with
  | Some group1 => exists v, group1 = Some v /\ shape url v
  | None => forall v, ~ shape url v
  end.
Proof.
  intros Hshape. destruct (Re.search (Re.Seq head id11) url) as [group1|] eqn:Hs.
  - apply search_id_Some in Hs as (pre & w & v & post & -> & Hw & Hv & ->).
    exists v. split; [reflexivity|]. apply Hshape. eauto 6.
  - intros v (pre & w & post & Heq & Hw & Hv)%Hshape.
    exact (search_id_None head url Hs pre w v post Heq Hw Hv).
Qed.

(** C9, amended. [extract_video_id] returns an 11-character video ID when
    the URL holds [youtube.com/watch?v=], [youtu.be/] or
    [youtube.com/embed/] followed by the ID (the first shape), or
    [youtube.com/watch?], then any characters but a newline, then [v=]
    followed by the ID (the second), or [youtube.com/v/] followed by the ID
    (the third), and [None] when it holds none of these; the shapes are
    tried in this order and the first that the URL has decides. *)
Theorem extract_video_id_shapes (url : string) :
  match extract_video_id url with
  | Some v =>
      video_id_text v /\
      (shape1 url v
       \/ ((forall v', ~ shape1 url v') /\ shape2 url v)
       \/ ((forall v', ~ shape1 url v') /\ (forall v', ~ shape2 url v') /\
           shape3 url v))
  | None =>
      forall v, ~ shape1 url v /\ ~ shape2 url v /\ ~ shape3 url v
  end.
Proof.
  unfold extract_video_id, patterns, first_match.
  pose proof (search_shape _ shape1 url (shape1_iff url)) as H1.
  pose proof (search_shape _ shape2 url (shape2_iff url)) as H2.
  pose proof (search_shape _ shape3 url (shape3_iff url)) as H3.
  fold pattern1 in H1. fold pattern2 in H2. fold pattern3 in H3.
  destruct (Re.search pattern1 url) as [g1|].
  { destruct H1 as (v & -> & Hv). split; [|left; exact Hv].
    destruct Hv as (_ & _ & _ & _ & _ & Hv). exact Hv. }
  destruct (Re.search pattern2 url) as [g2|].
  { destruct H2 as (v & -> & Hv). split; [|right; left; split; assumption].
    destruct Hv as (_ & _ & _ & _ & _ & Hv). exact Hv. }
  destruct (Re.search pattern3 url) as [g3|].
  { destruct H3 as (v & -> & Hv). split; [|right; right; auto].
    destruct Hv as (_ & _ & _ & Hv). exact Hv. }
  intros v. auto.
Qed.

(** ** Stepping through the monad *)

Lemma bind_print {B} (text : string) (k : unit -> M B) (w : World) :
  bind (print text) k w =
  k tt (mkWorld (files w) (dirs w) (stdout w ++ [Text text]) (events w)).
Proof. reflexivity. Qed.

Lemma bind_ret {A B} (a : A) (k : A -> M B) (w : World) : bind (ret a) k w = k a w.
Proof. reflexivity. Qed.

Lemma print_eq (text : string) (w : World) :
  print text w =
  (mkWorld (files w) (dirs w) (stdout w ++ [Text text]) (events w), Return tt).
Proof. reflexivity. Qed.

Lemma bind_Return {A B} (m : M A) (k : A -> M B) w w' a :
  m w = (w', Return a) -> bind m k w = k a w'.
Proof. unfold bind. intros ->. reflexivity. Qed.

Lemma bind_SysExit {A B} (m : M A) (k : A -> M B) w w' c :
  m w = (w', SysExit c) -> bind m k w = (w', SysExit c).
Proof. unfold bind. intros ->. reflexivity. Qed.

Lemma bind_Raise {A B} (m : M A) (k : A -> M B) w w' e :
  m w = (w', Raise e) -> bind m k w = (w', Raise e).
Proof. unfold bind. intros ->. reflexivity. Qed.

Lemma try_except_Return {A} (m : M A) (h : exn -> M A) w w' a :
  m w = (w', Return a) -> try_except m h w = (w', Return a).
Proof. unfold try_except. intros ->. reflexivity. Qed.

Lemma try_except_Raise {A} (m : M A) (h : exn -> M A) w w' e :
  m w = (w', Raise e) -> try_except m h w = h e w'.
Proof. unfold try_except. intros ->. reflexivity. Qed.

Lemma only_prints_print text : only_prints (print text).
Proof. intros w. exists [Text text], tt. reflexivity. Qed.

Lemma only_prints_bind {A B} (m : M A) (k : A -> M B) :
  only_prints m -> (forall a, only_prints (k a)) -> only_prints (bind m k).
Proof.
  intros Hm Hk w. destruct (Hm w) as (out1 & a & Hrun).
  destruct (Hk a (mkWorld (files w) (dirs w) (stdout w ++ out1) (events w)))
    as (out2 & b & Hrun2).
  exists (out1 ++ out2), b. unfold bind. rewrite Hrun, Hrun2.
  cbn [files dirs stdout events]. rewrite <- app_assoc. reflexivity.
Qed.

(** ** The transcripts directory *)

Lemma folder_ok_dec E w : {folder_ok E w} + {~ folder_ok E w}.
Proof.
  unfold folder_ok.
  destruct (decide ("transcripts" ∈ dirs w)); [left; auto|].
  destruct (files w !! "transcripts") eqn:Hf; [left; eauto|].
  destruct (makedirs_error E "transcripts") eqn:H1; [|left; auto].
  destruct (makedirs_error E "transcripts_fallback") eqn:H2; [|left; auto].
  right. intros [H|[[x H]|[H|H]]]; congruence.
Qed.

(** [ensure_transcripts_folder] touches neither files nor events, only adds
    directories, returns one of its two names exactly when a directory
    exists or can be made, and raises otherwise. *)
Lemma ensure_transcripts_folder_eq E w :
  exists w' r,
    ensure_transcripts_folder E w = (w', r) /\
    files w' = files w /\ events w' = events w /\ dirs w ⊆ dirs w' /\
    ((folder_ok E w /\ exists dir, r = Return dir /\
        (dir = "transcripts" \/ dir = "transcripts_fallback")) \/
     (~ folder_ok E w /\ exists e, r = Raise e)).
Proof.
  unfold ensure_transcripts_folder, folder_ok, try_except, bind, path_exists, makedirs.
  destruct (decide ("transcripts" ∈ dirs w)) as [Hd|Hd].
  { rewrite (bool_decide_eq_true_2 _ Hd). simpl.
    eexists _, _. split; [reflexivity|]. simpl. repeat split; eauto 10. }
  rewrite (bool_decide_eq_false_2 _ Hd). simpl.
  destruct (files w !! "transcripts") as [c|] eqn:Hf.
  { rewrite (bool_decide_eq_true_2 (is_Some (Some c))) by eauto. simpl.
    eexists _, _. split; [reflexivity|]. simpl. repeat split; eauto 10. }
  rewrite (bool_decide_eq_false_2 (is_Some None)) by (intros [? ?]; discriminate).
  simpl.
  destruct (makedirs_error E "transcripts") as [m1|] eqn:H1; simpl.
  - destruct (makedirs_error E "transcripts_fallback") as [m2|] eqn:H2; simpl.
    + eexists _, _. split; [reflexivity|]. simpl. repeat split; eauto.
      right. split; [|eauto]. intros [H|[[x H]|[H|H]]]; congruence.
    + eexists _, _. split; [reflexivity|]. simpl.
      repeat split; eauto 10; set_solver.
  - eexists _, _. split; [reflexivity|]. simpl.
    repeat split; eauto 10; set_solver.
Qed.

(** ** One invocation of the transcript fetcher *)

Lemma has_api_key_load E w :
  has_api_key E -> exists key, load_environment E w = (w, Return key).
Proof.
  intros (c & k & Hkey). unfold load_environment. rewrite Hkey. eauto.
Qed.

Lemma no_api_key_load E w :
  ~ has_api_key E ->
  load_environment E w =
  (mkWorld (files w) (dirs w) (stdout w ++ key_instructions) (events w), SysExit 1%Z).
Proof.
  intros Hno. unfold load_environment.
  destruct (getenv_api_key E) as [[|c k]|] eqn:Hkey;
    try (exfalso; apply Hno; exists c, k; exact Hkey);
    unfold bind, print, sys_exit, key_instructions; simpl;
    rewrite <- !app_assoc; reflexivity.
Qed.

Lemma save_completed_url_eq E url w :
  exists w',
    save_completed_url E url w = (w', Return tt) /\
    files w' = append_entry E completed_file (completed_entry url) (files w) /\
    dirs w' = dirs w /\ events w' = events w.
Proof.
  unfold save_completed_url, try_except, bind, append_file, append_entry, completed_entry.
  destruct (open_error E completed_file); simpl;
    (eexists; split; [reflexivity|]); simpl; auto.
Qed.

Lemma save_failed_url_eq E url reason w :
  exists w',
    save_failed_url E url reason w = (w', Return tt) /\
    files w' = append_entry E failed_file (failed_entry url reason) (files w) /\
    dirs w' = dirs w /\ events w' = events w.
Proof.
  unfold save_failed_url, try_except, bind, append_file, append_entry, failed_entry.
  destruct (open_error E failed_file); simpl;
    (eexists; split; [reflexivity|]); simpl; auto.
Qed.

(** With the API key there, an invocation returns whether its verdict is
    [Saved]; the files are those of the verdict, and the API was called once
    unless no transcripts directory could be had. *)
Lemma get_youtube_transcript_eq E url video_id description language w :
  has_api_key E ->
  let v := verdict_of E w url video_id description language in
  exists w',
    get_youtube_transcript E url video_id description language w = (w', Return (saved v)) /\
    files w' = files_after E url v (files w) /\
    dirs w' = dirs (ensure_transcripts_folder E w).1 /\
    events w' = events w ++
      match (ensure_transcripts_folder E w).2 with
      | Return _ => [ApiCall url language]
      | _ => []
      end.
Proof.
  intros Hkey v. subst v. unfold verdict_of, get_youtube_transcript.
  destruct (has_api_key_load E w Hkey) as (key & Hload).
  destruct (ensure_transcripts_folder_eq E w)
    as (w1 & r & He & Hf1 & Hev1 & Hd1 & [[_ (dir & -> & _)]|[_ (e & ->)]]).
  - unfold try_except at 1. unfold bind at 1. rewrite Hload.
    unfold bind at 1. rewrite He. simpl.
    unfold fetch_verdict, youtube_transcript, try_except, bind, print, ret. simpl.
    rewrite Hev1.
    destruct (transcript_api E (length (api_calls (events w))) url language)
      as [content|content|[m|m]]; simpl.
    + unfold write_file. simpl.
      destruct (open_error E (path_join dir (video_id +:+ ".txt"))) as [msg|]; simpl.
      * match goal with |- context [save_failed_url E url ?r ?w0] =>
          destruct (save_failed_url_eq E url r w0) as (w' & -> & Hf & Hd & Hev) end.
        exists w'. simpl in *. rewrite Hf, Hd, Hev, Hf1. auto.
      * match goal with |- context [save_completed_url E url ?w0] =>
          destruct (save_completed_url_eq E url w0) as (w' & -> & Hf & Hd & Hev) end.
        exists w'. simpl in *. rewrite Hf, Hd, Hev, Hf1. auto.
    + unfold write_file. simpl.
      destruct (open_error E (path_join dir (video_id +:+ ".txt"))) as [msg|]; simpl.
      * match goal with |- context [save_failed_url E url ?r ?w0] =>
          destruct (save_failed_url_eq E url r w0) as (w' & -> & Hf & Hd & Hev) end.
        exists w'. simpl in *. rewrite Hf, Hd, Hev, Hf1. auto.
      * match goal with |- context [save_completed_url E url ?w0] =>
          destruct (save_completed_url_eq E url w0) as (w' & -> & Hf & Hd & Hev) end.
        exists w'. simpl in *. rewrite Hf, Hd, Hev, Hf1. auto.
    + match goal with |- context [save_failed_url E url ?r ?w0] =>
        destruct (save_failed_url_eq E url r w0) as (w' & -> & Hf & Hd & Hev) end.
      exists w'. simpl in *. rewrite Hf, Hd, Hev, Hf1. auto.
    + match goal with |- context [save_failed_url E url ?r ?w0] =>
        destruct (save_failed_url_eq E url r w0) as (w' & -> & Hf & Hd & Hev) end.
      exists w'. simpl in *. rewrite Hf, Hd, Hev, Hf1. auto.
  - unfold try_except at 1. unfold bind at 1. rewrite Hload.
    unfold bind at 1. rewrite He. simpl. unfold bind, print. simpl.
    match goal with |- context [save_failed_url E url ?r ?w0] =>
      destruct (save_failed_url_eq E url r w0) as (w' & -> & Hf & Hd & Hev) end.
    exists w'. simpl in *. rewrite Hf, Hd, Hev, Hf1, app_nil_r. auto.
Qed.

(** ** Lines of a text file *)

Lemma translate_newlines_empty s : translate_newlines false s = "" -> s = "".
Proof.
  destruct s as [|c s]; [reflexivity|]. simpl.
  destruct (is_cr c); [discriminate|]. destruct (is_lf c); discriminate.
Qed.

Lemma keepends_empty s : keepends s = [] -> s = "".
Proof.
  destruct s as [|c s]; [reflexivity|]. simpl.
  destruct (is_lf c); [discriminate|]. destruct (keepends s); discriminate.
Qed.

Lemma keepends_cons_other c s :
  is_lf c = false -> s <> "" ->
  exists l ls, keepends s = l :: ls /\ keepends (String c s) = String c l :: ls.
Proof.
  intros Hc Hs. simpl. rewrite Hc.
  destruct (keepends s) as [|l ls] eqn:Hk.
  - apply keepends_empty in Hk. contradiction.
  - eauto.
Qed.

Lemma is_lf_chr10 : is_lf (chr 10) = true.
Proof. reflexivity. Qed.

Lemma is_cr_chr10 : is_cr (chr 10) = false.
Proof. reflexivity. Qed.

(** A newline splits the lines of a text: what comes after it reads as if
    it stood alone. *)
Lemma lines_split a : forall after_cr b,
  keepends (translate_newlines after_cr (a +:+ LF +:+ b)) =
  keepends (translate_newlines after_cr (a +:+ LF))
    ++ keepends (translate_newlines false b).
Proof.
  induction a as [|c a IH]; intros after_cr b.
  - rewrite !str_app_nil_l. unfold LF. rewrite str_app_cons, str_app_nil_l. simpl.
    rewrite ?is_cr_chr10, ?is_lf_chr10. destruct after_cr; reflexivity.
  - rewrite !str_app_cons. simpl. destruct (is_cr c) eqn:Hcr.
    + simpl. rewrite ?is_lf_chr10, IH. reflexivity.
    + destruct (is_lf c) eqn:Hlf.
      * destruct after_cr; [apply IH|]. simpl. rewrite ?is_lf_chr10, IH. reflexivity.
      * assert (Hne : translate_newlines false (a +:+ LF) <> "").
        { intros H%translate_newlines_empty. destruct a; discriminate. }
        destruct (keepends_cons_other c _ Hlf Hne) as (l & ls & Hk & Hk').
        rewrite Hk'. simpl. rewrite Hlf, IH, Hk. reflexivity.
Qed.

Lemma no_break_cons c s :
  no_break (String c s) <-> is_lf c = false /\ is_cr c = false /\ no_break s.
Proof.
  unfold no_break. rewrite all_chars_cons, andb_true_iff, negb_true_iff.
  unfold is_break. rewrite orb_false_iff. tauto.
Qed.

Lemma no_break_app s t : no_break (s +:+ t) <-> no_break s /\ no_break t.
Proof. unfold no_break. rewrite all_chars_app, andb_true_iff. reflexivity. Qed.

(** A text without line breaks, closed by a newline, is one line. *)
Lemma lines_single body :
  no_break body -> file_lines (body +:+ LF) = [body +:+ LF].
Proof.
  unfold file_lines, universal_newlines.
  induction body as [|c body IH]; intros Hb; [reflexivity|].
  apply no_break_cons in Hb as (Hlf & Hcr & Hb).
  rewrite !str_app_cons. simpl. rewrite Hcr, Hlf. simpl. rewrite Hlf, (IH Hb).
  reflexivity.
Qed.

(** A line and what follows it. *)
Lemma lines_cons body rest :
  no_break body ->
  file_lines ((body +:+ LF) +:+ rest) = (body +:+ LF) :: file_lines rest.
Proof.
  intros Hb. unfold file_lines, universal_newlines.
  rewrite str_app_assoc, lines_split.
  change (keepends (translate_newlines false (body +:+ LF)))
    with (file_lines (body +:+ LF)).
  rewrite (lines_single body Hb). reflexivity.
Qed.

(** An entry appended to a text that is empty or ends with a newline is a
    new last line. *)
Lemma lines_append old body :
  terminated old -> no_break body ->
  file_lines (old +:+ body +:+ LF) = file_lines old ++ [body +:+ LF].
Proof.
  intros [->|(s0 & ->)] Hb.
  - rewrite str_app_nil_l. apply lines_single. exact Hb.
  - unfold file_lines, universal_newlines.
    rewrite str_app_assoc, lines_split.
    change (keepends (translate_newlines false (body +:+ LF)))
      with (file_lines (body +:+ LF)).
    rewrite (lines_single body Hb). reflexivity.
Qed.

(** ** The ledgers after one invocation *)

Lemma transcript_path_not_ledger dir video_id :
  dir = "transcripts" \/ dir = "transcripts_fallback" ->
  path_join dir (video_id +:+ ".txt") <> completed_file /\
  path_join dir (video_id +:+ ".txt") <> failed_file.
Proof.
  intros Hdir. destruct video_id as [|c v].
  - destruct Hdir as [-> | ->]; vm_compute; split; discriminate.
  - rewrite str_app_cons. unfold path_join.
    destruct (Ascii.eqb c (chr 47)) eqn:Hc.
    + apply Ascii.eqb_eq in Hc. subst c. split; discriminate.
    + destruct Hdir as [-> | ->].
      * change (String.rev "transcripts") with "stpircsnart". simpl.
        split; discriminate.
      * change (String.rev "transcripts_fallback") with "kcabllaf_stpircsnart". simpl.
        split; discriminate.
Qed.

Lemma verdict_of_Saved E w url video_id description language filename text :
  verdict_of E w url video_id description language = Saved filename text ->
  exists dir content,
    (dir = "transcripts" \/ dir = "transcripts_fallback") /\
    (ensure_transcripts_folder E w).2 = Return dir /\
    filename = path_join dir (video_id +:+ ".txt") /\
    open_error E filename = None /\
    text = transcript_text url video_id description language content /\
    (transcript_api E (length (api_calls (events w))) url language = ReplyObject content \/
     transcript_api E (length (api_calls (events w))) url language = ReplyPlain content).
Proof.
  unfold verdict_of.
  destruct (ensure_transcripts_folder_eq E w)
    as (w1 & r & -> & _ & _ & _ & [[_ (dir & -> & Hdir)]|[_ (e & ->)]]);
    simpl; [|discriminate].
  unfold fetch_verdict.
  destruct (transcript_api E (length (api_calls (events w))) url language)
    as [content|content|[m|m]]; try discriminate;
    destruct (open_error E (path_join dir (video_id +:+ ".txt"))) eqn:Ho;
    try discriminate; intros [= <- <-]; exists dir, content; auto 10.
Qed.

Lemma ledger_append E path entry fs :
  open_error E path = None ->
  default "" (append_entry E path entry fs !! path) = default "" (fs !! path) +:+ entry.
Proof.
  intros Ho. unfold append_entry. rewrite Ho, lookup_insert_eq. reflexivity.
Qed.

Lemma ledger_other E path entry fs other :
  other <> path -> append_entry E path entry fs !! other = fs !! other.
Proof.
  intros Hne. unfold append_entry. destruct (open_error E path); [reflexivity|].
  apply lookup_insert_ne. congruence.
Qed.

Lemma completed_not_failed : completed_file <> failed_file.
Proof. discriminate. Qed.

(** The ledgers after an invocation, both ledger files being writable. *)
Lemma files_after_ledgers E w url video_id description language :
  open_error E completed_file = None ->
  open_error E failed_file = None ->
  let v := verdict_of E w url video_id description language in
  let fs := files_after E url v (files w) in
  match v with
  | Saved _ _ =>
      default "" (fs !! completed_file) = ledger w completed_file +:+ completed_entry url /\
      fs !! failed_file = files w !! failed_file
  | Failed reason =>
      default "" (fs !! failed_file) = ledger w failed_file +:+ failed_entry url reason /\
      fs !! completed_file = files w !! completed_file
  end.
Proof.
  intros Hoc Hof v fs. subst fs.
  destruct v as [filename text|reason] eqn:Hv; subst v; simpl.
  - apply verdict_of_Saved in Hv as (dir & content & Hdir & _ & -> & _ & _ & _).
    destruct (transcript_path_not_ledger dir video_id Hdir) as [Hnc Hnf].
    rewrite (ledger_append E _ _ _ Hoc).
    rewrite (ledger_other E completed_file _ _ failed_file)
      by (apply not_eq_sym, completed_not_failed).
    unfold ledger. rewrite !lookup_insert_ne by congruence. auto.
  - rewrite (ledger_append E _ _ _ Hof).
    rewrite (ledger_other E failed_file _ _ completed_file) by apply completed_not_failed.
    auto.
Qed.

Lemma failed_entry_line url reason :
  no_break url -> no_break reason ->
  exists body, failed_entry url reason = body +:+ LF /\ no_break body.
Proof.
  intros Hu Hr. exists (url +:+ TAB +:+ reason). unfold failed_entry.
  rewrite !str_app_assoc. split; [reflexivity|].
  apply no_break_app. split; [exact Hu|]. apply no_break_app. split; [reflexivity|exact Hr].
Qed.

(** C1, as the specification states it, fails: without the API key the
    invocation leaves through [sys.exit(1)], which no [except Exception]
    catches, and neither ledger gains an entry. *)
Lemma one_entry_counterexample :
  ~ (forall E url video_id description language w,
        one_entry url w
          (get_youtube_transcript E url video_id description language w).1).
Proof.
  intros H.
  destruct (H (sample_env None sample_rows) "https://youtu.be/abc123DEFgh"
              "abc123DEFgh" "Intro video" "en" empty_world)
    as [[Hc _]|(reason & Hf & _)].
  - vm_compute in Hc. discriminate.
  - vm_compute in Hf. destruct reason; discriminate.
Qed.

(** C1, amended. When the API key is there, both ledger files can be opened
    for appending and the video id holds no slash (so that the transcript is
    a file of the transcripts directory and no other name of a ledger),
    every invocation of the transcript fetcher returns, and exactly one
    ledger gains exactly one entry for the URL: the completed ledger the
    entry [url\n] when it returns success, the failed ledger the entry
    [url\treason\n] when it returns failure; the other ledger stays as it
    was.  The entry is one new line of the file when the URL and the reason
    hold no line break and the ledger was empty or ended with a newline. *)
Theorem get_youtube_transcript_one_entry
    (E : Env) (url video_id description language : string) (w : World) :
  has_api_key E ->
  no_slash video_id ->
  open_error E completed_file = None ->
  open_error E failed_file = None ->
  exists w' ok,
    get_youtube_transcript E url video_id description language w = (w', Return ok) /\
    ((ok = true /\
      ledger w' completed_file = ledger w completed_file +:+ completed_entry url /\
      files w' !! failed_file = files w !! failed_file /\
      (no_break url -> terminated (ledger w completed_file) ->
       file_lines (ledger w' completed_file)
       = file_lines (ledger w completed_file) ++ [completed_entry url]))
     \/
     (ok = false /\
      exists reason,
        ledger w' failed_file = ledger w failed_file +:+ failed_entry url reason /\
        files w' !! completed_file = files w !! completed_file /\
        (no_break url -> no_break reason -> terminated (ledger w failed_file) ->
         file_lines (ledger w' failed_file)
         = file_lines (ledger w failed_file) ++ [failed_entry url reason]))).
Proof.
  intros Hkey _ Hoc Hof.
  destruct (get_youtube_transcript_eq E url video_id description language w Hkey)
    as (w' & Heq & Hfiles & _ & _).
  pose proof (files_after_ledgers E w url video_id description language Hoc Hof) as Hl.
  simpl in Hl. rewrite <- Hfiles in Hl.
  exists w', (saved (verdict_of E w url video_id description language)).
  split; [exact Heq|].
  destruct (verdict_of E w url video_id description language) as [f t|reason]; simpl.
  - left. destruct Hl as [Hc Hf]. fold (ledger w' completed_file) in Hc.
    split; [reflexivity|]. split; [exact Hc|]. split; [exact Hf|].
    intros Hu Ht. rewrite Hc. unfold completed_entry. apply lines_append; assumption.
  - right. destruct Hl as [Hf Hc]. fold (ledger w' failed_file) in Hf.
    split; [reflexivity|]. exists reason. split; [exact Hf|]. split; [exact Hc|].
    intros Hu Hr Ht. rewrite Hf.
    destruct (failed_entry_line url reason Hu Hr) as (body & -> & Hb).
    apply lines_append; assumption.
Qed.

Lemma get_youtube_transcript_one_entry_witness :
  exists w' ok,
    get_youtube_transcript (sample_env (Some "key") sample_rows)
      "https://youtu.be/abc123DEFgh" "abc123DEFgh" "Intro video" "en" empty_world
    = (w', Return ok) /\
    ((ok = true /\
      ledger w' completed_file = "" +:+ completed_entry "https://youtu.be/abc123DEFgh" /\
      files w' !! failed_file = None /\
      (no_break "https://youtu.be/abc123DEFgh" -> terminated "" ->
       file_lines (ledger w' completed_file)
       = [] ++ [completed_entry "https://youtu.be/abc123DEFgh"]))
     \/
     (ok = false /\
      exists reason,
        ledger w' failed_file = "" +:+ failed_entry "https://youtu.be/abc123DEFgh" reason /\
        files w' !! completed_file = None /\
        (no_break "https://youtu.be/abc123DEFgh" -> no_break reason -> terminated "" ->
         file_lines (ledger w' failed_file)
         = [] ++ [failed_entry "https://youtu.be/abc123DEFgh" reason]))).
Proof.
  apply (get_youtube_transcript_one_entry (sample_env (Some "key") sample_rows)
           "https://youtu.be/abc123DEFgh" "abc123DEFgh" "Intro video" "en" empty_world).
  - exists "k"%char, "ey". reflexivity.
  - reflexivity.
  - reflexivity.
  - reflexivity.
Defined.

(** ** Without the API key *)

Lemma has_api_key_dec E : {has_api_key E} + {~ has_api_key E}.
Proof.
  unfold has_api_key. destruct (getenv_api_key E) as [[|c k]|].
  - right. intros (c & k & H). discriminate.
  - left. eauto.
  - right. intros (c & k & H). discriminate.
Qed.

(** Without the key an invocation ends the process with status 1 after the
    instructions; nothing else has happened. *)
Lemma get_youtube_transcript_no_key E url video_id description language w :
  ~ has_api_key E ->
  get_youtube_transcript E url video_id description language w =
  (mkWorld (files w) (dirs w) (stdout w ++ key_instructions) (events w), SysExit 1%Z).
Proof.
  intros Hno. unfold get_youtube_transcript, try_except, bind.
  rewrite (no_api_key_load E w Hno). reflexivity.
Qed.

(** ** The transcript file *)

Lemma path_join_plain dir video_id :
  dir = "transcripts" \/ dir = "transcripts_fallback" ->
  (forall rest, video_id <> String (chr 47) rest) ->
  path_join dir (video_id +:+ ".txt") = dir +:+ "/" +:+ video_id +:+ ".txt".
Proof.
  intros Hdir Hslash. destruct video_id as [|c v].
  - destruct Hdir as [-> | ->]; reflexivity.
  - rewrite str_app_cons. unfold path_join.
    destruct (Ascii.eqb c (chr 47)) eqn:Hc.
    + apply Ascii.eqb_eq in Hc. subst c. exfalso. apply (Hslash v). reflexivity.
    + destruct Hdir as [-> | ->]; reflexivity.
Qed.

Lemma labelled_line label field rest :
  no_break label -> no_break field ->
  file_lines ((label +:+ field +:+ LF) +:+ rest)
  = (label +:+ field +:+ LF) :: file_lines rest.
Proof.
  intros Hl Hf. rewrite <- (str_app_assoc label field LF).
  apply lines_cons. apply no_break_app. auto.
Qed.

(** The lines of a transcript file whose four fields hold no line break. *)
Lemma transcript_text_lines url video_id description language content :
  no_break video_id -> no_break url -> no_break description -> no_break language ->
  file_lines (transcript_text url video_id description language content)
  = header_lines url video_id description language ++ [LF] ++ file_lines content.
Proof.
  intros Hv Hu Hd Hl. unfold transcript_text, header_lines.
  rewrite (labelled_line "Video ID: " video_id _ eq_refl Hv).
  rewrite (labelled_line "URL: " url _ eq_refl Hu).
  rewrite (labelled_line "Description: " description _ eq_refl Hd).
  rewrite (labelled_line "Language: " language _ eq_refl Hl).
  rewrite (str_app_assoc (times 50 "-") (LF +:+ LF) content).
  rewrite (str_app_assoc LF LF content).
  rewrite <- (str_app_assoc (times 50 "-") LF (LF +:+ content)).
  rewrite (lines_cons (times 50 "-") _ eq_refl).
  change (LF +:+ content) with (("" +:+ LF) +:+ content).
  rewrite (lines_cons "" content eq_refl). reflexivity.
Qed.

(** C6, as the specification states it, fails: a description that spans
    two lines (a quoted CSV field may) pushes the language line down. *)
Lemma transcript_header_counterexample :
  ~ (forall E url video_id description language w w',
        get_youtube_transcript E url video_id description language w
        = (w', Return true) ->
        exists dir text more,
          (ensure_transcripts_folder E w).2 = Return dir /\
          files w' !! (dir +:+ "/" +:+ video_id +:+ ".txt") = Some text /\
          file_lines text = header_lines url video_id description language ++ more).
Proof.
  intros H.
  pose (E := sample_env (Some "key") sample_rows).
  pose (description := "Intro" +:+ LF +:+ "video").
  destruct (get_youtube_transcript E "https://youtu.be/abc123DEFgh" "abc123DEFgh"
              description "en" empty_world) as [w' r] eqn:Hrun.
  assert (Hr : r = Return true) by (vm_compute in Hrun; congruence).
  subst r.
  destruct (H E _ _ _ _ _ w' Hrun) as (dir & text & more & Hdir & Hfile & Hlines).
  vm_compute in Hdir. injection Hdir as <-.
  assert (Hw : files w' !! "transcripts/abc123DEFgh.txt"
               = Some (transcript_text "https://youtu.be/abc123DEFgh" "abc123DEFgh"
                         description "en" "Hello world."))
    by (vm_compute in Hrun; injection Hrun as <-; reflexivity).
  change ("transcripts" +:+ "/" +:+ "abc123DEFgh" +:+ ".txt")
    with "transcripts/abc123DEFgh.txt" in Hfile.
  rewrite Hw in Hfile. injection Hfile as <-.
  vm_compute in Hlines. discriminate.
Qed.

(** C6, amended. For every successful fetch for a video id without a
    slash, the file written, at [os.path.join(transcripts_dir, video_id +
    ".txt")], which is [<transcripts_dir>/<video_id>.txt], holds the four
    labelled header lines, the separator of fifty dashes, an empty line and
    the transcript text, in that order; the first four lines of the file are
    the header lines when none of the four fields holds a line break. *)
Theorem get_youtube_transcript_file
    (E : Env) (url video_id description language : string) (w w' : World) :
  no_slash video_id ->
  get_youtube_transcript E url video_id description language w = (w', Return true) ->
  exists dir content,
    (dir = "transcripts" \/ dir = "transcripts_fallback") /\
    (ensure_transcripts_folder E w).2 = Return dir /\
    (transcript_api E (length (api_calls (events w))) url language = ReplyObject content \/
     transcript_api E (length (api_calls (events w))) url language = ReplyPlain content) /\
    path_join dir (video_id +:+ ".txt") = dir +:+ "/" +:+ video_id +:+ ".txt" /\
    files w' !! (dir +:+ "/" +:+ video_id +:+ ".txt")
    = Some (transcript_text url video_id description language content) /\
    (no_break video_id -> no_break url -> no_break description -> no_break language ->
     file_lines (transcript_text url video_id description language content)
     = header_lines url video_id description language ++ [LF] ++ file_lines content).
Proof.
  intros Hslash Hrun.
  assert (Hplain : forall rest, video_id <> String (chr 47) rest).
  { intros rest ->. unfold no_slash in Hslash. rewrite all_chars_cons in Hslash.
    discriminate Hslash. }
  destruct (has_api_key_dec E) as [Hkey|Hno].
  2: { rewrite (get_youtube_transcript_no_key E _ _ _ _ w Hno) in Hrun. discriminate. }
  destruct (get_youtube_transcript_eq E url video_id description language w Hkey)
    as (w1 & Heq & Hfiles & _ & _).
  rewrite Heq in Hrun. injection Hrun as <- Hsaved.
  destruct (verdict_of E w url video_id description language) as [f t|reason] eqn:Hv;
    [|discriminate].
  apply verdict_of_Saved in Hv as (dir & content & Hdir & He & -> & Ho & -> & Hapi).
  exists dir, content. split; [exact Hdir|]. split; [exact He|]. split; [exact Hapi|].
  split; [apply path_join_plain; assumption|]. split; [|apply transcript_text_lines].
  rewrite <- (path_join_plain dir video_id Hdir Hplain).
  rewrite Hfiles. simpl.
  destruct (transcript_path_not_ledger dir video_id Hdir) as [Hnc _].
  rewrite (ledger_other E completed_file _ _ _ Hnc). apply lookup_insert_eq.
Qed.

Lemma get_youtube_transcript_file_witness :
  exists w' dir content,
    get_youtube_transcript (sample_env (Some "key") sample_rows)
      "https://youtu.be/abc123DEFgh" "abc123DEFgh" "Intro video" "en" empty_world
    = (w', Return true) /\
    path_join dir ("abc123DEFgh" +:+ ".txt") = dir +:+ "/" +:+ "abc123DEFgh" +:+ ".txt" /\
    files w' !! (dir +:+ "/" +:+ "abc123DEFgh" +:+ ".txt")
    = Some (transcript_text "https://youtu.be/abc123DEFgh" "abc123DEFgh" "Intro video"
              "en" content) /\
    file_lines (transcript_text "https://youtu.be/abc123DEFgh" "abc123DEFgh"
                  "Intro video" "en" content)
    = header_lines "https://youtu.be/abc123DEFgh" "abc123DEFgh" "Intro video" "en"
      ++ [LF] ++ file_lines content.
Proof.
  destruct (get_youtube_transcript (sample_env (Some "key") sample_rows)
              "https://youtu.be/abc123DEFgh" "abc123DEFgh" "Intro video" "en"
              empty_world) as [w' r] eqn:Hrun.
  assert (Hr : r = Return true) by (vm_compute in Hrun; congruence).
  subst r.
  assert (Hslash : no_slash "abc123DEFgh") by reflexivity.
  destruct (get_youtube_transcript_file _ _ _ _ _ _ _ Hslash Hrun)
    as (dir & content & _ & _ & _ & Hpath & Hfile & Hlines).
  exists w', dir, content. split; [reflexivity|]. split; [exact Hpath|].
  split; [exact Hfile|]. apply Hlines; reflexivity.
Defined.

(** ** The loop over the pending records *)

Lemma append_entry_is_Some E path entry fs p :
  is_Some (fs !! p) -> is_Some (append_entry E path entry fs !! p).
Proof.
  intros Hp. unfold append_entry. destruct (open_error E path); [exact Hp|].
  apply lookup_insert_is_Some'. right. exact Hp.
Qed.

Lemma files_after_is_Some E url v fs p :
  is_Some (fs !! p) -> is_Some (files_after E url v fs !! p).
Proof.
  intros Hp. destruct v as [f t|reason]; simpl; apply append_entry_is_Some; [|exact Hp].
  apply lookup_insert_is_Some'. right. exact Hp.
Qed.

Lemma folder_ok_mono E w w' :
  dirs w ⊆ dirs w' ->
  (is_Some (files w !! "transcripts") -> is_Some (files w' !! "transcripts")) ->
  folder_ok E w -> folder_ok E w'.
Proof.
  unfold folder_ok. intros Hd Hf [H|[H|[H|H]]]; auto.
Qed.

(** With the API key and a transcripts directory, an invocation returns,
    calls the API once and leaves a directory behind. *)
Lemma get_youtube_transcript_step E url video_id description language w :
  has_api_key E -> folder_ok E w ->
  exists w' ok,
    get_youtube_transcript E url video_id description language w = (w', Return ok) /\
    events w' = events w ++ [ApiCall url language] /\
    folder_ok E w'.
Proof.
  intros Hkey Hok.
  destruct (get_youtube_transcript_eq E url video_id description language w Hkey)
    as (w' & Heq & Hf & Hd & Hev).
  destruct (ensure_transcripts_folder_eq E w)
    as (w1 & r & He & _ & _ & Hsub & [[_ (dir & -> & _)]|[Hno _]]); [|contradiction].
  rewrite He in Hd, Hev. simpl in Hd, Hev.
  exists w', (saved (verdict_of E w url video_id description language)).
  split; [exact Heq|]. split; [exact Hev|].
  apply (folder_ok_mono E w w'); [rewrite Hd; exact Hsub | | exact Hok].
  rewrite Hf. apply files_after_is_Some.
Qed.

Lemma schedule_cons language r rest :
  schedule language (r :: rest) =
  ApiCall (record_url r) language ::
  (if (0 <? length rest)%nat then Sleep 5 :: schedule language rest else []).
Proof. destruct rest; reflexivity. Qed.

(** The loop, the API key being there: it returns, and the calls that left
    the process are the schedule of the records. *)
Lemma process_loop_eq E language (Hkey : has_api_key E) todo :
  forall total i successful failed w,
    folder_ok E w -> i + length todo = S total ->
    exists w' counts,
      process_loop E language total i todo successful failed w = (w', Return counts) /\
      events w' = events w ++ schedule language todo /\
      counts.1 + counts.2 = successful + failed + length todo.
Proof.
  induction todo as [|[[video_id url] description] rest IH];
    intros total i successful failed w Hok Hlen.
  - exists w, (successful, failed). simpl. rewrite app_nil_r.
    split; [reflexivity|]. split; [reflexivity|lia].
  - rewrite schedule_cons. simpl in Hlen. simpl. unfold bind at 1. unfold print at 1.
    unfold bind at 1.
    match goal with |- context [get_youtube_transcript E url video_id description language ?w0] =>
      destruct (get_youtube_transcript_step E url video_id description language w0 Hkey)
        as (w1 & ok & -> & Hev1 & Hok1); [exact Hok|] end.
    simpl in Hev1.
    assert (Hi : (i <? total)%nat = (0 <? length rest)%nat).
    { destruct rest; simpl in *.
      - apply Nat.ltb_ge. lia.
      - apply Nat.ltb_lt. lia. }
    rewrite Hi. destruct (0 <? length rest)%nat.
    + unfold bind at 1. unfold bind at 1. unfold print at 1. unfold sleep, emit.
      match goal with |- context [process_loop E language total (S i) rest ?s ?f ?w0] =>
        destruct (IH total (S i) s f w0) as (w' & counts & -> & Hev & Hc);
          [exact Hok1 | lia |] end.
      simpl in Hev. exists w', counts. split; [reflexivity|].
      split.
      * rewrite Hev, Hev1, <- !app_assoc. reflexivity.
      * rewrite Hc. destruct ok; simpl; lia.
    + unfold bind at 1. unfold ret at 1.
      match goal with |- context [process_loop E language total (S i) rest ?s ?f ?w0] =>
        destruct (IH total (S i) s f w0) as (w' & counts & -> & Hev & Hc);
          [exact Hok1 | lia |] end.
      exists w', counts. split; [reflexivity|].
      split.
      * rewrite Hev, Hev1, <- !app_assoc.
        assert (Hrest : rest = []).
        { apply Nat.ltb_ge in Hi. destruct rest; [reflexivity|simpl in Hlen; lia]. }
        subst rest. reflexivity.
      * rewrite Hc. destruct ok; simpl; lia.
Qed.

(** ** The run *)

Lemma csv_rows_read_files E w1 w csv_file :
  files w1 = files w -> csv_rows_read E w1 csv_file = csv_rows_read E w csv_file.
Proof. intros Hf. unfold csv_rows_read. rewrite Hf. reflexivity. Qed.

Lemma ledger_lines_files E w1 w path :
  files w1 = files w -> ledger_lines E w1 path = ledger_lines E w path.
Proof. intros Hf. unfold ledger_lines. rewrite Hf. reflexivity. Qed.

Lemma loaded_set_completed E w :
  loaded_set (load_completed_urls E w)
  = url_set completed_url (ledger_lines E w completed_file).
Proof.
  unfold loaded_set, returned. destruct (load_completed_urls_eq E w) as (out & ->).
  reflexivity.
Qed.

Lemma loaded_set_failed E w :
  loaded_set (load_failed_urls E w) = url_set failed_url (ledger_lines E w failed_file).
Proof.
  unfold loaded_set, returned. destruct (load_failed_urls_eq E w) as (out & ->).
  reflexivity.
Qed.

Lemma planned_files E csv_file w1 w :
  files w1 = files w -> planned E csv_file w1 = planned E csv_file w.
Proof.
  intros Hf. unfold planned.
  rewrite !loaded_records_eq, !loaded_set_completed, !loaded_set_failed.
  rewrite (csv_rows_read_files E w1 w csv_file Hf).
  rewrite !(ledger_lines_files E w1 w _ Hf). reflexivity.
Qed.

Lemma planned_eq E csv_file w :
  planned E csv_file w =
  pending (csv_records (csv_rows_read E w csv_file))
    (url_set completed_url (ledger_lines E w completed_file))
    (url_set failed_url (ledger_lines E w failed_file)).
Proof.
  unfold planned. rewrite loaded_records_eq, loaded_set_completed, loaded_set_failed.
  reflexivity.
Qed.

Lemma process_csv_urls_plan E csv_file language w :
  folder_ok E w ->
  exists w1 k,
    files w1 = files w /\ events w1 = events w /\ folder_ok E w1 /\
    (forall counts w2, exists w',
        k counts w2 = (w', Return tt) /\ files w' = files w2 /\ events w' = events w2) /\
    ((planned E csv_file w = [] /\
      exists w', process_csv_urls E csv_file language w = (w', Return tt) /\
                 files w' = files w /\ events w' = events w)
     \/
     (planned E csv_file w <> [] /\
      process_csv_urls E csv_file language w =
      bind (process_loop E language (length (planned E csv_file w)) 1
              (planned E csv_file w) 0 0) k w1)).
Proof.
  intros Hok.
  destruct (process_csv_urls E csv_file language w) as [wf rf] eqn:Hrun.
  unfold process_csv_urls in Hrun.
  destruct (ensure_transcripts_folder_eq E w)
    as (w1 & r & He & Hf1 & Hev1 & Hsub & [[_ (dir & -> & _)]|[Hno _]]); [|contradiction].
  unfold bind at 1 in Hrun. unfold try_except at 1 in Hrun. unfold bind at 1 in Hrun.
  rewrite He in Hrun.
  unfold bind at 1 in Hrun. unfold print at 1 in Hrun. unfold ret at 1 in Hrun.
  cbn [negb] in Hrun. unfold bind at 1 in Hrun.
  match type of Hrun with context [read_csv_urls E csv_file ?w0] =>
    destruct (read_csv_urls_eq E csv_file w0) as (final & Hread & _);
    rewrite Hread in Hrun; clear Hread;
    rewrite (csv_rows_read_files E w0 w csv_file Hf1) in Hrun end.
  cbn [files dirs stdout events] in Hrun.
  rewrite planned_eq.
  destruct (csv_records (csv_rows_read E w csv_file)) as [|r0 l0] eqn:Hurls.
  { exists w1, (fun _ w2 => (w2, Return tt)).
    repeat split; try assumption.
    - apply (folder_ok_mono E w w1 Hsub); [rewrite Hf1; auto|exact Hok].
    - intros counts w2. exists w2. auto.
    - left. split; [reflexivity|]. unfold print in Hrun. injection Hrun as <- <-.
      eexists. split; [reflexivity|]. simpl. auto. }
  unfold bind at 1 in Hrun.
  match type of Hrun with context [load_completed_urls E ?w0] =>
    destruct (load_completed_urls_eq E w0) as (out1 & Hload);
    rewrite Hload in Hrun; clear Hload;
    rewrite (ledger_lines_files E w0 w completed_file Hf1) in Hrun end.
  cbn [files dirs stdout events] in Hrun.
  unfold bind at 1 in Hrun.
  match type of Hrun with context [load_failed_urls E ?w0] =>
    destruct (load_failed_urls_eq E w0) as (out2 & Hload);
    rewrite Hload in Hrun; clear Hload;
    rewrite (ledger_lines_files E w0 w failed_file Hf1) in Hrun end.
  cbn [files dirs stdout events] in Hrun.
  destruct (pending (r0 :: l0) (url_set completed_url (ledger_lines E w completed_file))
              (url_set failed_url (ledger_lines E w failed_file)))
    as [|p0 todo] eqn:Hpending.
  { exists w1, (fun _ w2 => (w2, Return tt)).
    repeat split; try assumption.
    - apply (folder_ok_mono E w w1 Hsub); [rewrite Hf1; auto|exact Hok].
    - intros counts w2. exists w2. auto.
    - left. split; [reflexivity|]. unfold print in Hrun. injection Hrun as <- <-.
      eexists. split; [reflexivity|]. simpl. auto. }
  unfold bind at 1 in Hrun. unfold print at 1 in Hrun.
  unfold bind at 1 in Hrun. unfold print at 1 in Hrun.
  unfold bind at 1 in Hrun. unfold print at 1 in Hrun.
  cbn [files dirs stdout events] in Hrun.
  match type of Hrun with bind _ ?K ?W = _ => exists W, K end.
  split; [exact Hf1|]. split; [exact Hev1|]. split.
  { apply (folder_ok_mono E w); [exact Hsub|simpl; rewrite Hf1; auto|exact Hok]. }
  split.
  { intros counts w2. cbn beta.
    match goal with |- exists w', ?m w2 = _ /\ _ =>
      assert (Hq : only_prints m)
        by (repeat (apply only_prints_bind; [apply only_prints_print|intros _]);
            apply only_prints_print)
    end.
    destruct (Hq w2) as (out & [] & ->). eexists. split; [reflexivity|].
    split; reflexivity. }
  right. split; [discriminate|]. symmetry. exact Hrun.
Qed.

(** The run with the API key and a transcripts directory: it returns, and
    the calls that left the process are the schedule of the planned
    records. *)
Lemma process_csv_urls_events E csv_file language w :
  has_api_key E -> folder_ok E w ->
  exists w',
    process_csv_urls E csv_file language w = (w', Return tt) /\
    events w' = events w ++ schedule language (planned E csv_file w).
Proof.
  intros Hkey Hok.
  destruct (process_csv_urls_plan E csv_file language w Hok)
    as (w1 & k & Hf1 & Hev1 & Hok1 & Hk & [[Hnil (w' & Hrun & _ & Hev)]|[Hne Hrun]]).
  - exists w'. rewrite Hnil, app_nil_r. auto.
  - destruct (process_loop_eq E language Hkey (planned E csv_file w)
                (length (planned E csv_file w)) 1 0 0 w1 Hok1 eq_refl)
      as (w2 & counts & Hloop & Hev2 & _).
    unfold bind in Hrun. rewrite Hloop in Hrun.
    destruct (Hk counts w2) as (w' & Hkw & _ & Hev').
    exists w'. rewrite Hrun, Hkw. split; [reflexivity|].
    rewrite Hev', Hev2, Hev1. reflexivity.
Qed.

(** The run without a transcripts directory: nothing is processed. *)
Lemma process_csv_urls_no_folder E csv_file language w :
  ~ folder_ok E w ->
  exists w',
    process_csv_urls E csv_file language w = (w', Return tt) /\
    files w' = files w /\ events w' = events w.
Proof.
  intros Hno. unfold process_csv_urls.
  destruct (ensure_transcripts_folder_eq E w)
    as (w1 & r & He & Hf1 & Hev1 & _ & [[Hok _]|[_ (e & ->)]]); [contradiction|].
  unfold bind at 1. unfold try_except at 1. unfold bind at 1. rewrite He.
  cbn beta iota. rewrite bind_print. unfold ret at 1. cbn beta iota delta [negb].
  unfold ret. eexists. split; [reflexivity|]. cbn [files events]. auto.
Qed.

Lemma process_loop_no_key E language total i r rest successful failed w :
  ~ has_api_key E ->
  exists line,
    process_loop E language total i (r :: rest) successful failed w =
    (mkWorld (files w) (dirs w) (stdout w ++ [Text line] ++ key_instructions) (events w),
     SysExit 1%Z).
Proof.
  intros Hno. destruct r as [[video_id url] description]. simpl.
  unfold bind at 1. unfold print at 1. unfold bind at 1.
  rewrite (get_youtube_transcript_no_key E _ _ _ _ _ Hno). simpl.
  rewrite <- app_assoc. eexists. reflexivity.
Qed.

(** The run without the API key: nothing is fetched and no file changes;
    with a record to work off the process ends with status 1 after the
    instructions, with none it returns. *)
Lemma process_csv_urls_no_key E csv_file language w :
  ~ has_api_key E -> folder_ok E w ->
  exists w',
    files w' = files w /\ events w' = events w /\
    ((planned E csv_file w = [] /\
      process_csv_urls E csv_file language w = (w', Return tt))
     \/
     (planned E csv_file w <> [] /\
      process_csv_urls E csv_file language w = (w', SysExit 1%Z) /\
      exists out, stdout w' = out ++ key_instructions)).
Proof.
  intros Hno Hok.
  destruct (process_csv_urls_plan E csv_file language w Hok)
    as (w1 & k & Hf1 & Hev1 & Hok1 & Hk & [[Hnil (w' & Hrun & Hf & Hev)]|[Hne Hrun]]).
  - exists w'. auto.
  - destruct (planned E csv_file w) as [|r rest] eqn:Hplan; [contradiction|].
    destruct (process_loop_no_key E language (length (r :: rest)) 1 r rest 0 0 w1 Hno)
      as (line & Hloop).
    unfold bind in Hrun. rewrite Hloop in Hrun.
    eexists. split; [|split; [|right; split; [discriminate|split; [exact Hrun|]]]].
    + exact Hf1.
    + exact Hev1.
    + simpl. exists (stdout w1 ++ [Text line]). rewrite <- app_assoc. reflexivity.
Qed.

(** ** The schedule *)

Lemma api_calls_app evs1 evs2 : api_calls (evs1 ++ evs2) = api_calls evs1 ++ api_calls evs2.
Proof. unfold api_calls. apply omap_app. Qed.

Lemma api_calls_schedule language todo :
  api_calls (schedule language todo) = call_of language <$> todo.
Proof.
  induction todo as [|r rest IH]; [reflexivity|].
  rewrite schedule_cons, fmap_cons.
  change (api_calls (ApiCall (record_url r) language :: ?l))
    with (call_of language r :: api_calls l).
  f_equal. destruct rest as [|r' rest']; [reflexivity|]. exact IH.
Qed.

Lemma pauses_schedule language todo :
  pauses (schedule language todo) = replicate (length todo - 1) 5.
Proof.
  induction todo as [|r rest IH]; [reflexivity|].
  rewrite schedule_cons.
  change (pauses (ApiCall (record_url r) language :: ?l)) with (pauses l).
  destruct rest as [|r' rest']; [reflexivity|].
  change (0 <? length (r' :: rest'))%nat with true. cbn iota.
  change (pauses (Sleep 5 :: ?l)) with (5 :: pauses l). rewrite IH. simpl.
  rewrite Nat.sub_0_r. reflexivity.
Qed.

Lemma schedule_last language todo r :
  last todo = Some r ->
  last (schedule language todo) = Some (ApiCall (record_url r) language).
Proof.
  induction todo as [|r0 rest IH]; [discriminate|].
  destruct rest as [|r1 rest'].
  - intros [= ->]. reflexivity.
  - intros Hlast. change (last (r0 :: r1 :: rest')) with (last (r1 :: rest')) in Hlast.
    specialize (IH Hlast). rewrite schedule_cons.
    change (0 <? length (r1 :: rest'))%nat with true. cbn iota.
    rewrite !last_cons. rewrite IH. reflexivity.
Qed.

Lemma schedule_call language todo url l :
  ApiCall url l ∈ schedule language todo ->
  exists r, r ∈ todo /\ url = record_url r /\ l = language.
Proof.
  intros Hin.
  assert (Hc : (url, l) ∈ api_calls (schedule language todo)).
  { unfold api_calls. apply list_elem_of_omap. exists (ApiCall url l). auto. }
  rewrite api_calls_schedule in Hc. apply list_elem_of_fmap in Hc as (r & Heq & Hr).
  injection Heq as -> ->. eauto.
Qed.

Lemma planned_elem E csv_file w r :
  r ∈ planned E csv_file w <->
  (r ∈ loaded_records E csv_file w) /\
  (record_url r ∉ loaded_set (load_completed_urls E w)) /\
  (record_url r ∉ loaded_set (load_failed_urls E w)).
Proof.
  unfold planned, pending. rewrite list_elem_of_filter. tauto.
Qed.

(** Every run of the driver ends, and the calls it adds are the schedule of
    the planned records or none. *)
Lemma process_csv_urls_new_events E csv_file language w :
  exists w' r,
    process_csv_urls E csv_file language w = (w', r) /\
    (events w' = events w \/
     events w' = events w ++ schedule language (planned E csv_file w)).
Proof.
  destruct (folder_ok_dec E w) as [Hok|Hno].
  - destruct (has_api_key_dec E) as [Hkey|Hnokey].
    + destruct (process_csv_urls_events E csv_file language w Hkey Hok) as (w' & -> & Hev).
      eauto.
    + destruct (process_csv_urls_no_key E csv_file language w Hnokey Hok)
        as (w' & _ & Hev & [[_ ->]|[_ [-> _]]]); eauto.
  - destruct (process_csv_urls_no_folder E csv_file language w Hno) as (w' & -> & _ & Hev).
    eauto.
Qed.

Lemma sample_has_api_key rows : has_api_key (sample_env (Some "key") rows).
Proof. exists "k"%char, "ey". reflexivity. Qed.

Lemma sample_folder_ok key rows w : folder_ok (sample_env key rows) w.
Proof. right. right. left. reflexivity. Qed.

(** C8, amended. A run with the API key and a transcripts directory that
    has records to process works them off one at a time in the order of the
    CSV file, and sleeps five seconds after each of them except the last. *)
Theorem process_csv_urls_order (E : Env) (csv_file language : string) (w : World) :
  has_api_key E -> folder_ok E w -> planned E csv_file w <> [] ->
  exists w' todo final,
    process_csv_urls E csv_file language w = (w', Return tt) /\
    todo = filter (fun r => (record_url r ∉ loaded_set (load_completed_urls E w)) /\
                            (record_url r ∉ loaded_set (load_failed_urls E w)))
             (loaded_records E csv_file w) /\
    events w' = events w ++ schedule language todo /\
    api_calls (schedule language todo) = call_of language <$> todo /\
    pauses (schedule language todo) = replicate (length todo - 1) 5 /\
    last todo = Some final /\
    last (schedule language todo) = Some (ApiCall (record_url final) language).
Proof.
  intros Hkey Hok Hne.
  destruct (process_csv_urls_events E csv_file language w Hkey Hok) as (w' & Hrun & Hev).
  destruct (last (planned E csv_file w)) as [final|] eqn:Hlast.
  2: { apply last_None in Hlast. contradiction. }
  exists w', (planned E csv_file w), final.
  split; [exact Hrun|]. split; [reflexivity|]. split; [exact Hev|].
  split; [apply api_calls_schedule|]. split; [apply pauses_schedule|].
  split; [exact Hlast|]. apply schedule_last. exact Hlast.
Qed.

Lemma process_csv_urls_order_witness :
  exists w',
    process_csv_urls (sample_env (Some "key") sample_rows) "youtube_url.csv" "en"
      (sample_world "") = (w', Return tt) /\
    events w' =
    [ ApiCall "https://youtu.be/abc123DEFgh" "en"; Sleep 5;
      ApiCall "https://youtu.be/xyz" "en"; Sleep 5;
      ApiCall "https://youtu.be/abc123DEFgh" "en" ].
Proof.
  destruct (process_csv_urls_order (sample_env (Some "key") sample_rows)
              "youtube_url.csv" "en" (sample_world "")
              (sample_has_api_key sample_rows) (sample_folder_ok _ _ _))
    as (w' & todo & final & Hrun & Htodo & Hev & _).
  - vm_compute. discriminate.
  - exists w'. split; [exact Hrun|]. rewrite Hev, Htodo. vm_compute. reflexivity.
Defined.

(** ** Repeated URLs *)

Lemma count_calls language url (todo : list record) :
  length (filter (fun c : string * string => c.1 = url) (call_of language <$> todo))
  = length (filter (fun r => record_url r = url) todo).
Proof.
  induction todo as [|r rest IH]; [reflexivity|].
  rewrite fmap_cons, !filter_cons. unfold call_of at 1. simpl.
  destruct (decide (record_url r = url)); simpl; rewrite IH; reflexivity.
Qed.

Lemma count_pending url (urls : list record) (completed failed : gset string) :
  url ∉ completed -> url ∉ failed ->
  filter (fun r => record_url r = url) (pending urls completed failed)
  = filter (fun r => record_url r = url) urls.
Proof.
  intros Hc Hf. unfold pending.
  induction urls as [|r rest IH]; [reflexivity|].
  rewrite !filter_cons.
  destruct (decide (record_url r = url)) as [Hu|Hu].
  - destruct (decide ((record_url r ∉ completed) /\ (record_url r ∉ failed)))
      as [_|Hno].
    + rewrite filter_cons. destruct (decide (record_url r = url)); [|contradiction].
      rewrite IH. reflexivity.
    + exfalso. apply Hno. rewrite Hu. auto.
  - destruct (decide ((record_url r ∉ completed) /\ (record_url r ∉ failed))).
    + rewrite filter_cons. destruct (decide (record_url r = url)); [contradiction|].
      exact IH.
    + exact IH.
Qed.

(** C10, amended. In a run with the API key and a transcripts directory the
    pending records are fixed once, from the ledgers as loaded at the
    start: a URL that is in neither ledger then is fetched once for each
    CSV row that holds it, whatever the run has written to the ledgers in
    between. *)
Theorem process_csv_urls_repeats (E : Env) (csv_file language : string) (w : World) :
  has_api_key E -> folder_ok E w ->
  exists w' added,
    process_csv_urls E csv_file language w = (w', Return tt) /\
    events w' = events w ++ added /\
    forall url,
      url ∉ loaded_set (load_completed_urls E w) ->
      url ∉ loaded_set (load_failed_urls E w) ->
      length (filter (fun c : string * string => c.1 = url) (api_calls added))
      = length (filter (fun r => record_url r = url) (loaded_records E csv_file w)).
Proof.
  intros Hkey Hok.
  destruct (process_csv_urls_events E csv_file language w Hkey Hok) as (w' & Hrun & Hev).
  exists w', (schedule language (planned E csv_file w)).
  split; [exact Hrun|]. split; [exact Hev|].
  intros url Hc Hf. rewrite api_calls_schedule, count_calls. unfold planned.
  rewrite (count_pending url _ _ _ Hc Hf). reflexivity.
Qed.

Lemma process_csv_urls_repeats_witness :
  exists w' added,
    process_csv_urls (sample_env (Some "key") sample_rows) "youtube_url.csv" "en"
      (sample_world "") = (w', Return tt) /\
    events w' = [] ++ added /\
    length (filter (fun c : string * string => c.1 = "https://youtu.be/abc123DEFgh")
              (api_calls added)) = 2 /\
    "https://youtu.be/abc123DEFgh" ∈ loaded_set (load_completed_urls
                                       (sample_env (Some "key") sample_rows) w').
Proof.
  destruct (process_csv_urls_repeats (sample_env (Some "key") sample_rows)
              "youtube_url.csv" "en" (sample_world "")
              (sample_has_api_key sample_rows) (sample_folder_ok _ _ _))
    as (w' & added & Hrun & Hev & Hcount).
  exists w', added. split; [exact Hrun|]. split; [exact Hev|]. split.
  - rewrite (Hcount "https://youtu.be/abc123DEFgh").
    + vm_compute. reflexivity.
    + vm_compute. intros H. discriminate H.
    + vm_compute. intros H. discriminate H.
  - assert (Hw : w' = (process_csv_urls (sample_env (Some "key") sample_rows)
                         "youtube_url.csv" "en" (sample_world "")).1)
      by (rewrite Hrun; reflexivity).
    rewrite Hw, loaded_set_completed. apply url_set_elem. split; [discriminate|].
    exists ("https://youtu.be/abc123DEFgh" +:+ LF). split; [|reflexivity].
    vm_compute. apply list_elem_of_here.
Defined.

(** ** The program *)

Lemma print_usage_eq w :
  exists out,
    print_usage w = (mkWorld (files w) (dirs w) (stdout w ++ out) (events w), Return tt).
Proof.
  assert (Hq : only_prints print_usage).
  { unfold print_usage.
    repeat (apply only_prints_bind; [apply only_prints_print|intros _]).
    apply only_prints_print. }
  destruct (Hq w) as (out & [] & ->). exists out. reflexivity.
Qed.

(** The arguments are read without touching files, directories or events;
    a help flag ends the process with status 0, otherwise the language comes
    back and nothing was printed. *)
Lemma parse_args_eq args : forall language w,
  (exists out,
      parse_args args language w =
      (mkWorld (files w) (dirs w) (stdout w ++ out) (events w), SysExit 0%Z))
  \/ (exists language', parse_args args language w = (w, Return language')).
Proof.
  induction args as [|arg rest IH]; intros language w; simpl.
  - right. exists language. reflexivity.
  - destruct rest as [|next rest'].
    + destruct (negb (String.eqb arg "--language")
                && (String.eqb arg "--help" || String.eqb arg "-h")).
      * left. unfold bind. destruct (print_usage_eq w) as (out & ->). eauto.
      * right. exists language. reflexivity.
    + destruct (String.eqb arg "--language"); [apply IH|].
      destruct (String.eqb arg "--help" || String.eqb arg "-h"); [|apply IH].
      left. unfold bind. destruct (print_usage_eq w) as (out & ->). eauto.
Qed.


(** [main] up to the call of the driver. *)
Lemma main_eq E argv w :
  (exists w', main E argv w = (w', SysExit 0%Z) /\
              files w' = files w /\ events w' = events w /\ dirs w' = dirs w)
  \/ (exists w', main E argv w = (w', SysExit 1%Z) /\
                 files w' = files w /\ events w' = events w /\ ~ folder_ok E w)
  \/ (exists w1 language,
        main E argv w = process_csv_urls E "youtube_url.csv" language w1 /\
        files w1 = files w /\ events w1 = events w /\ folder_ok E w1 /\ folder_ok E w /\
        (exists language0, parse_args argv "en" w = (w, Return language0) /\
                           language = language0)).
Proof.
  destruct (parse_args_eq argv "en" w) as [(out & Hp)|(language & Hp)].
  - left. eexists. split; [unfold main; apply (bind_SysExit _ _ _ _ _ Hp)|].
    cbn [files events dirs]. auto.
  - right. destruct (main E argv w) as [wf rf] eqn:Hmain.
    unfold main in Hmain. rewrite (bind_Return _ _ _ _ _ Hp) in Hmain.
    unfold bind at 1 in Hmain. unfold print at 1 in Hmain. cbn beta iota in Hmain.
    unfold bind at 1 in Hmain. unfold print at 1 in Hmain. cbn beta iota in Hmain.
    match type of Hmain with bind _ _ ?w0 = _ =>
      destruct (ensure_transcripts_folder_eq E w0)
        as (w1 & r & Hrun & Hf1 & Hev1 & Hsub & [[Hok (dir & -> & _)]|[Hno (e & ->)]]) end.
    + right. exists w1, language.
      split.
      { rewrite <- Hmain. rewrite (bind_Return _ _ _ w1 tt); [reflexivity|].
        apply try_except_Return. rewrite (bind_Return _ _ _ _ _ Hrun). reflexivity. }
      cbn [files events dirs stdout] in Hf1, Hev1.
      split; [exact Hf1|]. split; [exact Hev1|].
      split; [refine (folder_ok_mono E _ w1 Hsub _ Hok); rewrite Hf1; intros H; exact H|].
      split; [refine (folder_ok_mono E _ w _ _ Hok); [reflexivity|intros H; exact H]|].
      eauto.
    + left. eexists. split.
      { rewrite <- Hmain. apply bind_SysExit. rewrite (try_except_Raise _ _ _ w1 e).
        - unfold bind at 1. unfold print at 1. cbn beta iota.
          unfold bind at 1. unfold print at 1. cbn beta iota.
          unfold sys_exit. reflexivity.
        - apply (bind_Raise _ _ _ _ _ Hrun). }
      cbn [files events dirs stdout] in *.
      split; [exact Hf1|]. split; [exact Hev1|].
      intros H. apply Hno.
      refine (folder_ok_mono E w _ _ _ H); [reflexivity|intros H'; exact H'].
Qed.




(** ** Further properties of the parts of the program *)

Lemma path_exists_eq w path :
  path_exists path w = (w, Return (bool_decide (exists_path w path))).
Proof.
  unfold path_exists, exists_path. do 2 f_equal.
  destruct (decide (path ∈ dirs w)) as [Hd|Hd];
    destruct (decide (is_Some (files w !! path))) as [Hf|Hf].
  - rewrite !bool_decide_eq_true_2; auto.
  - rewrite (bool_decide_eq_true_2 _ Hd), (bool_decide_eq_false_2 _ Hf).
    rewrite bool_decide_eq_true_2; auto.
  - rewrite (bool_decide_eq_false_2 _ Hd), (bool_decide_eq_true_2 _ Hf).
    rewrite bool_decide_eq_true_2; auto.
  - rewrite (bool_decide_eq_false_2 _ Hd), (bool_decide_eq_false_2 _ Hf).
    rewrite bool_decide_eq_false_2; [reflexivity|]. intros [H|H]; contradiction.
Qed.

(** The four ways [ensure_transcripts_folder] can go. *)
Lemma ensure_transcripts_folder_cases (E : Env) (w : World) :
  (exists_path w "transcripts" ->
   ensure_transcripts_folder E w =
   (with_output w (dirs w) [Text "Using existing transcripts folder: transcripts"],
    Return "transcripts"))
  /\ (~ exists_path w "transcripts" ->
      makedirs_error E "transcripts" = None ->
      ensure_transcripts_folder E w =
      (with_output w ({[ "transcripts" ]} ∪ dirs w)
         [Text "Created transcripts folder: transcripts"],
       Return "transcripts"))
  /\ (forall msg, ~ exists_path w "transcripts" ->
      makedirs_error E "transcripts" = Some msg ->
      makedirs_error E "transcripts_fallback" = None ->
      ensure_transcripts_folder E w =
      (with_output w ({[ "transcripts_fallback" ]} ∪ dirs w)
         [Text ("Error creating transcripts folder: " +:+ msg);
          Text "Created fallback folder: transcripts_fallback"],
       Return "transcripts_fallback"))
  /\ (forall msg msg', ~ exists_path w "transcripts" ->
      makedirs_error E "transcripts" = Some msg ->
      makedirs_error E "transcripts_fallback" = Some msg' ->
      ensure_transcripts_folder E w =
      (with_output w (dirs w)
         [Text ("Error creating transcripts folder: " +:+ msg);
          Text ("Critical error: Could not create any transcripts folder: " +:+ msg')],
       Raise (OtherError msg'))).
Proof.
  unfold ensure_transcripts_folder, with_output.
  repeat split.
  - intros Hex. unfold try_except, bind. rewrite path_exists_eq.
    rewrite (bool_decide_eq_true_2 _ Hex). reflexivity.
  - intros Hex Hmk. unfold try_except, bind. rewrite path_exists_eq.
    rewrite (bool_decide_eq_false_2 _ Hex). unfold makedirs. rewrite Hmk. reflexivity.
  - intros msg Hex Hmk Hfb. unfold try_except, bind. rewrite path_exists_eq.
    rewrite (bool_decide_eq_false_2 _ Hex). unfold makedirs. rewrite Hmk.
    cbn. rewrite Hfb. cbn. rewrite <- app_assoc. reflexivity.
  - intros msg msg' Hex Hmk Hfb. unfold try_except, bind. rewrite path_exists_eq.
    rewrite (bool_decide_eq_false_2 _ Hex). unfold makedirs. rewrite Hmk.
    cbn. rewrite Hfb. cbn. rewrite <- app_assoc. reflexivity.
Qed.

(** X1. [ensure_transcripts_folder] in full: an existing path named
    [transcripts] (a directory or a file) is used as it is; otherwise the
    directory is made; the fallback directory is made only when that fails;
    and when both fail the exception raised is the one of the fallback.
    Files and events are never touched, and a directory is returned exactly
    when one exists or can be made. *)
Theorem ensure_transcripts_folder_result (E : Env) (w : World) :
  (exists_path w "transcripts" ->
   ensure_transcripts_folder E w =
   (with_output w (dirs w) [Text "Using existing transcripts folder: transcripts"],
    Return "transcripts"))
  /\ (~ exists_path w "transcripts" ->
      makedirs_error E "transcripts" = None ->
      ensure_transcripts_folder E w =
      (with_output w ({[ "transcripts" ]} ∪ dirs w)
         [Text "Created transcripts folder: transcripts"],
       Return "transcripts"))
  /\ (forall msg, ~ exists_path w "transcripts" ->
      makedirs_error E "transcripts" = Some msg ->
      makedirs_error E "transcripts_fallback" = None ->
      ensure_transcripts_folder E w =
      (with_output w ({[ "transcripts_fallback" ]} ∪ dirs w)
         [Text ("Error creating transcripts folder: " +:+ msg);
          Text "Created fallback folder: transcripts_fallback"],
       Return "transcripts_fallback"))
  /\ (forall msg msg', ~ exists_path w "transcripts" ->
      makedirs_error E "transcripts" = Some msg ->
      makedirs_error E "transcripts_fallback" = Some msg' ->
      ensure_transcripts_folder E w =
      (with_output w (dirs w)
         [Text ("Error creating transcripts folder: " +:+ msg);
          Text ("Critical error: Could not create any transcripts folder: " +:+ msg')],
       Raise (OtherError msg')))
  /\ ((exists dir, (ensure_transcripts_folder E w).2 = Return dir) <-> folder_ok E w).
Proof.
  destruct (ensure_transcripts_folder_cases E w) as (H1 & H2 & H3 & H4).
  split; [exact H1|]. split; [exact H2|]. split; [exact H3|]. split; [exact H4|].
  destruct (ensure_transcripts_folder_eq E w)
    as (w' & r & -> & _ & _ & _ & [[Hok (dir & -> & _)]|[Hno (e & ->)]]); cbn [snd].
  - split; [intros _; exact Hok|intros _; exists dir; reflexivity].
  - split; [intros (dir & Hd); discriminate Hd|intros Hok; contradiction].
Qed.

Lemma ensure_transcripts_folder_result_witness :
  ensure_transcripts_folder (locked_env (Some "read-only") (Some "no space")) empty_world =
  (with_output empty_world ∅
     [Text ("Error creating transcripts folder: " +:+ "read-only");
      Text ("Critical error: Could not create any transcripts folder: " +:+ "no space")],
   Raise (OtherError "no space")).
Proof.
  destruct (ensure_transcripts_folder_result
              (locked_env (Some "read-only") (Some "no space")) empty_world)
    as (_ & _ & _ & H & _).
  apply H.
  - intros [H0|[x H0]]; [apply elem_of_empty in H0; exact H0|discriminate H0].
  - reflexivity.
  - reflexivity.
Defined.

Lemma exists_path_dec w path : {exists_path w path} + {~ exists_path w path}.
Proof.
  unfold exists_path.
  destruct (decide (path ∈ dirs w)); [left; auto|].
  destruct (files w !! path) eqn:Hf; [left; eauto|].
  right. intros [H|[x H]]; [contradiction|discriminate].
Qed.

(** X2. A second look at the transcripts directory changes nothing: once
    [ensure_transcripts_folder] has returned a directory, calling it again
    in the world it left returns the same directory and makes none. *)
Theorem ensure_transcripts_folder_again (E : Env) (w w1 : World) (dir : string) :
  ensure_transcripts_folder E w = (w1, Return dir) ->
  exists out,
    ensure_transcripts_folder E w1 = (with_output w1 (dirs w1) out, Return dir).
Proof.
  intros Hrun.
  destruct (ensure_transcripts_folder_cases E w) as (H1 & H2 & H3 & H4).
  destruct (exists_path_dec w "transcripts") as [Hex|Hex].
  { rewrite (H1 Hex) in Hrun. injection Hrun as <- <-.
    destruct (ensure_transcripts_folder_cases E (with_output w (dirs w)
                [Text "Using existing transcripts folder: transcripts"])) as (H1' & _).
    eexists. apply H1'. exact Hex. }
  destruct (makedirs_error E "transcripts") as [msg|] eqn:Hmk.
  2:{ rewrite (H2 Hex eq_refl) in Hrun. injection Hrun as <- <-.
      match goal with |- context [ensure_transcripts_folder E ?w0] =>
        destruct (ensure_transcripts_folder_cases E w0) as (H1' & _) end.
      eexists. apply H1'. left. cbn [with_output dirs].
      apply elem_of_union_l, elem_of_singleton. reflexivity. }
  destruct (makedirs_error E "transcripts_fallback") as [msg'|] eqn:Hfb.
  { rewrite (H4 msg msg' Hex eq_refl eq_refl) in Hrun. discriminate. }
  rewrite (H3 msg Hex eq_refl eq_refl) in Hrun. injection Hrun as <- <-.
  match goal with |- context [ensure_transcripts_folder E ?w0] =>
    destruct (ensure_transcripts_folder_cases E w0) as (_ & _ & H3' & _) end.
  eexists. rewrite (H3' msg); [|  |exact Hmk|exact Hfb].
  - unfold with_output. cbn [files dirs stdout events].
    rewrite (assoc_L (∪)), (idemp_L (∪)). reflexivity.
  - intros [Hd|Hf]; apply Hex.
    + left. cbn [with_output dirs] in Hd.
      apply elem_of_union in Hd as [Hd|Hd]; [|exact Hd].
      apply elem_of_singleton in Hd. discriminate.
    + right. exact Hf.
Qed.

Lemma ensure_transcripts_folder_again_witness :
  exists out,
    ensure_transcripts_folder (locked_env (Some "read-only") None)
      (with_output empty_world {[ "transcripts_fallback" ]}
         [Text ("Error creating transcripts folder: " +:+ "read-only");
          Text "Created fallback folder: transcripts_fallback"])
    = (with_output
         (with_output empty_world {[ "transcripts_fallback" ]}
            [Text ("Error creating transcripts folder: " +:+ "read-only");
             Text "Created fallback folder: transcripts_fallback"])
         {[ "transcripts_fallback" ]} out,
       Return "transcripts_fallback").
Proof.
  apply (ensure_transcripts_folder_again (locked_env (Some "read-only") None) empty_world).
  vm_compute. reflexivity.
Defined.

(** X3. The API key: a variable of the environment wins over the [.env]
    file, also when it is set to the empty text; a key that is not empty is
    returned and nothing is printed; otherwise the instructions are printed
    and the process exits with status 1.  Nothing is raised. *)
Theorem load_environment_key (E : Env) (w : World) :
  (forall key, key <> "" ->
     environ_api_key E = Some key \/
     (environ_api_key E = None /\ dotenv_api_key E = Some key) ->
     load_environment E w = (w, Return key))
  /\ (environ_api_key E = Some "" \/
      (environ_api_key E = None /\
       (dotenv_api_key E = None \/ dotenv_api_key E = Some "")) ->
      load_environment E w = (with_output w (dirs w) key_instructions, SysExit 1%Z)).
Proof.
  split.
  - intros key Hne Hkey. unfold load_environment, getenv_api_key.
    destruct Hkey as [-> | [-> ->]]; (destruct key as [|c k]; [congruence|reflexivity]).
  - intros Hkey. apply no_api_key_load. intros (c & k & Hk).
    unfold getenv_api_key in Hk.
    destruct Hkey as [H|[H [H'|H']]]; rewrite H in Hk; try rewrite H' in Hk; discriminate.
Qed.

Lemma load_environment_key_witness :
  load_environment (mkEnv (Some "") (Some "secret") (fun _ => None) (fun _ => None)
                      (fun _ => ([], None)) sample_api) empty_world
  = (with_output empty_world ∅ key_instructions, SysExit 1%Z).
Proof.
  destruct (load_environment_key
              (mkEnv (Some "") (Some "secret") (fun _ => None) (fun _ => None)
                 (fun _ => ([], None)) sample_api) empty_world) as [_ H].
  apply H. left. reflexivity.
Defined.

(** ** Stripping and splitting, once more *)

Lemma lstrip_length p s : String.length (lstrip p s) <= String.length s.
Proof.
  induction s as [|c s IH]; simpl; [lia|]. destruct (p c); simpl; lia.
Qed.

Lemma rstrip_length p s : String.length (rstrip p s) <= String.length s.
Proof.
  induction s as [|c s IH]; simpl; [lia|].
  destruct (rstrip p s); [destruct (p c)|]; simpl in *; lia.
Qed.

(** What [lstrip] leaves is empty or starts with a character it keeps. *)
Lemma lstrip_head p s :
  lstrip p s = "" \/ exists c s', lstrip p s = String c s' /\ p c = false.
Proof.
  induction s as [|c s IH]; simpl; [auto|].
  destruct (p c) eqn:Hc; [exact IH|]. right. eauto.
Qed.

Lemma lstrip_fixed p c s : p c = false -> lstrip p (String c s) = String c s.
Proof. intros Hc. simpl. rewrite Hc. reflexivity. Qed.

Lemma lstrip_fixed_head p c s : lstrip p (String c s) = String c s -> p c = false.
Proof.
  simpl. destruct (p c); [|reflexivity]. intros H.
  pose proof (lstrip_length p s) as Hl. rewrite H in Hl. simpl in Hl. lia.
Qed.

(** What [rstrip] leaves of a text starts as the text does. *)
Lemma rstrip_head p c s :
  rstrip p (String c s) = "" \/ exists r, rstrip p (String c s) = String c r.
Proof.
  simpl. destruct (rstrip p s); [destruct (p c)|]; eauto.
Qed.

Lemma rstrip_keeps_head p c s :
  p c = false -> exists r, rstrip p (String c s) = String c r.
Proof.
  intros Hc. simpl. destruct (rstrip p s); [rewrite Hc|]; eauto.
Qed.

Lemma strip_fixed p u : strip p u = u -> lstrip p u = u /\ rstrip p u = u.
Proof.
  unfold strip. intros H.
  assert (Hl : lstrip p u = u).
  { destruct (lstrip_split p u) as (a & Ha & _).
    pose proof (rstrip_length p (lstrip p u)) as H1. rewrite H in H1.
    assert (Hlen : String.length a = 0).
    { apply (f_equal String.length) in Ha. rewrite str_length_app in Ha. lia. }
    destruct a; [|discriminate]. symmetry. exact Ha. }
  split; [exact Hl|]. rewrite Hl in H. exact H.
Qed.

(** Stripping twice is stripping once. *)
Lemma strip_strip p s : strip p (strip p s) = strip p s.
Proof.
  unfold strip at 1.
  assert (Hl : lstrip p (strip p s) = strip p s).
  { unfold strip. destruct (lstrip_head p s) as [->|(c & s' & -> & Hc)]; [reflexivity|].
    destruct (rstrip_keeps_head p c s' Hc) as (r & ->). apply lstrip_fixed, Hc. }
  rewrite Hl. unfold strip.
  generalize (lstrip p s). intros t.
  induction t as [|c t IH]; [reflexivity|]. simpl.
  destruct (rstrip p t) as [|d r] eqn:Hr.
  - destruct (p c) eqn:Hc; [reflexivity|]. simpl. rewrite Hc. reflexivity.
  - simpl. simpl in IH. rewrite IH. reflexivity.
Qed.

Lemma lstrip_app p u t : u <> "" -> lstrip p u = u -> lstrip p (u +:+ t) = u +:+ t.
Proof.
  destruct u as [|c u]; [congruence|]. intros _ H.
  apply lstrip_fixed_head in H. rewrite str_app_cons. apply lstrip_fixed, H.
Qed.

Lemma rstrip_app p u : forall t,
  u <> "" -> rstrip p u = u -> rstrip p (u +:+ t) = u +:+ rstrip p t.
Proof.
  induction u as [|c u IH]; [congruence|]. intros t _ H.
  rewrite !str_app_cons. simpl in H. simpl.
  destruct u as [|d u].
  - simpl in H. rewrite str_app_nil_l.
    destruct (rstrip p t); [|reflexivity].
    destruct (p c); [discriminate|reflexivity].
  - assert (Hu : rstrip p (String d u) = String d u).
    { destruct (rstrip p (String d u)) as [|e r].
      - destruct (p c); discriminate.
      - congruence. }
    rewrite (IH t); [|discriminate|exact Hu]. rewrite str_app_cons. reflexivity.
Qed.

Lemma strip_app p u t :
  u <> "" -> strip p u = u -> strip p (u +:+ t) = u +:+ rstrip p t.
Proof.
  intros Hne H. apply strip_fixed in H as [Hl Hr]. unfold strip.
  rewrite (lstrip_app p u t Hne Hl). apply rstrip_app; assumption.
Qed.

Lemma no_tab_cons c s :
  no_tab (String c s) <-> Ascii.eqb c (chr 9) = false /\ no_tab s.
Proof.
  unfold no_tab. rewrite all_chars_cons, andb_true_iff, negb_true_iff. reflexivity.
Qed.

Lemma split_no_tab u : no_tab u -> split (chr 9) u = [u].
Proof.
  induction u as [|c u IH]; [reflexivity|].
  intros [Hc Hu]%no_tab_cons. simpl. rewrite Hc, (IH Hu). reflexivity.
Qed.

Lemma split_tab u t :
  no_tab u -> split (chr 9) (u +:+ String (chr 9) t) = u :: split (chr 9) t.
Proof.
  induction u as [|c u IH]; [reflexivity|].
  intros [Hc Hu]%no_tab_cons. rewrite str_app_cons. simpl. rewrite Hc, (IH Hu).
  reflexivity.
Qed.

(** The URL the loader of the failed ledger takes from a line that starts
    with a plain URL and a tab. *)
Lemma failed_url_line url rest :
  url <> "" -> strip is_space url = url -> no_tab url ->
  failed_url (url +:+ String (chr 9) rest) = url.
Proof.
  intros Hne Hs Ht. unfold failed_url. rewrite (strip_app _ _ _ Hne Hs).
  destruct (rstrip_head is_space (chr 9) rest) as [->|(r & ->)].
  - rewrite str_app_nil_r, (split_no_tab url Ht). reflexivity.
  - rewrite (split_tab url r Ht). reflexivity.
Qed.

Lemma completed_url_line url :
  url <> "" -> strip is_space url = url -> completed_url (url +:+ LF) = url.
Proof.
  intros Hne Hs. unfold completed_url. rewrite (strip_app _ _ _ Hne Hs).
  apply str_app_nil_r.
Qed.

(** ** Saving and loading again *)

Lemma ledger_lines_ledger E w path :
  open_error E path = None -> ledger_lines E w path = file_lines (ledger w path).
Proof.
  intros Ho. unfold ledger_lines, ledger. rewrite Ho.
  destruct (files w !! path); reflexivity.
Qed.

Lemma url_set_app f l1 l2 : url_set f (l1 ++ l2) = url_set f l1 ∪ url_set f l2.
Proof.
  unfold url_set. rewrite fmap_app, filter_app. apply list_to_set_app_L.
Qed.

Lemma url_set_single f line : f line <> "" -> url_set f [line] = {[ f line ]}.
Proof.
  intros Hne. unfold url_set. simpl. rewrite filter_cons_True by exact Hne.
  rewrite filter_nil. simpl. apply (right_id_L ∅ (∪)).
Qed.

(** Text appended to a terminated text starts on a line of its own. *)
Lemma lines_app_terminated old text :
  terminated old -> file_lines (old +:+ text) = file_lines old ++ file_lines text.
Proof.
  intros [->|(s0 & ->)]; [reflexivity|].
  unfold file_lines, universal_newlines. rewrite str_app_assoc.
  apply lines_split.
Qed.

Lemma terminated_app old text : terminated (old +:+ text +:+ LF).
Proof. right. exists (old +:+ text). rewrite str_app_assoc. reflexivity. Qed.

Lemma translate_no_break u : forall t,
  no_break u -> translate_newlines false (u +:+ t) = u +:+ translate_newlines false t.
Proof.
  induction u as [|c u IH]; intros t Hu; [reflexivity|].
  apply no_break_cons in Hu as (Hlf & Hcr & Hu).
  rewrite !str_app_cons. simpl. rewrite Hcr, Hlf, (IH t Hu). reflexivity.
Qed.

(** The first line of a text that starts with a one-line text and a tab. *)
Lemma first_line_tab u rest :
  no_break u ->
  exists l ls, file_lines (u +:+ String (chr 9) rest) = (u +:+ String (chr 9) l) :: ls.
Proof.
  intros Hu. unfold file_lines, universal_newlines.
  rewrite (translate_no_break u _ Hu).
  change (translate_newlines false (String (chr 9) rest))
    with (String (chr 9) (translate_newlines false rest)).
  generalize (translate_newlines false rest). intros y.
  induction u as [|c u IH].
  - rewrite str_app_nil_l. simpl.
    change (is_lf (chr 9)) with false. cbn iota.
    destruct (keepends y) as [|l ls]; eauto.
  - apply no_break_cons in Hu as (Hlf & Hcr & Hu).
    destruct (IH Hu) as (l & ls & Hk).
    rewrite !str_app_cons. simpl. rewrite Hlf, Hk. eauto.
Qed.

(** X4. Saving and loading a completed URL: after [save_completed_url] has
    written a plain URL to a ledger that can be opened and ends with a
    newline (or is empty), [load_completed_urls] returns the set it returned
    before with that URL added, and the ledger still ends with a newline. *)
Theorem save_completed_url_round_trip (E : Env) (url : string) (w : World) :
  open_error E completed_file = None ->
  plain_url url ->
  terminated (ledger w completed_file) ->
  exists w',
    save_completed_url E url w = (w', Return tt) /\
    loaded_set (load_completed_urls E w')
    = {[ url ]} ∪ loaded_set (load_completed_urls E w) /\
    terminated (ledger w' completed_file).
Proof.
  intros Ho (Hne & Hs & Hnb) Ht.
  destruct (save_completed_url_eq E url w) as (w' & Hrun & Hf & _ & _).
  exists w'. split; [exact Hrun|].
  assert (Hl : ledger w' completed_file = ledger w completed_file +:+ url +:+ LF).
  { unfold ledger. rewrite Hf. apply (ledger_append E _ _ _ Ho). }
  split.
  - rewrite !loaded_set_completed, !(ledger_lines_ledger E _ _ Ho), Hl.
    rewrite (lines_append _ _ Ht Hnb), url_set_app.
    rewrite url_set_single; rewrite (completed_url_line url Hne Hs); [|exact Hne].
    apply (comm_L (∪)).
  - rewrite Hl. apply terminated_app.
Qed.

Lemma save_completed_url_round_trip_witness :
  exists w',
    save_completed_url (sample_env None []) "https://youtu.be/xyz" empty_world
    = (w', Return tt) /\
    loaded_set (load_completed_urls (sample_env None []) w')
    = {[ "https://youtu.be/xyz" ]}
      ∪ loaded_set (load_completed_urls (sample_env None []) empty_world) /\
    terminated (ledger w' completed_file).
Proof.
  apply (save_completed_url_round_trip (sample_env None []) "https://youtu.be/xyz"
           empty_world).
  - reflexivity.
  - split; [discriminate|]. split; vm_compute; reflexivity.
  - left. reflexivity.
Defined.

(** X5. Saving and loading a failed URL: after [save_failed_url] has written
    a plain URL without a tab, with any reason, to a ledger that can be
    opened and ends with a newline (or is empty), [load_failed_urls] returns
    a set that holds the URL and all it held before; when the reason is on
    one line the set has gained nothing but the URL. *)
Theorem save_failed_url_round_trip (E : Env) (url reason : string) (w : World) :
  open_error E failed_file = None ->
  plain_url url -> no_tab url ->
  terminated (ledger w failed_file) ->
  exists w',
    save_failed_url E url reason w = (w', Return tt) /\
    url ∈ loaded_set (load_failed_urls E w') /\
    loaded_set (load_failed_urls E w) ⊆ loaded_set (load_failed_urls E w') /\
    (no_break reason ->
     loaded_set (load_failed_urls E w')
     = {[ url ]} ∪ loaded_set (load_failed_urls E w)) /\
    terminated (ledger w' failed_file).
Proof.
  intros Ho (Hne & Hs & Hnb) Htab Ht.
  destruct (save_failed_url_eq E url reason w) as (w' & Hrun & Hf & _ & _).
  exists w'. split; [exact Hrun|].
  assert (Hl : ledger w' failed_file = ledger w failed_file +:+ failed_entry url reason).
  { unfold ledger. rewrite Hf. apply (ledger_append E _ _ _ Ho). }
  assert (Hentry : failed_entry url reason = url +:+ String (chr 9) (reason +:+ LF))
    by reflexivity.
  rewrite !loaded_set_failed, !(ledger_lines_ledger E _ _ Ho), Hl.
  rewrite (lines_app_terminated _ _ Ht), url_set_app.
  destruct (first_line_tab url (reason +:+ LF) Hnb) as (l & ls & Hlines).
  split; [|split; [|split]].
  - apply elem_of_union_r. rewrite Hentry, Hlines.
    apply url_set_elem. split; [exact Hne|].
    exists (url +:+ String (chr 9) l). split; [apply list_elem_of_here|].
    symmetry. apply failed_url_line; assumption.
  - apply union_subseteq_l.
  - intros Hr.
    assert (Hone : file_lines (failed_entry url reason) = [failed_entry url reason]).
    { destruct (failed_entry_line url reason Hnb Hr) as (body & -> & Hb).
      apply lines_single, Hb. }
    rewrite Hone, url_set_single; rewrite Hentry, (failed_url_line url _ Hne Hs Htab);
      [|exact Hne].
    apply (comm_L (∪)).
  - rewrite Hentry. right. exists (ledger w failed_file +:+ url +:+ String (chr 9) reason).
    rewrite !str_app_assoc. reflexivity.
Qed.

Lemma save_failed_url_round_trip_witness :
  exists w',
    save_failed_url (sample_env None []) "https://youtu.be/xyz" "no captions" empty_world
    = (w', Return tt) /\
    "https://youtu.be/xyz" ∈ loaded_set (load_failed_urls (sample_env None []) w') /\
    loaded_set (load_failed_urls (sample_env None []) empty_world)
    ⊆ loaded_set (load_failed_urls (sample_env None []) w') /\
    (no_break "no captions" ->
     loaded_set (load_failed_urls (sample_env None []) w')
     = {[ "https://youtu.be/xyz" ]}
       ∪ loaded_set (load_failed_urls (sample_env None []) empty_world)) /\
    terminated (ledger w' failed_file).
Proof.
  apply (save_failed_url_round_trip (sample_env None []) "https://youtu.be/xyz"
           "no captions" empty_world).
  - reflexivity.
  - split; [discriminate|]. split; vm_compute; reflexivity.
  - vm_compute. reflexivity.
  - left. reflexivity.
Defined.

(** ** URLs the ledgers cannot hold *)

Lemma first_part_split_head c s :
  Ascii.eqb c (chr 9) = false ->
  exists r, first_part (split (chr 9) (String c s)) = String c r.
Proof.
  intros Hc. simpl. rewrite Hc. destruct (split (chr 9) s); simpl; eauto.
Qed.

Lemma first_part_no_tab s : no_tab (first_part (split (chr 9) s)).
Proof.
  induction s as [|c s IH]; [reflexivity|]. simpl.
  destruct (Ascii.eqb c (chr 9)) eqn:Hc; [reflexivity|].
  destruct (split (chr 9) s) as [|l ls]; simpl in *.
  - apply no_tab_cons. split; [exact Hc|reflexivity].
  - apply no_tab_cons. split; [exact Hc|exact IH].
Qed.

Lemma is_space_not_tab c : is_space c = false -> Ascii.eqb c (chr 9) = false.
Proof.
  intros Hs. destruct (Ascii.eqb c (chr 9)) eqn:Hc; [|reflexivity].
  apply Ascii.eqb_eq in Hc. subst c. discriminate Hs.
Qed.

(** What the loaders return: texts that are not empty and do not start with
    white space; a completed URL does not end with it either, a failed URL
    holds no tab. *)
Lemma loaded_urls_shape E w u :
  (u ∈ loaded_set (load_completed_urls E w) -> u <> "" /\ strip is_space u = u)
  /\ (u ∈ loaded_set (load_failed_urls E w) ->
      u <> "" /\ lstrip is_space u = u /\ no_tab u).
Proof.
  rewrite loaded_set_completed, loaded_set_failed. split.
  - intros (Hne & line & _ & ->)%url_set_elem. split; [exact Hne|].
    apply strip_strip.
  - intros (Hne & line & _ & Hu)%url_set_elem. split; [exact Hne|].
    subst u. unfold failed_url in *. split; [|apply first_part_no_tab].
    unfold strip in *.
    destruct (lstrip_head is_space line) as [Hl|(c & s' & Hl & Hc)]; rewrite Hl in *.
    + exfalso. apply Hne. reflexivity.
    + destruct (rstrip_keeps_head is_space c s' Hc) as (r & Hr). rewrite Hr in *.
      destruct (first_part_split_head c r (is_space_not_tab c Hc)) as (r' & Hp).
      rewrite Hp. apply lstrip_fixed, Hc.
Qed.

(** X6. URLs that are never taken for processed: a record of the CSV file
    whose URL is empty or starts with white space (the column after a comma
    followed by a blank, for one) is pending in every run, whatever the two
    ledgers hold, since the loaders only return texts that are not empty and
    do not start with white space. *)
Theorem padded_url_always_pending (E : Env) (csv_file : string) (w : World) (r : record) :
  r ∈ loaded_records E csv_file w ->
  record_url r = "" \/ lstrip is_space (record_url r) <> record_url r ->
  r ∈ planned E csv_file w.
Proof.
  intros Hr Hbad. apply planned_elem. split; [exact Hr|].
  destruct (loaded_urls_shape E w (record_url r)) as [Hc Hf].
  split; intros Hin.
  - destruct (Hc Hin) as (Hne & Hs). apply strip_fixed in Hs as [Hl _].
    destruct Hbad; contradiction.
  - destruct (Hf Hin) as (Hne & Hl & _). destruct Hbad; contradiction.
Qed.

Lemma padded_url_always_pending_witness :
  ("id", " https://youtu.be/xyz", "")
  ∈ planned (sample_env None [["id"; " https://youtu.be/xyz"]]) "youtube_url.csv"
      (mkWorld {[ "youtube_url.csv" := "rows";
                  completed_file := " https://youtu.be/xyz" +:+ LF ]} ∅ [] []).
Proof.
  apply padded_url_always_pending.
  - vm_compute. apply list_elem_of_here.
  - right. vm_compute. discriminate.
Defined.

(** ** The files of a run *)

Lemma transcript_path_not_csv dir video_id :
  dir = "transcripts" \/ dir = "transcripts_fallback" ->
  path_join dir (video_id +:+ ".txt") <> "youtube_url.csv".
Proof.
  intros Hdir. destruct video_id as [|c v].
  - destruct Hdir as [-> | ->]; vm_compute; discriminate.
  - rewrite str_app_cons. unfold path_join.
    destruct (Ascii.eqb c (chr 47)) eqn:Hc.
    + apply Ascii.eqb_eq in Hc. subst c. discriminate.
    + destruct Hdir as [-> | ->].
      * change (String.rev "transcripts") with "stpircsnart". simpl. discriminate.
      * change (String.rev "transcripts_fallback") with "kcabllaf_stpircsnart". simpl.
        discriminate.
Qed.

Lemma append_entry_content E path entry fs :
  file_text (append_entry E path entry fs) path =
  file_text fs path +:+ match open_error E path with None => entry | Some _ => "" end.
Proof.
  unfold file_text, append_entry. destruct (open_error E path).
  - rewrite str_app_nil_r. reflexivity.
  - rewrite lookup_insert_eq. reflexivity.
Qed.

(** The files after one invocation, the API key being there: no file is
    gone, the CSV file is as it was, and one ledger has gained the entry of
    the URL, if it could be opened, while the other is as it was. *)
Lemma files_after_step E w url video_id description language :
  let v := verdict_of E w url video_id description language in
  let fs' := files_after E url v (files w) in
  (forall p, is_Some (files w !! p) -> is_Some (fs' !! p)) /\
  fs' !! "youtube_url.csv" = files w !! "youtube_url.csv" /\
  ((saved v = true /\
    fs' !! failed_file = files w !! failed_file /\
    file_text fs' completed_file =
    file_text (files w) completed_file +:+
    match open_error E completed_file with None => completed_entry url | Some _ => "" end)
   \/
   (exists reason, v = Failed reason /\
      fs' !! completed_file = files w !! completed_file /\
      file_text fs' failed_file =
      file_text (files w) failed_file +:+
      match open_error E failed_file with
      | None => failed_entry url reason
      | Some _ => ""
      end)).
Proof.
  intros v fs'. split; [intros p; apply files_after_is_Some|].
  subst fs'. destruct v as [filename text|reason] eqn:Hv; subst v.
  - destruct (verdict_of_Saved E w _ _ _ _ _ _ Hv)
      as (dir & body & Hdir & _ & -> & _ & _ & _).
    destruct (transcript_path_not_ledger dir video_id Hdir) as [Hnc Hnf].
    pose proof (transcript_path_not_csv dir video_id Hdir) as Hncsv.
    cbn [files_after]. split.
    + rewrite ledger_other by discriminate. apply lookup_insert_ne. exact Hncsv.
    + left. split; [reflexivity|]. split.
      * rewrite ledger_other by (intros H; apply completed_not_failed; auto).
        apply lookup_insert_ne. exact Hnf.
      * rewrite append_entry_content. f_equal.
        unfold file_text. rewrite lookup_insert_ne by exact Hnc. reflexivity.
  - cbn [files_after]. split.
    + apply ledger_other. discriminate.
    + right. exists reason. split; [reflexivity|]. split.
      * apply ledger_other. apply completed_not_failed.
      * apply append_entry_content.
Qed.

(** The loop, the API key being there, keeps whatever one invocation keeps:
    [P] speaks of the URLs worked off so far and the files. *)
Lemma process_loop_files E language (Hkey : has_api_key E)
    (good : string -> Prop) (P : list string -> gmap string string -> Prop) :
  (forall done w url video_id description,
      good url -> P done (files w) ->
      P (done ++ [url])
        (files_after E url (verdict_of E w url video_id description language) (files w))) ->
  forall todo total i successful failed done w,
    (forall r, r ∈ todo -> good (record_url r)) ->
    P done (files w) ->
    exists w' counts,
      process_loop E language total i todo successful failed w = (w', Return counts) /\
      P (done ++ (record_url <$> todo)) (files w').
Proof.
  intros Hstep.
  induction todo as [|[[video_id url] description] rest IH];
    intros total i successful failed done w Hgood HP.
  - exists w, (successful, failed). simpl. rewrite app_nil_r. auto.
  - simpl. unfold bind at 1. unfold print at 1. unfold bind at 1.
    match goal with |- context [get_youtube_transcript E url video_id description language ?w0] =>
      destruct (get_youtube_transcript_eq E url video_id description language w0 Hkey)
        as (w1 & -> & Hf1 & _ & _);
      pose proof (Hstep done w0 url video_id description
                    (Hgood _ (list_elem_of_here _ _)) HP) as HP1 end.
    rewrite <- Hf1 in HP1.
    assert (Hgood' : forall r, r ∈ rest -> good (record_url r))
      by (intros r Hr; apply Hgood, list_elem_of_further, Hr).
    rewrite (cons_middle url), (assoc_L (++)).
    destruct (i <? total)%nat.
    + unfold bind at 1. unfold bind at 1. unfold print at 1. unfold sleep, emit.
      match goal with |- context [process_loop E language total (S i) rest ?s ?f ?w0] =>
        destruct (IH total (S i) s f (done ++ [url]) w0 Hgood' HP1)
          as (w' & counts & -> & HP') end.
      exists w', counts. auto.
    + unfold bind at 1. unfold ret at 1.
      match goal with |- context [process_loop E language total (S i) rest ?s ?f ?w0] =>
        destruct (IH total (S i) s f (done ++ [url]) w0 Hgood' HP1)
          as (w' & counts & -> & HP') end.
      exists w', counts. auto.
Qed.

(** The same for a run with the API key and a transcripts directory. *)
Lemma process_csv_urls_files E csv_file language w (Hkey : has_api_key E)
    (good : string -> Prop) (P : list string -> gmap string string -> Prop) :
  (forall done w url video_id description,
      good url -> P done (files w) ->
      P (done ++ [url])
        (files_after E url (verdict_of E w url video_id description language) (files w))) ->
  folder_ok E w ->
  (forall r, r ∈ planned E csv_file w -> good (record_url r)) ->
  P [] (files w) ->
  exists w',
    process_csv_urls E csv_file language w = (w', Return tt) /\
    P (record_url <$> planned E csv_file w) (files w').
Proof.
  intros Hstep Hok Hgood HP.
  destruct (process_csv_urls_plan E csv_file language w Hok)
    as (w1 & k & Hf1 & Hev1 & Hok1 & Hk & [[Hnil (w' & Hrun & Hf & _)]|[Hne Hrun]]).
  - exists w'. rewrite Hnil, Hf. auto.
  - rewrite <- Hf1 in HP.
    destruct (process_loop_files E language Hkey good P Hstep (planned E csv_file w)
                (length (planned E csv_file w)) 1 0 0 [] w1 Hgood HP)
      as (w2 & counts & Hloop & HP2).
    unfold bind in Hrun. rewrite Hloop in Hrun.
    destruct (Hk counts w2) as (w' & Hkw & Hf' & _).
    exists w'. rewrite Hrun, Hkw, Hf'. auto.
Qed.

Lemma kept_refl fs : kept fs fs.
Proof.
  repeat split; auto; exists ""; rewrite str_app_nil_r; reflexivity.
Qed.

Lemma kept_trans fs1 fs2 fs3 : kept fs1 fs2 -> kept fs2 fs3 -> kept fs1 fs3.
Proof.
  intros (H1 & Hc1 & (a1 & Ha1) & (b1 & Hb1)) (H2 & Hc2 & (a2 & Ha2) & (b2 & Hb2)).
  repeat split.
  - auto.
  - congruence.
  - exists (a1 +:+ a2). rewrite Ha2, Ha1. apply str_app_assoc.
  - exists (b1 +:+ b2). rewrite Hb2, Hb1. apply str_app_assoc.
Qed.

Lemma kept_step E w url video_id description language :
  kept (files w)
    (files_after E url (verdict_of E w url video_id description language) (files w)).
Proof.
  destruct (files_after_step E w url video_id description language)
    as (Hsome & Hcsv & [(_ & Hf & Hc)|(reason & _ & Hc & Hf)]).
  - repeat split; [exact Hsome|exact Hcsv|eexists; exact Hc|].
    exists "". unfold file_text. rewrite Hf. symmetry. apply str_app_nil_r.
  - repeat split; [exact Hsome|exact Hcsv| |eexists; exact Hf].
    exists "". unfold file_text. rewrite Hc. symmetry. apply str_app_nil_r.
Qed.

Lemma process_csv_urls_kept E csv_file language w :
  kept (files w) (files (process_csv_urls E csv_file language w).1).
Proof.
  destruct (folder_ok_dec E w) as [Hok|Hno].
  2:{ destruct (process_csv_urls_no_folder E csv_file language w Hno) as (w' & -> & Hf & _).
      cbn [fst]. rewrite Hf. apply kept_refl. }
  destruct (has_api_key_dec E) as [Hkey|Hnokey].
  2:{ destruct (process_csv_urls_no_key E csv_file language w Hnokey Hok)
        as (w' & Hf & _ & [[_ ->]|[_ [-> _]]]); cbn [fst]; rewrite Hf; apply kept_refl. }
  destruct (process_csv_urls_files E csv_file language w Hkey (fun _ => True)
              (fun _ fs => kept (files w) fs)) as (w' & -> & Hkept).
  - intros done w0 url video_id description _ H0.
    apply (kept_trans _ _ _ H0), kept_step.
  - exact Hok.
  - auto.
  - apply kept_refl.
  - exact Hkept.
Qed.

(** X7. What a run never does to the files it finds: whatever the
    arguments, the key and the answers of the API, [main] removes no file and
    leaves the CSV file as it is; and when no video id of the CSV file holds
    a [/], so that every transcript is written inside the transcripts
    directory, all it does to the two ledgers is to append to them. *)
Theorem main_keeps_files (E : Env) (argv : list string) (w : World) :
  (forall p, is_Some (files w !! p) -> is_Some (files (main E argv w).1 !! p))
  /\ files (main E argv w).1 !! "youtube_url.csv" = files w !! "youtube_url.csv"
  /\ ((forall r, r ∈ loaded_records E "youtube_url.csv" w -> no_slash r.1.1) ->
      (exists added,
          ledger (main E argv w).1 completed_file = ledger w completed_file +:+ added)
      /\ (exists added,
          ledger (main E argv w).1 failed_file = ledger w failed_file +:+ added)).
Proof.
  assert (H : kept (files w) (files (main E argv w).1)).
  { destruct (main_eq E argv w)
      as [(w' & -> & Hf & _)|[(w' & -> & Hf & _)|(w1 & language & -> & Hf & _)]].
    - cbn [fst]. rewrite Hf. apply kept_refl.
    - cbn [fst]. rewrite Hf. apply kept_refl.
    - rewrite <- Hf. apply process_csv_urls_kept. }
  destruct H as (H1 & H2 & H3 & H4). auto.
Qed.

Lemma main_keeps_files_witness :
  (exists added,
      ledger (main (sample_env (Some "key") sample_rows) ["prog"] (sample_world "")).1
        completed_file
      = ledger (sample_world "") completed_file +:+ added)
  /\ (exists added,
      ledger (main (sample_env (Some "key") sample_rows) ["prog"] (sample_world "")).1
        failed_file
      = ledger (sample_world "") failed_file +:+ added).
Proof.
  destruct (main_keeps_files (sample_env (Some "key") sample_rows) ["prog"]
              (sample_world "")) as (_ & _ & H).
  apply H. intros r Hr.
  assert (Hl : loaded_records (sample_env (Some "key") sample_rows) "youtube_url.csv"
                 (sample_world "")
               = [ ("abc123DEFgh", "https://youtu.be/abc123DEFgh", "Intro video");
                   ("xyz", "https://youtu.be/xyz", "");
                   ("abc123DEFgh", "https://youtu.be/abc123DEFgh", "Intro again") ])
    by (vm_compute; reflexivity).
  rewrite Hl in Hr.
  repeat (apply elem_of_cons in Hr as [->|Hr]; [vm_compute; reflexivity|]).
  apply elem_of_nil in Hr. contradiction.
Defined.

(** ** A second run *)

Lemma completed_lines_gain old url :
  terminated old -> plain_url url ->
  url_set completed_url (file_lines (old +:+ completed_entry url))
  = {[ url ]} ∪ url_set completed_url (file_lines old).
Proof.
  intros Ht (Hne & Hs & Hnb). unfold completed_entry.
  rewrite (lines_append _ _ Ht Hnb), url_set_app.
  rewrite url_set_single; rewrite (completed_url_line url Hne Hs); [|exact Hne].
  apply (comm_L (∪)).
Qed.

Lemma failed_lines_gain old url reason :
  terminated old -> plain_url url -> no_tab url ->
  url ∈ url_set failed_url (file_lines (old +:+ failed_entry url reason)) /\
  url_set failed_url (file_lines old)
  ⊆ url_set failed_url (file_lines (old +:+ failed_entry url reason)).
Proof.
  intros Ht (Hne & Hs & Hnb) Htab.
  rewrite (lines_app_terminated _ _ Ht), url_set_app.
  change (failed_entry url reason) with (url +:+ String (chr 9) (reason +:+ LF)).
  destruct (first_line_tab url (reason +:+ LF) Hnb) as (l & ls & ->).
  split; [|apply union_subseteq_l].
  apply elem_of_union_r, url_set_elem. split; [exact Hne|].
  exists (url +:+ String (chr 9) l). split; [apply list_elem_of_here|].
  symmetry. apply failed_url_line; assumption.
Qed.

Lemma terminated_entry old text : terminated (old +:+ text +:+ LF).
Proof. apply terminated_app. Qed.

Lemma failed_entry_terminated old url reason :
  terminated (old +:+ failed_entry url reason).
Proof.
  right. exists (old +:+ url +:+ TAB +:+ reason). unfold failed_entry.
  rewrite !str_app_assoc. reflexivity.
Qed.

(** The ledgers after one invocation for a plain URL, when both can be
    opened and end with a newline: they still do, they stand for the URLs
    they stood for, and for the URL of the invocation. *)
Lemma recorded_step E w url video_id description language :
  open_error E completed_file = None -> open_error E failed_file = None ->
  plain_url url -> no_tab url ->
  terminated (file_text (files w) completed_file) ->
  terminated (file_text (files w) failed_file) ->
  let fs' := files_after E url (verdict_of E w url video_id description language)
               (files w) in
  terminated (file_text fs' completed_file) /\
  terminated (file_text fs' failed_file) /\
  recorded (files w) ⊆ recorded fs' /\
  url ∈ recorded fs'.
Proof.
  intros Hoc Hof Hurl Htab Htc Htf fs'.
  destruct (files_after_step E w url video_id description language)
    as (_ & _ & [(_ & Hf & Hc)|(reason & _ & Hc & Hf)]); fold fs' in Hf, Hc.
  - rewrite Hoc in Hc.
    assert (Hf' : file_text fs' failed_file = file_text (files w) failed_file)
      by (unfold file_text; rewrite Hf; reflexivity).
    unfold recorded. rewrite Hf', Hc, (completed_lines_gain _ _ Htc Hurl).
    split; [apply terminated_entry|]. split; [exact Htf|].
    split; [|apply elem_of_union_l, elem_of_union_l, elem_of_singleton; reflexivity].
    intros u [Hu|Hu]%elem_of_union.
    + apply elem_of_union_l, elem_of_union_r, Hu.
    + apply elem_of_union_r, Hu.
  - rewrite Hof in Hf.
    assert (Hc' : file_text fs' completed_file = file_text (files w) completed_file)
      by (unfold file_text; rewrite Hc; reflexivity).
    destruct (failed_lines_gain (file_text (files w) failed_file) url reason Htf Hurl Htab)
      as (Hin & Hsub).
    unfold recorded. rewrite Hc', Hf.
    split; [exact Htc|]. split; [apply failed_entry_terminated|].
    split; [|apply elem_of_union_r, Hin].
    intros u [Hu|Hu]%elem_of_union.
    + apply elem_of_union_l, Hu.
    + apply elem_of_union_r, Hsub, Hu.
Qed.

Lemma pending_nil urls (completed failed : gset string) :
  (forall r, r ∈ urls -> record_url r ∈ completed \/ record_url r ∈ failed) ->
  pending urls completed failed = [].
Proof.
  intros H. unfold pending.
  induction urls as [|r urls IH]; [reflexivity|].
  rewrite filter_cons_False.
  - apply IH. intros r' Hr'. apply H, list_elem_of_further, Hr'.
  - intros [Hc Hf]. destruct (H r (list_elem_of_here _ _)); contradiction.
Qed.

Lemma planned_recorded E csv_file w :
  open_error E completed_file = None -> open_error E failed_file = None ->
  planned E csv_file w =
  pending (csv_records (csv_rows_read E w csv_file))
    (url_set completed_url (file_lines (file_text (files w) completed_file)))
    (url_set failed_url (file_lines (file_text (files w) failed_file))).
Proof.
  intros Hoc Hof. rewrite planned_eq, !ledger_lines_ledger by assumption. reflexivity.
Qed.

Lemma csv_rows_read_lookup E w1 w csv_file :
  files w1 !! csv_file = files w !! csv_file ->
  csv_rows_read E w1 csv_file = csv_rows_read E w csv_file.
Proof. intros H. unfold csv_rows_read. rewrite H. reflexivity. Qed.

(** A run that changes neither files nor events. *)
Lemma process_csv_urls_idle E csv_file language w :
  planned E csv_file w = [] ->
  exists w',
    process_csv_urls E csv_file language w = (w', Return tt) /\
    files w' = files w /\ events w' = events w.
Proof.
  intros Hnil. destruct (folder_ok_dec E w) as [Hok|Hno].
  - destruct (process_csv_urls_plan E csv_file language w Hok)
      as (_ & _ & _ & _ & _ & _ & [[_ H]|[Hne _]]); [exact H|contradiction].
  - apply process_csv_urls_no_folder, Hno.
Qed.

(** X8. Running again: after a run with the API key and a transcripts
    directory, both ledgers being files that can be opened and that end with
    a newline (or do not exist yet), and the records to work off having
    plain URLs without a tab and video ids without a slash, every record of
    the CSV file is in a ledger: nothing is pending, and a second run, in
    any language, calls nothing and changes no file. *)
Theorem second_run_has_nothing_pending (E : Env) (language : string) (w : World) :
  has_api_key E -> folder_ok E w ->
  open_error E completed_file = None -> open_error E failed_file = None ->
  terminated (ledger w completed_file) -> terminated (ledger w failed_file) ->
  (forall r, r ∈ planned E "youtube_url.csv" w ->
     plain_url (record_url r) /\ no_tab (record_url r) /\ no_slash r.1.1) ->
  exists w',
    process_csv_urls E "youtube_url.csv" language w = (w', Return tt) /\
    planned E "youtube_url.csv" w' = [] /\
    forall language',
    exists w'',
      process_csv_urls E "youtube_url.csv" language' w' = (w'', Return tt) /\
      files w'' = files w' /\ events w'' = events w'.
Proof.
  intros Hkey Hok Hoc Hof Htc Htf Hgood.
  destruct (process_csv_urls_files E "youtube_url.csv" language w Hkey
              (fun url => plain_url url /\ no_tab url)
              (fun done fs =>
                 terminated (file_text fs completed_file) /\
                 terminated (file_text fs failed_file) /\
                 fs !! "youtube_url.csv" = files w !! "youtube_url.csv" /\
                 recorded (files w) ⊆ recorded fs /\
                 (forall u, u ∈ done -> u ∈ recorded fs)))
    as (w' & Hrun & _ & _ & Hcsv & Hsub & Hdone).
  - intros done w0 url video_id description [Hurl Htab] (H1 & H2 & H3 & H4 & H5).
    destruct (recorded_step E w0 url video_id description language Hoc Hof Hurl Htab H1 H2)
      as (H1' & H2' & H4' & H5').
    destruct (files_after_step E w0 url video_id description language) as (_ & H3' & _).
    split; [exact H1'|]. split; [exact H2'|]. split; [congruence|].
    split; [intros u Hu; apply H4', H4, Hu|].
    intros u [Hu|Hu]%elem_of_app.
    + apply H4', H5, Hu.
    + apply list_elem_of_singleton in Hu. subst u. exact H5'.
  - exact Hok.
  - intros r Hr. destruct (Hgood r Hr) as (H1 & H2 & _). auto.
  - split; [exact Htc|]. split; [exact Htf|]. split; [reflexivity|].
    split; [reflexivity|]. intros u Hu. apply elem_of_nil in Hu. contradiction.
  - exists w'. split; [exact Hrun|].
    assert (Hnil : planned E "youtube_url.csv" w' = []).
    { rewrite (planned_recorded E _ w' Hoc Hof).
      rewrite (csv_rows_read_lookup E w' w _ Hcsv).
      apply pending_nil. intros r Hr.
      assert (Hrec : record_url r ∈ recorded (files w')).
      { destruct (decide (r ∈ planned E "youtube_url.csv" w)) as [Hp|Hp].
        - apply Hdone, list_elem_of_fmap. exists r. auto.
        - apply Hsub. rewrite (planned_recorded E _ w Hoc Hof) in Hp.
          unfold pending in Hp. rewrite list_elem_of_filter in Hp.
          unfold recorded.
          destruct (decide (record_url r ∈ url_set completed_url
                              (file_lines (file_text (files w) completed_file))))
            as [Hc|Hc]; [apply elem_of_union_l, Hc|].
          destruct (decide (record_url r ∈ url_set failed_url
                              (file_lines (file_text (files w) failed_file))))
            as [Hf|Hf]; [apply elem_of_union_r, Hf|].
          exfalso. apply Hp. auto. }
      apply elem_of_union in Hrec. exact Hrec. }
    split; [exact Hnil|].
    intros language'. apply process_csv_urls_idle, Hnil.
Qed.

Lemma second_run_has_nothing_pending_witness :
  exists w',
    process_csv_urls (sample_env (Some "key") sample_rows) "youtube_url.csv" "en"
      (sample_world "") = (w', Return tt) /\
    planned (sample_env (Some "key") sample_rows) "youtube_url.csv" w' = [] /\
    forall language',
    exists w'',
      process_csv_urls (sample_env (Some "key") sample_rows) "youtube_url.csv" language' w'
      = (w'', Return tt) /\
      files w'' = files w' /\ events w'' = events w'.
Proof.
  apply (second_run_has_nothing_pending (sample_env (Some "key") sample_rows) "en"
           (sample_world "")).
  - apply sample_has_api_key.
  - apply sample_folder_ok.
  - reflexivity.
  - reflexivity.
  - left. reflexivity.
  - left. reflexivity.
  - intros r Hr.
    assert (Hl : planned (sample_env (Some "key") sample_rows) "youtube_url.csv"
                   (sample_world "")
                 = [ ("abc123DEFgh", "https://youtu.be/abc123DEFgh", "Intro video");
                     ("xyz", "https://youtu.be/xyz", "");
                     ("abc123DEFgh", "https://youtu.be/abc123DEFgh", "Intro again") ])
      by (vm_compute; reflexivity).
    rewrite Hl in Hr.
    repeat (apply elem_of_cons in Hr as [->|Hr];
            [split; [split; [discriminate|split; vm_compute; reflexivity]
                    |split; vm_compute; reflexivity]|]).
    apply elem_of_nil in Hr. contradiction.
Defined.

(** ** The command line *)

Lemma parse_args_help args : forall language w,
  "--help" ∈ args \/ "-h" ∈ args ->
  exists out,
    parse_args args language w = (with_output w (dirs w) out, SysExit 0%Z).
Proof.
  induction args as [|arg rest IH]; intros language w Hhelp.
  - destruct Hhelp as [H|H]; apply elem_of_nil in H; contradiction.
  - assert (Hexit : exists out,
               (print_usage >> sys_exit 0%Z) w
               = (with_output w (dirs w) out, @SysExit string 0%Z)).
    { destruct (print_usage_eq w) as (out & Hout). exists out.
      rewrite (bind_Return _ _ _ _ _ Hout). reflexivity. }
    assert (Hcases : (String.eqb arg "--language" = false /\
                      (String.eqb arg "--help" || String.eqb arg "-h") = true)
                     \/ ("--help" ∈ rest \/ "-h" ∈ rest)).
    { destruct Hhelp as [H|H]; apply elem_of_cons in H as [H|H];
        [left; subst arg; split; reflexivity|right; auto
        |left; subst arg; split; reflexivity|right; auto]. }
    simpl. destruct rest as [|next rest'].
    + destruct Hcases as [[-> ->]|[H|H]]; [exact Hexit| |];
        apply elem_of_nil in H; contradiction.
    + destruct (String.eqb arg "--language") eqn:Hl.
      * apply IH. destruct Hcases as [[? _]|H]; [discriminate|exact H].
      * destruct (String.eqb arg "--help" || String.eqb arg "-h") eqn:Hh;
          [exact Hexit|].
        apply IH. destruct Hcases as [[_ ?]|H]; [discriminate|exact H].
Qed.

Lemma default_last_cons {A} (l : list A) : forall d x,
  default d (last (x :: l)) = default x (last l).
Proof.
  induction l as [|a l IH]; intros d x; [reflexivity|].
  change (last (x :: a :: l)) with (last (a :: l)).
  rewrite (IH d a), (IH x a). reflexivity.
Qed.

Lemma parse_args_language args : forall language w,
  "--help" ∉ args -> "-h" ∉ args ->
  parse_args args language w =
  (w, Return (default language
                (last (omap (fun p : string * string =>
                               if String.eqb p.1 "--language" then Some p.2 else None)
                         (zip args (tail args)))))).
Proof.
  induction args as [|arg rest IH]; intros language w Hh1 Hh2; [reflexivity|].
  apply not_elem_of_cons in Hh1 as [Hne1 Hh1].
  apply not_elem_of_cons in Hh2 as [Hne2 Hh2].
  assert (H1 : String.eqb arg "--help" = false) by (apply String.eqb_neq; congruence).
  assert (H2 : String.eqb arg "-h" = false) by (apply String.eqb_neq; congruence).
  simpl parse_args. rewrite H1, H2. simpl orb. rewrite andb_false_r.
  destruct rest as [|next rest']; [reflexivity|].
  change (zip (arg :: next :: rest') (tail (arg :: next :: rest')))
    with ((arg, next) :: zip (next :: rest') (tail (next :: rest'))).
  cbn [omap list_omap fst snd].
  destruct (String.eqb arg "--language").
  - rewrite (IH next w Hh1 Hh2), default_last_cons. reflexivity.
  - cbn [orb]. apply (IH language w Hh1 Hh2).
Qed.

Lemma main_help_exit E argv w :
  "--help" ∈ argv \/ "-h" ∈ argv ->
  exists out, main E argv w = (with_output w (dirs w) out, SysExit 0%Z).
Proof.
  intros Hhelp. destruct (parse_args_help argv "en" w Hhelp) as (out & Hp).
  exists out. unfold main. apply (bind_SysExit _ _ _ _ _ Hp).
Qed.

(** [main] when no help is asked for: without a transcripts directory it
    exits with status 1; with one it goes on to the run, in the language of
    the arguments. *)
Lemma main_no_help E argv w :
  "--help" ∉ argv -> "-h" ∉ argv ->
  (~ folder_ok E w /\
   exists w', main E argv w = (w', SysExit 1%Z) /\
              files w' = files w /\ events w' = events w /\ dirs w' = dirs w)
  \/ (folder_ok E w /\
      exists w1,
        main E argv w = process_csv_urls E "youtube_url.csv" (language_option argv) w1 /\
        files w1 = files w /\ events w1 = events w /\ folder_ok E w1).
Proof.
  intros Hh1 Hh2.
  pose proof (parse_args_language argv "en" w Hh1 Hh2) as Hp.
  fold (language_option argv) in Hp.
  destruct (main E argv w) as [wf rf] eqn:Hmain.
  unfold main in Hmain. rewrite (bind_Return _ _ _ _ _ Hp) in Hmain.
  unfold bind at 1 in Hmain. unfold print at 1 in Hmain. cbn beta iota in Hmain.
  unfold bind at 1 in Hmain. unfold print at 1 in Hmain. cbn beta iota in Hmain.
  match type of Hmain with bind _ _ ?w0 = _ =>
    destruct (ensure_transcripts_folder_eq E w0)
      as (w1 & r & Hrun & Hf1 & Hev1 & Hsub & [[Hok (dir & -> & _)]|[Hno (e & ->)]]) end.
  - right. split; [refine (folder_ok_mono E _ w _ _ Hok); [reflexivity|intros H; exact H]|].
    exists w1. split.
    { rewrite <- Hmain. rewrite (bind_Return _ _ _ w1 tt); [reflexivity|].
      apply try_except_Return. rewrite (bind_Return _ _ _ _ _ Hrun). reflexivity. }
    cbn [files events dirs stdout] in Hf1, Hev1.
    split; [exact Hf1|]. split; [exact Hev1|].
    refine (folder_ok_mono E _ w1 Hsub _ Hok). rewrite Hf1. intros H. exact H.
  - left. split.
    { intros H. apply Hno.
      refine (folder_ok_mono E w _ _ _ H); [reflexivity|intros H'; exact H']. }
    assert (Hd1 : dirs w1 = dirs w).
    { destruct (ensure_transcripts_folder_cases E w) as (H1 & H2 & H3 & H4).
      match type of Hrun with ensure_transcripts_folder E ?w0 = _ =>
        destruct (ensure_transcripts_folder_cases E w0) as (H1' & H2' & H3' & H4') end.
      assert (Hex : ~ exists_path w "transcripts").
      { intros [H|H]; apply Hno; [left; exact H|right; left; exact H]. }
      destruct (makedirs_error E "transcripts") as [msg|] eqn:Hmk;
        [|exfalso; apply Hno; right; right; left; exact Hmk].
      destruct (makedirs_error E "transcripts_fallback") as [msg'|] eqn:Hfb;
        [|exfalso; apply Hno; right; right; right; exact Hfb].
      rewrite (H4' msg msg' Hex eq_refl eq_refl) in Hrun.
      injection Hrun as <- _. reflexivity. }
    eexists. split.
    { rewrite <- Hmain. apply bind_SysExit. rewrite (try_except_Raise _ _ _ w1 e).
      - unfold bind at 1. unfold print at 1. cbn beta iota.
        unfold bind at 1. unfold print at 1. cbn beta iota.
        unfold sys_exit. reflexivity.
      - apply (bind_Raise _ _ _ _ _ Hrun). }
    cbn [files events dirs stdout] in *.
    split; [exact Hf1|]. split; [exact Hev1|exact Hd1].
Qed.

(** X9. Asking for help: with [--help] or [-h] anywhere among the
    arguments, also after other options, [main] prints and exits with
    status 0; it makes no directory, touches no file, calls nothing and does
    not look for the API key. *)
Theorem main_help (E : Env) (argv : list string) (w : World) :
  "--help" ∈ argv \/ "-h" ∈ argv ->
  exists out,
    main E argv w = (with_output w (dirs w) out, SysExit 0%Z) /\
    exit_status (main E argv w).2 = 0%Z.
Proof.
  intros Hhelp. destruct (main_help_exit E argv w Hhelp) as (out & Hrun).
  exists out. rewrite Hrun. split; reflexivity.
Qed.

Lemma main_help_witness :
  exists out,
    main (sample_env None sample_rows) ["prog"; "--language"; "-h"] (sample_world "")
    = (with_output (sample_world "") ∅ out, SysExit 0%Z) /\
    exit_status (main (sample_env None sample_rows) ["prog"; "--language"; "-h"]
                   (sample_world "")).2 = 0%Z.
Proof.
  apply (main_help (sample_env None sample_rows) ["prog"; "--language"; "-h"]
           (sample_world "")).
  right. apply list_elem_of_further, list_elem_of_further, list_elem_of_here.
Defined.

(** X10. How the process ends: [main] never ends with an exception; its
    exit status is 1 exactly when no help is asked for and either no
    transcripts directory can be had or the API key is missing while a
    record is pending; in every other case it is 0. *)
Theorem main_exit_status (E : Env) (argv : list string) (w : World) :
  (forall e, (main E argv w).2 <> Raise e)
  /\ (exit_status (main E argv w).2 = 1%Z <->
      ("--help" ∉ argv) /\ ("-h" ∉ argv) /\
      (~ folder_ok E w \/
       (~ has_api_key E /\ planned E "youtube_url.csv" w <> [])))
  /\ (exit_status (main E argv w).2 = 0%Z \/ exit_status (main E argv w).2 = 1%Z).
Proof.
  destruct (decide ("--help" ∈ argv)) as [Hh1|Hh1].
  { destruct (main_help_exit E argv w (or_introl Hh1)) as (out & ->). cbn [snd exit_status].
    split; [discriminate|]. split; [|auto].
    split; [discriminate|]. intros (H & _). contradiction. }
  destruct (decide ("-h" ∈ argv)) as [Hh2|Hh2].
  { destruct (main_help_exit E argv w (or_intror Hh2)) as (out & ->). cbn [snd exit_status].
    split; [discriminate|]. split; [|auto].
    split; [discriminate|]. intros (_ & H & _). contradiction. }
  destruct (main_no_help E argv w Hh1 Hh2)
    as [(Hno & w' & -> & _)|(Hok & w1 & -> & Hf1 & _ & Hok1)].
  { cbn [snd exit_status]. split; [discriminate|]. split; [|auto].
    split; auto. }
  destruct (has_api_key_dec E) as [Hkey|Hnokey].
  { destruct (process_csv_urls_events E "youtube_url.csv" (language_option argv) w1
                Hkey Hok1) as (w' & -> & _).
    cbn [snd exit_status]. split; [discriminate|]. split; [|auto].
    split; [discriminate|]. intros (_ & _ & [H|[H _]]); contradiction. }
  destruct (process_csv_urls_no_key E "youtube_url.csv" (language_option argv) w1
              Hnokey Hok1) as (w' & _ & _ & [[Hnil ->]|[Hne [-> _]]]);
    rewrite (planned_files E _ w1 w Hf1) in *; cbn [snd exit_status].
  - split; [discriminate|]. split; [|auto].
    split; [discriminate|]. intros (_ & _ & [H|[_ H]]); contradiction.
  - split; [discriminate|]. split; [|auto]. split; auto.
Qed.

(** X11. The language of a run: when no help is asked for, the API key is
    there and a transcripts directory can be had, [main] returns, and every
    call it makes is for the language of the arguments: the argument after
    the last [--language] that is followed by one, [en] without any. *)
Theorem main_language (E : Env) (argv : list string) (w : World) :
  "--help" ∉ argv -> "-h" ∉ argv -> has_api_key E -> folder_ok E w ->
  exists w',
    main E argv w = (w', Return tt) /\
    events w' = events w
                ++ schedule (language_option argv) (planned E "youtube_url.csv" w) /\
    forall url l,
      ApiCall url l ∈ schedule (language_option argv) (planned E "youtube_url.csv" w) ->
      l = language_option argv.
Proof.
  intros Hh1 Hh2 Hkey Hok.
  destruct (main_no_help E argv w Hh1 Hh2)
    as [(Hno & _)|(_ & w1 & -> & Hf1 & Hev1 & Hok1)]; [contradiction|].
  destruct (process_csv_urls_events E "youtube_url.csv" (language_option argv) w1
              Hkey Hok1) as (w' & -> & Hev).
  exists w'. split; [reflexivity|].
  rewrite (planned_files E _ w1 w Hf1), Hev1 in Hev. split; [exact Hev|].
  intros url l Hin. apply schedule_call in Hin as (r & _ & _ & Hl). exact Hl.
Qed.

Lemma main_language_witness :
  exists w',
    main (sample_env (Some "key") sample_rows)
      ["prog"; "--language"; "fr"; "--language"; "es"; "--language"] (sample_world "")
    = (w', Return tt) /\
    events w' =
    [] ++ schedule (language_option
                      ["prog"; "--language"; "fr"; "--language"; "es"; "--language"])
            (planned (sample_env (Some "key") sample_rows) "youtube_url.csv"
               (sample_world "")) /\
    forall url l,
      ApiCall url l
      ∈ schedule (language_option
                    ["prog"; "--language"; "fr"; "--language"; "es"; "--language"])
          (planned (sample_env (Some "key") sample_rows) "youtube_url.csv"
             (sample_world "")) ->
      l = "es".
Proof.
  apply (main_language (sample_env (Some "key") sample_rows)
           ["prog"; "--language"; "fr"; "--language"; "es"; "--language"]
           (sample_world "")).
  - intros H. repeat (apply elem_of_cons in H as [H|H]; [discriminate|]).
    apply elem_of_nil in H. exact H.
  - intros H. repeat (apply elem_of_cons in H as [H|H]; [discriminate|]).
    apply elem_of_nil in H. exact H.
  - apply sample_has_api_key.
  - apply sample_folder_ok.
Defined.

(** ** The reasons of a failure *)

(** X12. Why an invocation fails, the API key being there.  An error of the
    API, another exception of the call, and a transcript file that cannot be
    written each make the invocation return [False] after one API call, with
    the URL and a reason that names the kind of failure appended to the
    failed ledger (when that can be opened) and no other file changed; when
    no transcripts directory can be had the API is not called at all and the
    reason is the unexpected error. *)
Theorem get_youtube_transcript_failures
    (E : Env) (url video_id description language : string) (w : World) :
  has_api_key E ->
  let reply := transcript_api E (length (api_calls (events w))) url language in
  let failed_with reason calls :=
    exists w',
      get_youtube_transcript E url video_id description language w = (w', Return false) /\
      files w' = append_entry E failed_file (failed_entry url reason) (files w) /\
      events w' = events w ++ calls in
  (forall msg, folder_ok E w -> reply = ReplyRaise (SupadataError msg) ->
     failed_with ("Supadata API error: " +:+ msg) [ApiCall url language])
  /\ (forall msg, folder_ok E w -> reply = ReplyRaise (OtherError msg) ->
     failed_with ("Transcript fetch error: " +:+ msg) [ApiCall url language])
  /\ (forall dir content msg,
     (ensure_transcripts_folder E w).2 = Return dir ->
     reply = ReplyObject content \/ reply = ReplyPlain content ->
     open_error E (path_join dir (video_id +:+ ".txt")) = Some msg ->
     failed_with ("File save error: " +:+ msg) [ApiCall url language])
  /\ (forall e, (ensure_transcripts_folder E w).2 = Raise e ->
     failed_with ("Unexpected error: " +:+ str_exn e) []).
Proof.
  intros Hkey reply failed_with. subst failed_with. cbn beta.
  destruct (get_youtube_transcript_eq E url video_id description language w Hkey)
    as (w' & Hrun & Hf & _ & Hev).
  unfold verdict_of in Hrun, Hf. fold reply in Hrun, Hf.
  repeat split.
  - intros msg Hok Hreply.
    destruct (ensure_transcripts_folder_eq E w)
      as (w1 & r & He & _ & _ & _ & [[_ (dir & -> & _)]|[Hno _]]); [|contradiction].
    rewrite He in Hrun, Hf, Hev. cbn [snd] in Hrun, Hf, Hev.
    unfold fetch_verdict in Hrun, Hf. fold reply in Hrun, Hf. rewrite Hreply in Hrun, Hf.
    exists w'. auto.
  - intros msg Hok Hreply.
    destruct (ensure_transcripts_folder_eq E w)
      as (w1 & r & He & _ & _ & _ & [[_ (dir & -> & _)]|[Hno _]]); [|contradiction].
    rewrite He in Hrun, Hf, Hev. cbn [snd] in Hrun, Hf, Hev.
    unfold fetch_verdict in Hrun, Hf. fold reply in Hrun, Hf. rewrite Hreply in Hrun, Hf.
    exists w'. auto.
  - intros dir content msg He Hreply Hopen.
    rewrite He in Hrun, Hf, Hev.
    unfold fetch_verdict in Hrun, Hf. fold reply in Hrun, Hf.
    destruct Hreply as [Hreply|Hreply]; rewrite Hreply, Hopen in Hrun, Hf;
      exists w'; auto.
  - intros e He. rewrite He in Hrun, Hf, Hev. rewrite app_nil_r in Hev.
    exists w'. rewrite app_nil_r. auto.
Qed.

Lemma get_youtube_transcript_failures_witness :
  exists w',
    get_youtube_transcript (sample_env (Some "key") []) "https://youtu.be/xyz" "xyz" "" "en"
      (mkWorld ∅ ∅ [] [ApiCall "https://youtu.be/abc" "en"])
    = (w', Return false) /\
    files w' = append_entry (sample_env (Some "key") []) failed_file
                 (failed_entry "https://youtu.be/xyz"
                    ("Supadata API error: " +:+ "no captions available")) ∅ /\
    events w' = [ApiCall "https://youtu.be/abc" "en"] ++ [ApiCall "https://youtu.be/xyz" "en"].
Proof.
  destruct (get_youtube_transcript_failures (sample_env (Some "key") [])
              "https://youtu.be/xyz" "xyz" "" "en"
              (mkWorld ∅ ∅ [] [ApiCall "https://youtu.be/abc" "en"])
              (sample_has_api_key [])) as (H & _).
  apply (H "no captions available").
  - apply sample_folder_ok.
  - reflexivity.
Defined.

(** ** The counts of the loop *)

Lemma process_loop_cons E language total i video_id url description rest successful failed w :
  process_loop E language total i ((video_id, url, description) :: rest) successful failed w
  = match get_youtube_transcript E url video_id description language
            (mkWorld (files w) (dirs w)
               (stdout w ++ [Text (LF +:+ "Processing " +:+ of_nat i +:+ "/" +:+ of_nat total
                                   +:+ ": " +:+ description)]) (events w)) with
    | (w1, Return ok) =>
        process_loop E language total (S i) rest
          (if ok then S successful else successful) (if ok then failed else S failed)
          (if (i <? total)%nat
           then mkWorld (files w1) (dirs w1)
                  (stdout w1 ++ [Text (LF +:+ "Pausing for 5 seconds before next URL...")])
                  (events w1 ++ [Sleep 5])
           else w1)
    | (w1, Raise e) => (w1, Raise e)
    | (w1, SysExit c) => (w1, SysExit c)
    end.
Proof.
  cbn [process_loop]. unfold bind at 1. unfold print at 1. unfold bind at 1.
  destruct (get_youtube_transcript E url video_id description language _) as [w1 [ok|e|c]];
    try reflexivity.
  destruct (i <? total)%nat; reflexivity.
Qed.

Lemma process_loop_counts E language (Hkey : has_api_key E) :
  open_error E completed_file = None -> open_error E failed_file = None ->
  forall todo total i successful failed w,
  exists w' good bad,
    process_loop E language total i todo successful failed w
    = (w', Return (successful + length good, failed + length bad)) /\
    good ++ bad.*1 ≡ₚ record_url <$> todo /\
    sublist good (record_url <$> todo) /\
    sublist bad.*1 (record_url <$> todo) /\
    file_text (files w') completed_file
    = file_text (files w) completed_file +:+ concat_text (completed_entry <$> good) /\
    file_text (files w') failed_file
    = file_text (files w) failed_file
      +:+ concat_text ((fun p : string * string => failed_entry p.1 p.2) <$> bad).
Proof.
  intros Hoc Hof.
  induction todo as [|[[video_id url] description] rest IH];
    intros total i successful failed w.
  - exists w, [], []. cbn [process_loop length fmap list_fmap concat_text foldr app].
    rewrite !Nat.add_0_r, !str_app_nil_r.
    repeat split; auto; apply sublist_nil.
  - rewrite process_loop_cons.
    match goal with |- context [get_youtube_transcript E url video_id description language ?w0] =>
      destruct (get_youtube_transcript_eq E url video_id description language w0 Hkey)
        as (w1 & -> & Hf1 & _ & _);
      destruct (files_after_step E w0 url video_id description language)
        as (_ & _ & Hstep);
      rewrite <- Hf1 in Hstep; cbn [files] in Hstep;
      generalize dependent (verdict_of E w0 url video_id description language)
    end.
    intros v Hf1 Hstep.
    match goal with |- context [process_loop E language total (S i) rest ?s ?f ?w0] =>
      destruct (IH total (S i) s f w0)
        as (w' & good & bad & Hrun & Hperm & Hsg & Hsb & Hc & Hf);
      assert (Hw0 : files w0 = files w1) by (destruct (i <? total)%nat; reflexivity)
    end.
    rewrite Hrun, Hw0 in *. clear Hrun.
    destruct Hstep as [(Hs & Hfl & Hcl)|(reason & -> & Hcl & Hfl)].
    + rewrite Hs. rewrite Hoc in Hcl.
      exists w', (url :: good), bad. split; [|split; [|split; [|split; [|split]]]].
      * cbn [length]. do 2 f_equal. f_equal. lia.
      * cbn [app fmap list_fmap]. apply Permutation_skip, Hperm.
      * cbn [fmap list_fmap]. apply sublist_skip, Hsg.
      * cbn [fmap list_fmap]. apply sublist_cons, Hsb.
      * rewrite Hc, Hcl. cbn [fmap list_fmap concat_text foldr].
        rewrite !str_app_assoc. reflexivity.
      * rewrite Hf. unfold file_text. rewrite Hfl. reflexivity.
    + rewrite Hof in Hfl. cbn [saved].
      exists w', good, ((url, reason) :: bad). split; [|split; [|split; [|split; [|split]]]].
      * cbn [length]. do 2 f_equal. f_equal. lia.
      * cbn [fmap list_fmap fst]. rewrite <- Permutation_middle.
        apply Permutation_skip, Hperm.
      * cbn [fmap list_fmap]. apply sublist_cons, Hsg.
      * cbn [fmap list_fmap fst]. apply sublist_skip, Hsb.
      * rewrite Hc. unfold file_text. rewrite Hcl. reflexivity.
      * rewrite Hf, Hfl. cbn [fmap list_fmap concat_text foldr fst snd].
        rewrite !str_app_assoc. reflexivity.
Qed.

(** X13. The counts of the loop, the API key being there and both ledgers
    being files that can be opened: the loop returns; the URLs it has worked
    off fall into those counted as successful and those counted as failed,
    each kept in the order of the records; the completed ledger has gained
    the entries of the former, the failed ledger an entry with a reason for
    each of the latter, and nothing else was added to a ledger.  (Video ids
    without a slash: every transcript is written inside the transcripts
    directory.) *)
Theorem process_loop_accounts
    (E : Env) (language : string) (total i : nat) (todo : list record) (w : World) :
  has_api_key E ->
  open_error E completed_file = None -> open_error E failed_file = None ->
  (forall r, r ∈ todo -> no_slash r.1.1) ->
  exists w' good bad,
    process_loop E language total i todo 0 0 w = (w', Return (length good, length bad)) /\
    length good + length bad = length todo /\
    good ++ bad.*1 ≡ₚ record_url <$> todo /\
    sublist good (record_url <$> todo) /\
    sublist bad.*1 (record_url <$> todo) /\
    ledger w' completed_file
    = ledger w completed_file +:+ concat_text (completed_entry <$> good) /\
    ledger w' failed_file
    = ledger w failed_file
      +:+ concat_text ((fun p : string * string => failed_entry p.1 p.2) <$> bad).
Proof.
  intros Hkey Hoc Hof _.
  destruct (process_loop_counts E language Hkey Hoc Hof todo total i 0 0 w)
    as (w' & good & bad & Hrun & Hperm & Hsg & Hsb & Hc & Hf).
  exists w', good, bad. split; [exact Hrun|]. split; [|auto 10].
  apply Permutation_length in Hperm.
  rewrite length_app, !length_fmap in Hperm. exact Hperm.
Qed.

Lemma process_loop_accounts_witness :
  exists w' good bad,
    process_loop (sample_env (Some "key") []) "en" 2 1
      [ ("abc123DEFgh", "https://youtu.be/abc123DEFgh", "Intro video");
        ("xyz", "https://youtu.be/xyz", "") ] 0 0 empty_world
    = (w', Return (length good, length bad)) /\
    length good + length bad = 2 /\
    good ++ bad.*1 ≡ₚ ["https://youtu.be/abc123DEFgh"; "https://youtu.be/xyz"] /\
    sublist good ["https://youtu.be/abc123DEFgh"; "https://youtu.be/xyz"] /\
    sublist bad.*1 ["https://youtu.be/abc123DEFgh"; "https://youtu.be/xyz"] /\
    ledger w' completed_file = "" +:+ concat_text (completed_entry <$> good) /\
    ledger w' failed_file
    = "" +:+ concat_text ((fun p : string * string => failed_entry p.1 p.2) <$> bad).
Proof.
  apply (process_loop_accounts (sample_env (Some "key") []) "en" 2 1
           [ ("abc123DEFgh", "https://youtu.be/abc123DEFgh", "Intro video");
             ("xyz", "https://youtu.be/xyz", "") ] empty_world).
  - apply sample_has_api_key.
  - reflexivity.
  - reflexivity.
  - intros r Hr.
    repeat (apply elem_of_cons in Hr as [->|Hr]; [vm_compute; reflexivity|]).
    apply elem_of_nil in Hr. contradiction.
Defined.

(** ** Usual URLs *)

Lemma m_rep_cls p n : forall w s' cap,
  String.length w = n -> all_chars p w = true ->
  Re.m (Re.rep n (Re.Cls p)) (w +:+ s') cap = [(s', cap)].
Proof.
  induction n as [|n IH]; intros w s' cap Hlen Hall.
  - destruct w; [reflexivity|discriminate].
  - destruct w as [|c w]; [discriminate|].
    rewrite all_chars_cons in Hall. apply andb_true_iff in Hall as [Hc Hall].
    injection Hlen as Hlen. rewrite str_app_cons.
    cbn [Re.rep Re.m]. rewrite Hc. cbn [flat_map fst snd].
    rewrite (IH w s' cap Hlen Hall). reflexivity.
Qed.

Lemma m_id11 v s' cap :
  video_id_text v -> Re.m id11 (v +:+ s') cap = [(s', Some v)].
Proof.
  intros [Hlen Hall]. unfold id11. cbn [Re.m].
  rewrite (m_rep_cls id_char 11 v s' cap Hlen Hall). cbn [map fst].
  rewrite consumed_app. reflexivity.
Qed.

Lemma search_found r s x rest : Re.m r s None = x :: rest -> Re.search r s = Some x.2.
Proof. intros H. destruct s; simpl; rewrite H; reflexivity. Qed.

Lemma search_skip r c s : Re.m r (String c s) None = [] ->
  Re.search r (String c s) = Re.search r s.
Proof. intros H. simpl. rewrite H. reflexivity. Qed.

Lemma extract_found url v : Re.search pattern1 url = Some (Some v) ->
  extract_video_id url = Some v.
Proof. intros H. unfold extract_video_id, patterns, first_match. rewrite H. reflexivity. Qed.


Lemma m_pattern1_skip c s :
  Ascii.eqb "y" c = false -> Re.m pattern1 (String c s) None = [].
Proof.
  intros Hc. unfold pattern1. cbn [Re.m Re.drop_prefix]. rewrite Hc. reflexivity.
Qed.

Lemma search_pattern1_skip pre : forall s,
  no_y pre -> Re.search pattern1 (pre +:+ s) = Re.search pattern1 s.
Proof.
  induction pre as [|c pre IH]; intros s Hpre; [reflexivity|].
  unfold no_y in Hpre. rewrite all_chars_cons in Hpre.
  apply andb_true_iff in Hpre as [Hc Hpre]. apply negb_true_iff in Hc.
  rewrite str_app_cons, search_skip by (apply m_pattern1_skip, Hc).
  apply IH, Hpre.
Qed.

Lemma drop_prefix_app t s : Re.drop_prefix t (t +:+ s) = Some s.
Proof. apply drop_prefix_Some. reflexivity. Qed.

(** X14. Usual URLs: when the text before the first of the markers
    [youtube.com/watch?v=], [youtu.be/] and [youtube.com/embed/] holds no
    letter y (a scheme and a host prefix such as [https://www.] or
    [https://m.], or nothing), [extract_video_id] returns the eleven
    characters that follow the marker, whatever comes after them. *)
Theorem extract_video_id_usual (pre marker v post : string) :
  no_y pre ->
  marker ∈ ["youtube.com/watch?v="; "youtu.be/"; "youtube.com/embed/"] ->
  video_id_text v ->
  extract_video_id (pre +:+ marker +:+ v +:+ post) = Some v.
Proof.
  intros Hpre Hmarker Hv. apply extract_found.
  rewrite (search_pattern1_skip pre _ Hpre).
  apply (search_found _ _ (post, Some v) []).
  unfold pattern1. cbn [Re.m].
  repeat (apply elem_of_cons in Hmarker as [->|Hmarker]).
  - rewrite drop_prefix_app.
    change (Re.drop_prefix "youtu.be/" ("youtube.com/watch?v=" +:+ v +:+ post))
      with (@None string).
    change (Re.drop_prefix "youtube.com/embed/" ("youtube.com/watch?v=" +:+ v +:+ post))
      with (@None string).
    cbn [app flat_map fst snd]. rewrite (m_id11 v post None Hv). reflexivity.
  - rewrite drop_prefix_app.
    change (Re.drop_prefix "youtube.com/watch?v=" ("youtu.be/" +:+ v +:+ post))
      with (@None string).
    change (Re.drop_prefix "youtube.com/embed/" ("youtu.be/" +:+ v +:+ post))
      with (@None string).
    cbn [app flat_map fst snd]. rewrite (m_id11 v post None Hv). reflexivity.
  - rewrite drop_prefix_app.
    change (Re.drop_prefix "youtube.com/watch?v=" ("youtube.com/embed/" +:+ v +:+ post))
      with (@None string).
    change (Re.drop_prefix "youtu.be/" ("youtube.com/embed/" +:+ v +:+ post))
      with (@None string).
    cbn [app flat_map fst snd]. rewrite (m_id11 v post None Hv). reflexivity.
  - apply elem_of_nil in Hmarker. contradiction.
Qed.

Lemma extract_video_id_usual_witness :
  extract_video_id ("https://www." +:+ "youtube.com/watch?v=" +:+ "abc123DEFgh" +:+ "&t=10s")
  = Some "abc123DEFgh".
Proof.
  apply extract_video_id_usual.
  - reflexivity.
  - apply list_elem_of_here.
  - split; reflexivity.
Defined.

Lemma no_slash_app s t : no_slash (s +:+ t) <-> no_slash s /\ no_slash t.
Proof. unfold no_slash. rewrite all_chars_app, andb_true_iff. reflexivity. Qed.

Lemma search_no_match head (shape : string -> string -> Prop) url :
  (forall v, shape url v <->
     exists pre w post,
       url = pre +:+ w +:+ v +:+ post /\ Re.matches head w /\ video_id_text v) ->
  (forall v, ~ shape url v) ->
  Re.search (Re.Seq head id11) url = None.
Proof.
  intros Hshape Hnone. pose proof (search_shape head shape url Hshape) as H.
  destruct (Re.search (Re.Seq head id11) url) as [g|]; [|reflexivity].
  destruct H as (v & _ & Hv). exfalso. apply (Hnone v Hv).
Qed.

(** X15. A text without a slash, a bare video id for one, is no URL for
    [extract_video_id]: the result is [None]. *)
Theorem extract_video_id_bare (url : string) :
  no_slash url -> extract_video_id url = None.
Proof.
  intros Hurl. unfold extract_video_id, patterns, first_match.
  fold pattern1. 
  assert (H1 : forall v, ~ shape1 url v).
  { intros v (pre & marker & post & Hm & -> & _).
    apply no_slash_app in Hurl as [_ Hurl]. apply no_slash_app in Hurl as [Hurl _].
    repeat (apply elem_of_cons in Hm as [->|Hm]); try discriminate Hurl.
    apply elem_of_nil in Hm. exact Hm. }
  assert (H2 : forall v, ~ shape2 url v).
  { intros v (pre & mid & post & -> & _).
    apply no_slash_app in Hurl as [_ Hurl]. apply no_slash_app in Hurl as [Hurl _].
    discriminate Hurl. }
  assert (H3 : forall v, ~ shape3 url v).
  { intros v (pre & post & -> & _).
    apply no_slash_app in Hurl as [_ Hurl]. apply no_slash_app in Hurl as [Hurl _].
    discriminate Hurl. }
  pose proof (search_no_match _ shape1 url (shape1_iff url) H1) as S1.
  pose proof (search_no_match _ shape2 url (shape2_iff url) H2) as S2.
  pose proof (search_no_match _ shape3 url (shape3_iff url) H3) as S3.
  fold pattern1 in S1. fold pattern2 in S2. fold pattern3 in S3.
  rewrite S1, S2, S3. reflexivity.
Qed.

Lemma extract_video_id_bare_witness : extract_video_id "abc123DEFgh" = None.
Proof. apply extract_video_id_bare. reflexivity. Defined.

(** ** Trimming *)

Lemma starts_with_cons p c s : starts_with p (String c s) <-> p c = true.
Proof.
  split.
  - intros (c' & rest & [= -> _] & H). exact H.
  - intros H. exists c, s. auto.
Qed.

Lemma not_starts_with_nil p : ~ starts_with p "".
Proof. intros (c & rest & H & _). discriminate. Qed.

Lemma not_ends_with_nil p : ~ ends_with p "".
Proof. intros (front & c & H & _). destruct front; discriminate. Qed.

Lemma ends_with_single p c : ends_with p (String c "") <-> p c = true.
Proof.
  split.
  - intros (front & c' & H & Hc). destruct front as [|d front].
    + injection H as ->. exact Hc.
    + rewrite str_app_cons in H. injection H as _ H. destruct front; discriminate.
  - intros H. exists "", c. auto.
Qed.

Lemma ends_with_cons p c d s :
  ends_with p (String c (String d s)) <-> ends_with p (String d s).
Proof.
  split.
  - intros (front & e & H & He). destruct front as [|c' front].
    + discriminate.
    + rewrite str_app_cons in H. injection H as _ H. exists front, e. auto.
  - intros (front & e & H & He). exists (String c front), e.
    rewrite str_app_cons, H. auto.
Qed.

(** What [rstrip] leaves does not end with a character it strips. *)
Lemma rstrip_not_ends_with p s : ~ ends_with p (rstrip p s).
Proof.
  induction s as [|c s IH]; simpl; [apply not_ends_with_nil|].
  destruct (rstrip p s) as [|d r] eqn:Hr.
  - destruct (p c) eqn:Hc; [apply not_ends_with_nil|].
    rewrite ends_with_single, Hc. discriminate.
  - rewrite ends_with_cons. exact IH.
Qed.

(** [strip] trims. *)
Lemma strip_trimmed p s : trimmed p s (strip p s).
Proof.
  split; [apply strip_split|]. split; [|apply rstrip_not_ends_with].
  unfold strip. destruct (lstrip_head p s) as [->|(c & s' & -> & Hc)];
    [apply not_starts_with_nil|].
  destruct (rstrip_keeps_head p c s' Hc) as (r & ->).
  rewrite starts_with_cons, Hc. discriminate.
Qed.

Lemma lstrip_all p a t : all_chars p a = true -> lstrip p (a +:+ t) = lstrip p t.
Proof.
  induction a as [|c a IH]; [reflexivity|].
  rewrite all_chars_cons. intros [Hc Ha]%andb_true_iff.
  rewrite str_app_cons. simpl. rewrite Hc. apply IH, Ha.
Qed.

Lemma rstrip_all_nil p b : all_chars p b = true -> rstrip p b = "".
Proof. apply rstrip_empty_iff. Qed.

Lemma rstrip_not_ends p t : ~ ends_with p t -> rstrip p t = t.
Proof.
  induction t as [|c t IH]; [reflexivity|]. intros Hend. simpl.
  destruct t as [|d t].
  - simpl. destruct (p c) eqn:Hc; [|reflexivity].
    exfalso. apply Hend, ends_with_single, Hc.
  - rewrite IH; [reflexivity|]. intros H. apply Hend, ends_with_cons, H.
Qed.

Lemma lstrip_not_starts p t : ~ starts_with p t -> lstrip p t = t.
Proof.
  destruct t as [|c t]; [reflexivity|]. intros H. apply lstrip_fixed.
  destruct (p c) eqn:Hc; [|reflexivity]. exfalso. apply H, starts_with_cons, Hc.
Qed.

(** Trimming has one result, the one of [strip]. *)
Lemma trimmed_strip p s t : trimmed p s t -> t = strip p s.
Proof.
  intros ((a & b & -> & Ha & Hb) & Hs & He).
  unfold strip. rewrite (lstrip_all p a _ Ha).
  destruct t as [|c t].
  - rewrite str_app_nil_l.
    assert (Hl : lstrip p b = "") by (apply lstrip_empty_iff, Hb).
    rewrite Hl. reflexivity.
  - assert (Hst : strip p (String c t) = String c t).
    { unfold strip. rewrite (lstrip_not_starts p _ Hs). apply rstrip_not_ends, He. }
    rewrite (lstrip_app p (String c t) b); [|discriminate|apply strip_fixed, Hst].
    rewrite (rstrip_app p (String c t) b); [|discriminate|apply strip_fixed, Hst].
    rewrite (rstrip_all_nil p b Hb), str_app_nil_r. reflexivity.
Qed.

Lemma trimmed_iff p s t : trimmed p s t <-> t = strip p s.
Proof. split; [apply trimmed_strip|intros ->; apply strip_trimmed]. Qed.

(** ** The CSV loader, once more *)

Lemma records_of_csv_records rows : records_of rows (csv_records rows).
Proof.
  induction rows as [|row rows IH]; [constructor|].
  unfold csv_records. cbn [omap list_omap].
  destruct row as [|c0 [|c1 more]].
  - rewrite row_record_short0. apply records_of_short; [simpl; lia|exact IH].
  - rewrite row_record_short1. apply records_of_short; [simpl; lia|exact IH].
  - rewrite row_record_long. apply records_of_row; [|exact IH].
    exists c0, c1, more. split; [reflexivity|].
    split; [apply strip_trimmed|]. split; [apply strip_trimmed|].
    destruct more; [reflexivity|apply strip_trimmed].
Qed.

(** The rows determine their records. *)
Lemma records_of_unique rows : forall rs, records_of rows rs -> rs = csv_records rows.
Proof.
  induction rows as [|row rows IH]; intros rs H; inversion H; subst.
  - reflexivity.
  - match goal with Hr : record_of_row _ _ |- _ =>
      destruct Hr as (c0 & c1 & more & -> & H0 & H1 & H2) end.
    unfold csv_records. cbn [omap list_omap]. rewrite row_record_long. cbn.
    f_equal; [|apply IH; assumption].
    apply trimmed_strip in H0, H1. destruct r as [[v u] d]. cbn in *. subst v u.
    destruct more as [|c2 more']; [subst d; reflexivity|].
    apply trimmed_strip in H2. subst d. reflexivity.
  - unfold csv_records. cbn [omap list_omap].
    destruct row as [|c0 [|c1 more]]; [| |simpl in *; lia].
    + rewrite row_record_short0. apply IH. assumption.
    + rewrite row_record_short1. apply IH. assumption.
Qed.

Lemma row_warnings_short rows : forall first n row,
  RowWarning n row ∈ row_warnings first rows ->
  exists i, n = first + i /\ rows !! i = Some row /\ length row < 2.
Proof.
  induction rows as [|r rows IH]; intros first n row Hin.
  - apply elem_of_nil in Hin. contradiction.
  - rewrite row_warnings_cons in Hin. apply elem_of_app in Hin as [Hin|Hin].
    + destruct r as [|c0 [|c1 more]].
      * rewrite row_record_short0 in Hin. apply list_elem_of_singleton in Hin.
        injection Hin as -> ->. exists 0. split; [lia|]. split; [reflexivity|simpl; lia].
      * rewrite row_record_short1 in Hin. apply list_elem_of_singleton in Hin.
        injection Hin as -> ->. exists 0. split; [lia|]. split; [reflexivity|simpl; lia].
      * rewrite row_record_long in Hin. apply elem_of_nil in Hin. contradiction.
    + destruct (IH _ _ _ Hin) as (i & -> & Hi & Hlen).
      exists (S i). split; [lia|]. split; [exact Hi|exact Hlen].
Qed.

(** [read_csv_urls] on a file that is there and can be opened. *)
Lemma read_csv_urls_rows E csv_file w content rows failure :
  files w !! csv_file = Some content ->
  open_error E csv_file = None ->
  csv_reader E (file_lines content) = (rows, failure) ->
  read_csv_urls E csv_file w =
  (mkWorld (files w) (dirs w)
     (stdout w ++ row_warnings 1 (rows_yielded (rows, failure))
        ++ [Text (closing_message failure
                    (length (csv_records (rows_yielded (rows, failure)))))])
     (events w),
   Return (csv_records (rows_yielded (rows, failure)))).
Proof.
  intros Hf Ho Hr.
  unfold read_csv_urls, rows_yielded, closing_message, bind, path_exists, try_except,
    read_lines.
  rewrite Hf, Ho.
  rewrite (bool_decide_eq_true_2 (is_Some (Some content))) by eauto.
  rewrite orb_true_r. cbn. rewrite Hf. cbn. rewrite Hr.
  destruct failure as [[n msg]|]; rewrite read_rows_eq; cbn; unfold print, ret; cbn;
    rewrite <- app_assoc; reflexivity.
Qed.

(** C3, as the specification states it, fails: when the reader ends with an
    error, the rows of the file it has not come to give no record. *)
Lemma read_csv_urls_all_rows_counterexample :
  ~ (forall E csv_file w content rows failure,
        files w !! csv_file = Some content ->
        open_error E csv_file = None ->
        csv_reader E (file_lines content) = (rows, failure) ->
        records_of rows (loaded_records E csv_file w)).
Proof.
  intros H.
  specialize (H failing_reader_env "youtube_url.csv" (sample_world "") "rows"
                _ _ eq_refl eq_refl eq_refl).
  apply records_of_unique in H. vm_compute in H. discriminate H.
Qed.

(** C3, amended. For a CSV file that is there and can be opened, the loader
    returns one record for each row of at least two columns that the reader
    yields, in their order, each [(video_id, url, description-or-empty)]
    with the double quotes around the columns removed, and prints one
    warning, with the number of the row, for each shorter row and for no
    other; the rows the reader yields are all the rows of the file when it
    reads the file to its end, and the loader then reports their number;
    when the reader ends with an error they are the rows before it, and the
    loader reports the error and returns their records.  A missing file
    gives the empty list, a message and no exception. *)
Theorem read_csv_urls_records (E : Env) (csv_file : string) (w : World) :
  (forall content rows failure,
      files w !! csv_file = Some content ->
      open_error E csv_file = None ->
      csv_reader E (file_lines content) = (rows, failure) ->
      exists seen records,
        read_csv_urls E csv_file w =
          (mkWorld (files w) (dirs w)
             (stdout w ++ row_warnings 1 seen
                ++ [Text (closing_message failure (length records))])
             (events w),
           Return records)
        /\ records_of seen records
        /\ (forall i row, seen !! i = Some row -> length row < 2 ->
              RowWarning (S i) row ∈ row_warnings 1 seen)
        /\ (forall n row, RowWarning n row ∈ row_warnings 1 seen ->
              exists i, n = S i /\ seen !! i = Some row /\ length row < 2)
        /\ (failure = None -> seen = rows)
        /\ (forall n msg, failure = Some (n, msg) -> seen = take n rows))
  /\ (files w !! csv_file = None -> csv_file ∉ dirs w ->
      read_csv_urls E csv_file w =
        (mkWorld (files w) (dirs w)
           (stdout w ++ [Text ("Error: CSV file '" +:+ csv_file +:+ "' not found")])
           (events w),
         Return [])).
Proof.
  split.
  - intros content rows failure Hf Ho Hr.
    exists (rows_yielded (rows, failure)), (csv_records (rows_yielded (rows, failure))).
    split; [apply (read_csv_urls_rows E csv_file w content rows failure Hf Ho Hr)|].
    split; [apply records_of_csv_records|].
    split; [intros i row Hi Hlen; apply (row_warnings_elem _ 1 i row Hi Hlen)|].
    split; [intros n row Hin; apply (row_warnings_short _ 1 n row Hin)|].
    split; [intros ->; reflexivity|intros n msg ->; reflexivity].
  - intros Hf Hd.
    destruct (read_csv_urls_eq E csv_file w) as (final & Heq & Hmissing).
    rewrite (Hmissing Hf Hd) in Heq. unfold csv_rows_read in Heq. rewrite Hf in Heq.
    destruct (open_error E csv_file); exact Heq.
Qed.

Lemma read_csv_urls_records_witness :
  (exists seen records,
     read_csv_urls (sample_env None quoted_rows) "youtube_url.csv" (sample_world "") =
       (mkWorld (files (sample_world "")) ∅
          ([] ++ row_warnings 1 seen ++ [Text (closing_message None (length records))]) [],
        Return records)
     /\ records_of seen records
     /\ seen = quoted_rows
     /\ records = [ ("abc123DEFgh", "https://youtu.be/abc123DEFgh", "Intro video");
                    ("xyz", "https://youtu.be/xyz", "") ]
     /\ RowWarning 2 ["only-one"] ∈ row_warnings 1 seen)
  /\ read_csv_urls (sample_env None quoted_rows) "youtube_url.csv" empty_world =
       (mkWorld ∅ ∅ [Text "Error: CSV file 'youtube_url.csv' not found"] [], Return []).
Proof.
  destruct (read_csv_urls_records (sample_env None quoted_rows) "youtube_url.csv"
              (sample_world "")) as [Hread _].
  destruct (read_csv_urls_records (sample_env None quoted_rows) "youtube_url.csv"
              empty_world) as [_ Hmissing].
  split.
  - destruct (Hread "rows" quoted_rows None eq_refl eq_refl eq_refl)
      as (seen & records & Heq & Hrec & Hwarn & _ & Hall & _).
    specialize (Hall eq_refl). subst seen.
    exists quoted_rows, records. split; [exact Heq|]. split; [exact Hrec|].
    split; [reflexivity|]. split.
    + apply records_of_unique in Hrec. rewrite Hrec. vm_compute. reflexivity.
    + apply (Hwarn 1 ["only-one"]); [reflexivity|simpl; lia].
  - apply Hmissing; [reflexivity | apply not_elem_of_empty].
Defined.

(** ** The ledger loaders, once more *)

Lemma strip_not_around p u :
  ~ starts_with p u -> ~ ends_with p u -> strip p u = u.
Proof.
  intros Hs He. unfold strip. rewrite (lstrip_not_starts p u Hs).
  apply rstrip_not_ends, He.
Qed.

Lemma ends_with_app p s c : ends_with p (s +:+ String c "") <-> p c = true.
Proof.
  split.
  - intros (front & d & H & Hd).
    revert front H. induction s as [|e s IH]; intros front H.
    + rewrite str_app_nil_l in H. destruct front as [|f front].
      * injection H as ->. exact Hd.
      * rewrite str_app_cons in H. injection H as _ H. destruct front; discriminate.
    + rewrite str_app_cons in H. destruct front as [|f front].
      * rewrite str_app_nil_l in H. injection H as _ H. destruct s; discriminate.
      * rewrite str_app_cons in H. injection H as _ H. apply (IH front H).
  - intros H. exists s, c. auto.
Qed.

Lemma str_app_inv_tail s : forall s' t, s +:+ t = s' +:+ t -> s = s'.
Proof.
  intros s' t H.
  assert (Hlen : String.length s = String.length s').
  { apply (f_equal String.length) in H. rewrite !str_length_app in H. lia. }
  revert s' H Hlen. induction s as [|c s IH]; intros [|c' s'] H Hlen; try discriminate.
  - reflexivity.
  - rewrite !str_app_cons in H. injection H as -> H. f_equal.
    apply IH; [exact H|]. simpl in Hlen. lia.
Qed.

(** A line has one body. *)
Lemma line_body_unique line body body' :
  line_body line body -> line_body line body' -> body = body'.
Proof.
  intros [->|[-> Hn]] [H|[H Hn']].
  - apply (str_app_inv_tail _ _ LF H).
  - exfalso. apply Hn'. apply ends_with_app. reflexivity.
  - exfalso. apply Hn. rewrite H. apply ends_with_app. reflexivity.
  - exact H.
Qed.

Lemma first_field_split body u : first_field body u -> first_part (split (chr 9) body) = u.
Proof.
  intros [Hu [->|(rest & ->)]].
  - rewrite (split_no_tab u Hu). reflexivity.
  - change (u +:+ TAB +:+ rest) with (u +:+ String (chr 9) rest).
    rewrite (split_tab u rest Hu). reflexivity.
Qed.

(** A text has one first field. *)
Lemma first_field_unique body u u' : first_field body u -> first_field body u' -> u = u'.
Proof.
  intros H H'. apply first_field_split in H, H'. congruence.
Qed.

(** For a tidy line the loader of the failed ledger takes the first field. *)
Lemma failed_url_tidy line body u :
  line_body line body -> first_field body u ->
  (u = "" -> body = "") -> ~ starts_with is_space u -> ~ ends_with is_space u ->
  failed_url line = u.
Proof.
  intros Hb Hf Hnil Hs He.
  destruct u as [|c u'].
  - rewrite (Hnil eq_refl) in Hb.
    destruct Hb as [->|[-> _]]; reflexivity.
  - set (u := String c u') in *.
    assert (Hne : u <> "") by discriminate.
    assert (Hst : strip is_space u = u) by (apply strip_not_around; assumption).
    destruct Hf as [Htab [->|(rest & ->)]].
    + destruct Hb as [->|[-> _]].
      * unfold failed_url. rewrite (strip_app _ _ _ Hne Hst). cbn [rstrip].
        change (rstrip is_space LF) with "". rewrite str_app_nil_r.
        rewrite (split_no_tab u Htab). reflexivity.
      * unfold failed_url. rewrite Hst, (split_no_tab u Htab). reflexivity.
    + destruct Hb as [->|[-> _]].
      * rewrite str_app_assoc.
        change (u +:+ (TAB +:+ rest) +:+ LF) with (u +:+ String (chr 9) (rest +:+ LF)).
        apply failed_url_line; assumption.
      * change (u +:+ TAB +:+ rest) with (u +:+ String (chr 9) rest).
        apply failed_url_line; assumption.
Qed.

(** Outside the tidy lines: the loader removes the white space around a
    line before it splits it, so for a line that starts with a tab (the
    entry written for an empty URL) it takes the reason, not the empty
    first field. *)
Lemma failed_url_leading_tab : failed_url (TAB +:+ "no captions" +:+ LF) = "no captions".
Proof. reflexivity. Qed.

Lemma completed_set_elem lines u :
  u ∈ url_set completed_url lines <->
  exists line, line ∈ lines /\ stands_for_completed line u.
Proof.
  rewrite url_set_elem. unfold stands_for_completed, completed_url. split.
  - intros (Hne & line & Hin & ->). exists line. split; [exact Hin|].
    split; [exact Hne|apply strip_trimmed].
  - intros (line & Hin & Hne & Ht). split; [exact Hne|]. exists line.
    split; [exact Hin|apply trimmed_strip, Ht].
Qed.

Lemma failed_set_elem lines u :
  (forall line, line ∈ lines -> tidy_line line) ->
  u ∈ url_set failed_url lines <->
  exists line, line ∈ lines /\ stands_for_failed line u.
Proof.
  intros Htidy. rewrite url_set_elem. unfold stands_for_failed. split.
  - intros (Hne & line & Hin & ->). exists line. split; [exact Hin|].
    destruct (Htidy line Hin) as (body & u & Hb & Hf & Hnil & Hs & He).
    rewrite (failed_url_tidy line body u Hb Hf Hnil Hs He) in *.
    split; [exact Hne|]. exists body. auto.
  - intros (line & Hin & Hne & body & Hb & Hf). split; [exact Hne|].
    exists line. split; [exact Hin|].
    destruct (Htidy line Hin) as (body' & u' & Hb' & Hf' & Hnil & Hs & He).
    rewrite (failed_url_tidy line body' u' Hb' Hf' Hnil Hs He).
    rewrite (line_body_unique _ _ _ Hb' Hb) in Hf'.
    apply (first_field_unique body u u' Hf Hf').
Qed.

(** C5, as the specification states it, fails: when reading the ledger ends
    with an error, the lines after it are not looked at and their URLs are
    not in the set. *)
Lemma load_completed_all_lines_counterexample :
  ~ (forall E w content,
        files w !! completed_file = Some content ->
        forall u, u ∈ loaded_set (load_completed_urls E w) <->
                  exists line, line ∈ file_lines content /\
                               stands_for_completed line u).
Proof.
  intros H.
  pose (w := mkWorld {[ completed_file :=
                          "https://youtu.be/a" +:+ LF +:+ "https://youtu.be/b" +:+ LF ]}
               ∅ [] []).
  specialize (H faulty_ledger_env w _ eq_refl "https://youtu.be/b").
  destruct H as [_ H].
  assert (Hin : "https://youtu.be/b" ∈ loaded_set (load_completed_urls faulty_ledger_env w)).
  { apply H. exists ("https://youtu.be/b" +:+ LF). split.
    - apply list_elem_of_further, list_elem_of_here.
    - split; [discriminate|]. apply trimmed_iff. reflexivity. }
  rewrite loaded_set_completed in Hin. apply url_set_elem in Hin as (_ & line & Hl & Hu).
  change (ledger_lines faulty_ledger_env w completed_file)
    with ["https://youtu.be/a" +:+ LF] in Hl.
  apply list_elem_of_singleton in Hl. subst line. discriminate Hu.
Qed.

(** C5, amended. Both loaders return a set and never raise, whatever the
    file holds.  [load_completed] returns exactly the URLs the lines it
    reads stand for: each line without the white space around it, when
    something is left.  [load_failed] returns exactly the non-empty first
    tab-delimited fields of the lines it reads when every one of them is
    tidy: empty, or with a first field that is not empty and has no white
    space around it.  The lines read are all the lines of the file when it
    is read to its end, and the lines before the error when reading fails;
    a missing file gives the empty set. *)
Theorem load_ledgers_sets (E : Env) (w : World) :
  (exists out,
      load_completed_urls E w =
        (mkWorld (files w) (dirs w) (stdout w ++ out) (events w),
         Return (loaded_set (load_completed_urls E w))))
  /\ (exists out,
      load_failed_urls E w =
        (mkWorld (files w) (dirs w) (stdout w ++ out) (events w),
         Return (loaded_set (load_failed_urls E w))))
  /\ (files w !! completed_file = None -> loaded_set (load_completed_urls E w) = ∅)
  /\ (files w !! failed_file = None -> loaded_set (load_failed_urls E w) = ∅)
  /\ (forall content,
        files w !! completed_file = Some content ->
        open_error E completed_file = None ->
        forall u, u ∈ loaded_set (load_completed_urls E w) <->
                  exists line, line ∈ file_lines content /\ stands_for_completed line u)
  /\ (forall content msg,
        files w !! completed_file = Some content ->
        open_error E completed_file = Some msg ->
        forall u, u ∈ loaded_set (load_completed_urls E w) <->
                  exists line,
                    line ∈ take (lines_before_error E completed_file) (file_lines content)
                    /\ stands_for_completed line u)
  /\ (forall content,
        files w !! failed_file = Some content ->
        open_error E failed_file = None ->
        (forall line, line ∈ file_lines content -> tidy_line line) ->
        forall u, u ∈ loaded_set (load_failed_urls E w) <->
                  exists line, line ∈ file_lines content /\ stands_for_failed line u)
  /\ (forall content msg,
        files w !! failed_file = Some content ->
        open_error E failed_file = Some msg ->
        (forall line,
            line ∈ take (lines_before_error E failed_file) (file_lines content) ->
            tidy_line line) ->
        forall u, u ∈ loaded_set (load_failed_urls E w) <->
                  exists line,
                    line ∈ take (lines_before_error E failed_file) (file_lines content)
                    /\ stands_for_failed line u).
Proof.
  split; [|split].
  - destruct (load_completed_urls_eq E w) as (out & Heq). exists out.
    rewrite loaded_set_completed. exact Heq.
  - destruct (load_failed_urls_eq E w) as (out & Heq). exists out.
    rewrite loaded_set_failed. exact Heq.
  - rewrite loaded_set_completed, loaded_set_failed. unfold ledger_lines.
    split; [intros ->; destruct (open_error E completed_file); reflexivity|].
    split; [intros ->; destruct (open_error E failed_file); reflexivity|].
    split; [intros content -> -> u; apply completed_set_elem|].
    split; [intros content msg -> -> u; apply completed_set_elem|].
    split.
    + intros content -> -> Htidy u. apply failed_set_elem, Htidy.
    + intros content msg -> -> Htidy u. apply failed_set_elem, Htidy.
Qed.

Lemma load_ledgers_sets_witness :
  "https://youtu.be/xyz"
  ∈ loaded_set (load_failed_urls (sample_env None [])
                  (sample_world ("https://youtu.be/xyz" +:+ TAB +:+ "why" +:+ LF)))
  /\ loaded_set (load_completed_urls (sample_env None []) (sample_world "")) = ∅
  /\ "https://youtu.be/a"
     ∈ loaded_set (load_completed_urls faulty_ledger_env
                     (mkWorld {[ completed_file :=
                                   "https://youtu.be/a" +:+ LF +:+ "https://youtu.be/b" +:+ LF ]}
                        ∅ [] [])).
Proof.
  split; [|split].
  - destruct (load_ledgers_sets (sample_env None [])
                (sample_world ("https://youtu.be/xyz" +:+ TAB +:+ "why" +:+ LF)))
      as (_ & _ & _ & _ & _ & _ & H & _).
    apply (H ("https://youtu.be/xyz" +:+ TAB +:+ "why" +:+ LF) eq_refl eq_refl).
    + intros line Hin.
      change (line ∈ ["https://youtu.be/xyz" +:+ TAB +:+ "why" +:+ LF]) in Hin.
      apply list_elem_of_singleton in Hin. subst line.
      exists ("https://youtu.be/xyz" +:+ TAB +:+ "why"), "https://youtu.be/xyz".
      split; [left; reflexivity|]. split; [split; [reflexivity|right; eauto]|].
      split; [discriminate|]. split.
      * rewrite starts_with_cons. discriminate.
      * intros He. apply (rstrip_not_ends_with is_space "https://youtu.be/xyz"), He.
    + exists ("https://youtu.be/xyz" +:+ TAB +:+ "why" +:+ LF).
      split; [apply list_elem_of_here|]. split; [discriminate|].
      exists ("https://youtu.be/xyz" +:+ TAB +:+ "why").
      split; [left; reflexivity|]. split; [reflexivity|right; eauto].
  - destruct (load_ledgers_sets (sample_env None []) (sample_world ""))
      as (_ & _ & H & _).
    apply H. reflexivity.
  - match goal with |- _ ∈ loaded_set (load_completed_urls ?E ?w) =>
      destruct (load_ledgers_sets E w) as (_ & _ & _ & _ & _ & H & _) end.
    apply (H ("https://youtu.be/a" +:+ LF +:+ "https://youtu.be/b" +:+ LF)
             "invalid start byte" eq_refl eq_refl).
    exists ("https://youtu.be/a" +:+ LF). split; [apply list_elem_of_here|].
    split; [discriminate|]. apply trimmed_iff. reflexivity.
Defined.

(** ** The records a run works off *)

Lemma selects_filter {A : Type} (P Q : A -> Prop) `{!forall x, Decision (Q x)} (l : list A) :
  (forall x, P x <-> Q x) -> selects P l (filter Q l).
Proof.
  intros HPQ. induction l as [|x l IH]; [constructor|].
  rewrite filter_cons. destruct (decide (Q x)) as [Hq|Hq].
  - apply selects_keep; [apply HPQ, Hq|exact IH].
  - apply selects_drop; [rewrite HPQ; exact Hq|exact IH].
Qed.

(** The selection is a function of the list. *)
Lemma selects_unique {A : Type} (P : A -> Prop) (l a b : list A) :
  selects P l a -> selects P l b -> a = b.
Proof.
  intros Ha. revert b. induction Ha as [|x l l' Hx Ha IH|x l l' Hx Ha IH]; intros b Hb.
  - inversion Hb. reflexivity.
  - inversion Hb; subst; [f_equal; apply IH; assumption|contradiction].
  - inversion Hb; subst; [contradiction|apply IH; assumption].
Qed.

Lemma unlisted_iff E w r :
  (forall line, line ∈ ledger_lines E w failed_file -> tidy_line line) ->
  unlisted E w r <->
  (record_url r ∉ loaded_set (load_completed_urls E w)) /\
  (record_url r ∉ loaded_set (load_failed_urls E w)).
Proof.
  intros Htidy. unfold unlisted, listed_completed, listed_failed.
  rewrite loaded_set_completed, loaded_set_failed.
  rewrite completed_set_elem, (failed_set_elem _ _ Htidy). reflexivity.
Qed.

(** A URL without white space around it that stands on a line is what the
    loader of the completed ledger takes from the line. *)
Lemma completed_url_body line url :
  url <> "" -> ~ starts_with is_space url -> ~ ends_with is_space url ->
  line_body line url -> completed_url line = url.
Proof.
  intros Hne Hs He Hb.
  assert (Hst : strip is_space url = url) by (apply strip_not_around; assumption).
  unfold completed_url. destruct Hb as [->|[-> _]]; [|exact Hst].
  rewrite (strip_app _ _ _ Hne Hst). change (rstrip is_space LF) with "".
  apply str_app_nil_r.
Qed.

Lemma process_csv_urls_no_key_events E csv_file language w :
  ~ has_api_key E -> folder_ok E w ->
  events (process_csv_urls E csv_file language w).1 = events w.
Proof.
  intros Hno Hok.
  destruct (process_csv_urls_no_key E csv_file language w Hno Hok)
    as (w' & _ & Hev & [[_ ->]|[_ [-> _]]]); exact Hev.
Qed.

Lemma sample_no_api_key rows : ~ has_api_key (sample_env None rows).
Proof. intros (c & k & Hk). discriminate. Qed.

(** C2, as the specification states it, fails in both halves.  Without the
    API key no record is fetched, whatever the ledgers hold; and a URL with
    a blank before it that stands on a line of the completed ledger is
    fetched all the same, since the loader takes the line without the white
    space around it. *)
Lemma process_csv_urls_ledgers_counterexample :
  ~ (forall E csv_file language w r,
        r ∈ loaded_records E csv_file w ->
        (forall line, line ∈ file_lines (ledger w completed_file) ->
                      ~ line_body line (record_url r)) ->
        (forall line body, line ∈ file_lines (ledger w failed_file) ->
                           line_body line body -> ~ first_field body (record_url r)) ->
        ApiCall (record_url r) language
        ∈ events (process_csv_urls E csv_file language w).1)
  /\ ~ (forall E csv_file language w url l line,
          line ∈ file_lines (ledger w completed_file) -> line_body line url ->
          ApiCall url l ∈ events (process_csv_urls E csv_file language w).1 ->
          ApiCall url l ∈ events w).
Proof.
  split.
  - intros H.
    specialize (H (sample_env None sample_rows) "youtube_url.csv" "en" (sample_world "")
                  ("abc123DEFgh", "https://youtu.be/abc123DEFgh", "Intro video")).
    rewrite (process_csv_urls_no_key_events _ _ _ _ (sample_no_api_key _)
               (sample_folder_ok _ _ _)) in H.
    eapply elem_of_nil, H.
    + assert (Hl : exists rest,
                 loaded_records (sample_env None sample_rows) "youtube_url.csv"
                   (sample_world "")
                 = ("abc123DEFgh", "https://youtu.be/abc123DEFgh", "Intro video") :: rest)
        by (eexists; vm_compute; reflexivity).
      destruct Hl as (rest & ->). apply list_elem_of_here.
    + intros line Hin. change (line ∈ []) in Hin. apply elem_of_nil in Hin. contradiction.
    + intros line body Hin. change (line ∈ []) in Hin. apply elem_of_nil in Hin.
      contradiction.
  - intros H.
    pose (E := sample_env (Some "key") [["xyz"; " https://youtu.be/xyz"]]).
    specialize (H E "youtube_url.csv" "en" padded_world " https://youtu.be/xyz" "en"
                  (" https://youtu.be/xyz" +:+ LF)).
    eapply elem_of_nil, H.
    + change (file_lines (ledger padded_world completed_file))
        with [" https://youtu.be/xyz" +:+ LF]. apply list_elem_of_here.
    + left. reflexivity.
    + destruct (process_csv_urls_events E "youtube_url.csv" "en" padded_world
                  (sample_has_api_key _) (sample_folder_ok _ _ _)) as (w' & -> & Hev).
      cbn [fst]. rewrite Hev.
      assert (Hp : planned E "youtube_url.csv" padded_world
                   = [("xyz", " https://youtu.be/xyz", "")]) by (vm_compute; reflexivity).
      rewrite Hp. apply list_elem_of_here.
Qed.

(** C2, amended. A run with the API key and a transcripts directory, over a
    failed ledger whose lines read are tidy, returns, and the records it
    fetches are, in the order of the CSV file, the CSV records whose URL is
    listed in neither ledger as read at the start: no line read from the
    completed ledger is the URL with white space around it, and no line
    read from the failed ledger has it as its first tab-delimited field.
    In every run, a URL without white space around it that stands on a line
    read from the completed ledger, or is the first tab-delimited field of a
    line read from the failed ledger, is not fetched. *)
Theorem process_csv_urls_pending (E : Env) (csv_file language : string) (w : World) :
  (has_api_key E -> folder_ok E w ->
   (forall line, line ∈ ledger_lines E w failed_file -> tidy_line line) ->
   exists w' todo,
     process_csv_urls E csv_file language w = (w', Return tt) /\
     selects (unlisted E w) (loaded_records E csv_file w) todo /\
     api_calls (events w') = api_calls (events w) ++ (call_of language <$> todo))
  /\ (forall url l,
        url <> "" -> ~ starts_with is_space url -> ~ ends_with is_space url ->
        (exists line, line ∈ ledger_lines E w completed_file /\ line_body line url)
        \/ (exists line body, line ∈ ledger_lines E w failed_file /\
                              line_body line body /\ first_field body url) ->
        ApiCall url l ∈ events (process_csv_urls E csv_file language w).1 ->
        ApiCall url l ∈ events w).
Proof.
  split.
  - intros Hkey Hok Htidy.
    destruct (process_csv_urls_events E csv_file language w Hkey Hok) as (w' & Hrun & Hev).
    exists w', (planned E csv_file w). split; [exact Hrun|]. split.
    + unfold planned, pending. apply selects_filter. intros r.
      apply (unlisted_iff E w r Htidy).
    + rewrite Hev, api_calls_app, api_calls_schedule. reflexivity.
  - intros url l Hne Hs He Hlisted Hin.
    destruct (process_csv_urls_new_events E csv_file language w)
      as (w' & r & Hrun & [Hev|Hev]); rewrite Hrun in Hin; cbn [fst] in Hin;
      rewrite Hev in Hin; [exact Hin|].
    apply elem_of_app in Hin as [Hin|Hin]; [exact Hin|exfalso].
    apply schedule_call in Hin as (r0 & Hr0 & -> & _).
    apply planned_elem in Hr0 as (_ & Hc & Hf).
    destruct Hlisted as [(line & Hl & Hb)|(line & body & Hl & Hb & Hfield)].
    + apply Hc. rewrite loaded_set_completed. apply url_set_elem.
      split; [exact Hne|]. exists line. split; [exact Hl|].
      symmetry. apply completed_url_body; assumption.
    + apply Hf. rewrite loaded_set_failed. apply url_set_elem.
      split; [exact Hne|]. exists line. split; [exact Hl|].
      symmetry. apply (failed_url_tidy line body); try assumption.
      intros Hnil. contradiction.
Qed.

Lemma process_csv_urls_pending_witness :
  (exists w',
      process_csv_urls (sample_env (Some "key") sample_rows) "youtube_url.csv" "en"
        (sample_world ("https://youtu.be/xyz" +:+ TAB +:+ "no captions" +:+ LF))
      = (w', Return tt) /\
      api_calls (events w') =
      [] ++ [ ("https://youtu.be/abc123DEFgh", "en"); ("https://youtu.be/abc123DEFgh", "en") ])
  /\ (forall l,
        ApiCall "https://youtu.be/xyz" l
        ∉ events (process_csv_urls (sample_env (Some "key") sample_rows)
                    "youtube_url.csv" "en"
                    (sample_world ("https://youtu.be/xyz" +:+ TAB +:+ "no captions" +:+ LF))).1).
Proof.
  pose (E := sample_env (Some "key") sample_rows).
  pose (w := sample_world ("https://youtu.be/xyz" +:+ TAB +:+ "no captions" +:+ LF)).
  assert (Hlines : ledger_lines E w failed_file
                   = ["https://youtu.be/xyz" +:+ TAB +:+ "no captions" +:+ LF])
    by reflexivity.
  assert (Hs : ~ starts_with is_space "https://youtu.be/xyz")
    by (rewrite starts_with_cons; discriminate).
  assert (He : ~ ends_with is_space "https://youtu.be/xyz")
    by (intros H; apply (rstrip_not_ends_with is_space "https://youtu.be/xyz"), H).
  assert (Hb : line_body ("https://youtu.be/xyz" +:+ TAB +:+ "no captions" +:+ LF)
                 ("https://youtu.be/xyz" +:+ TAB +:+ "no captions"))
    by (left; reflexivity).
  assert (Hf : first_field ("https://youtu.be/xyz" +:+ TAB +:+ "no captions")
                 "https://youtu.be/xyz")
    by (split; [reflexivity|right; eauto]).
  assert (Htidy : forall line, line ∈ ledger_lines E w failed_file -> tidy_line line).
  { intros line Hin. rewrite Hlines in Hin. apply list_elem_of_singleton in Hin.
    subst line. eexists _, _. split; [exact Hb|]. split; [exact Hf|].
    split; [discriminate|]. split; assumption. }
  destruct (process_csv_urls_pending E "youtube_url.csv" "en" w) as [HA HB].
  split.
  - destruct (HA (sample_has_api_key sample_rows) (sample_folder_ok _ _ _) Htidy)
      as (w' & todo & Hrun & Hsel & Hcalls).
    exists w'. split; [exact Hrun|]. rewrite Hcalls.
    assert (Htodo : todo = planned E "youtube_url.csv" w).
    { apply (selects_unique _ _ _ _ Hsel). unfold planned, pending.
      apply selects_filter. intros r. apply (unlisted_iff E w r Htidy). }
    rewrite Htodo. vm_compute. reflexivity.
  - intros l Hin. eapply elem_of_nil. apply (HB "https://youtu.be/xyz" l); try assumption.
    + discriminate.
    + right. eexists _, _. split; [|split; [exact Hb|exact Hf]].
      rewrite Hlines. apply list_elem_of_here.
Defined.

(** ** Runs without the API key *)

(** C8, as the specification states it, fails: without the API key a run
    with records to process fetches none of them. *)
Lemma process_csv_urls_order_counterexample :
  ~ (forall E csv_file language w,
        planned E csv_file w <> [] ->
        events (process_csv_urls E csv_file language w).1
        = events w ++ schedule language (planned E csv_file w)).
Proof.
  intros H.
  specialize (H (sample_env None sample_rows) "youtube_url.csv" "en" (sample_world "")).
  rewrite (process_csv_urls_no_key_events _ _ _ _ (sample_no_api_key _)
             (sample_folder_ok _ _ _)) in H.
  assert (Hp : planned (sample_env None sample_rows) "youtube_url.csv" (sample_world "")
               <> []) by (vm_compute; discriminate).
  specialize (H Hp). vm_compute in H. discriminate.
Qed.

(** C10, as the specification states it, fails: without the API key a URL
    that is in neither ledger and in two rows of the CSV file is not
    fetched at all. *)
Lemma process_csv_urls_repeats_counterexample :
  ~ (forall E csv_file language w url,
        url ∉ loaded_set (load_completed_urls E w) ->
        url ∉ loaded_set (load_failed_urls E w) ->
        length (filter (fun c : string * string => c.1 = url)
                  (api_calls (events (process_csv_urls E csv_file language w).1)))
        = length (filter (fun c : string * string => c.1 = url) (api_calls (events w)))
          + length (filter (fun r => record_url r = url) (loaded_records E csv_file w))).
Proof.
  intros H.
  specialize (H (sample_env None sample_rows) "youtube_url.csv" "en" (sample_world "")
                "https://youtu.be/abc123DEFgh").
  rewrite (process_csv_urls_no_key_events _ _ _ _ (sample_no_api_key _)
             (sample_folder_ok _ _ _)) in H.
  assert (H1 : "https://youtu.be/abc123DEFgh"
               ∉ loaded_set (load_completed_urls (sample_env None sample_rows)
                               (sample_world "")))
    by (vm_compute; intros Hin; discriminate Hin).
  assert (H2 : "https://youtu.be/abc123DEFgh"
               ∉ loaded_set (load_failed_urls (sample_env None sample_rows)
                               (sample_world "")))
    by (vm_compute; intros Hin; discriminate Hin).
  specialize (H H1 H2). vm_compute in H. discriminate.
Qed.

(** ** The URL shapes by their names *)

Lemma has_part_app t pre : forall post, has_part t (pre +:+ t +:+ post) = true.
Proof.
  induction pre as [|c pre IH]; intros post.
  - rewrite str_app_nil_l. destruct (t +:+ post) eqn:Heq; simpl.
    + destruct t; [reflexivity|discriminate].
    + rewrite <- Heq, drop_prefix_app. reflexivity.
  - rewrite str_app_cons. simpl.
    destruct (Re.drop_prefix t (String c (pre +:+ t +:+ post))); [reflexivity|apply IH].
Qed.

Lemma occurs_has_part t s : occurs t s -> has_part t s = true.
Proof. intros (pre & post & ->). apply has_part_app. Qed.

(** A URL of a named shape holds one of the markers. *)
Lemma named_shape_marker url v :
  named_shape url v ->
  has_part "watch?v=" url || has_part "youtu.be/" url || has_part "embed/" url
  || has_part "v/" url || has_part "&v=" url = true.
Proof.
  intros (pre & marker & post & -> & _ & [Hm|(mid & ->)]).
  - assert (Ho : occurs marker (pre +:+ marker +:+ v +:+ post))
      by (exists pre, (v +:+ post); reflexivity).
    apply occurs_has_part in Ho.
    repeat (apply elem_of_cons in Hm as [->|Hm]; [rewrite Ho, ?orb_true_r; reflexivity|]).
    apply elem_of_nil in Hm. contradiction.
  - assert (Ho : occurs "&v=" (pre +:+ ("watch?" +:+ mid +:+ "&v=") +:+ v +:+ post)).
    { exists (pre +:+ "watch?" +:+ mid), (v +:+ post). rewrite !str_app_assoc. reflexivity. }
    apply occurs_has_part in Ho. rewrite Ho, ?orb_true_r. reflexivity.
Qed.

(** C9, as the specification states it, fails both ways: a URL with the
    marker [embed/] on another host has a named shape and no video id is
    found, and a URL without any of the named markers has one found. *)
Lemma extract_video_id_named_shapes_counterexample :
  ~ (forall url v, named_shape url v ->
                   exists v', extract_video_id url = Some v' /\ video_id_text v')
  /\ ~ (forall url, (forall v, ~ named_shape url v) -> extract_video_id url = None).
Proof.
  split.
  - intros H.
    destruct (H "https://www.youtube-nocookie.com/embed/AAAAAAAAAAA" "AAAAAAAAAAA")
      as (v' & Hv & _).
    + exists "https://www.youtube-nocookie.com/", "embed/", "".
      split; [reflexivity|]. split; [split; reflexivity|].
      left. apply list_elem_of_further, list_elem_of_further, list_elem_of_here.
    + vm_compute in Hv. discriminate.
  - intros H.
    specialize (H "https://www.youtube.com/watch?rev=AAAAAAAAAAA").
    assert (Hv : extract_video_id "https://www.youtube.com/watch?rev=AAAAAAAAAAA"
                 = Some "AAAAAAAAAAA") by (vm_compute; reflexivity).
    rewrite Hv in H. discriminate H.
    intros v Hshape. apply named_shape_marker in Hshape.
    vm_compute in Hshape. discriminate.
Qed.
